(** * ush: the pipeline execution engine of main.c

    A shallow embedding of [process_pipe], [process_cmd],
    [perform_pipe_redirect], [perform_io_redirect] and of the built-ins
    [exec_echo], [exec_nice] and [is_number], over an explicit model of the
    per-process descriptor table. *)

From Stdlib Require Import ZArith Ascii String.
From stdpp Require Import gmap strings list fin_maps.

Local Open Scope string_scope.
Local Open Scope list_scope.
Local Open Scope Z_scope.

(** ** Kernel objects and the per-process descriptor table *)

(** What a descriptor refers to.  [Std n] is whatever the shell had open at
    descriptor [n] before the pipeline started (terminal, rc file, ...);
    [PipeR k] and [PipeW k] are the two endpoints of the [k]-th channel
    created by [pipe]; [FileR] and [FileW] are files opened by a
    redirection. *)
Inductive filedesc : Type :=
  | Std (n : Z)
  | PipeR (k : nat)
  | PipeW (k : nat)
  | FileR (path : string)
  | FileW (path : string) (append : bool).

#[global] Instance filedesc_eq_dec : EqDecision filedesc.
Proof. solve_decision. Defined.

Definition is_pipe_end (d : filedesc) : bool :=
  match d with
  | PipeR _ | PipeW _ => true
  | _ => false
  end.

Module Fd.

(** The lowest descriptor number that is not open.  A table with [n]
    entries has a free number among [0..n]. *)
Fixpoint scan (t : gmap Z filedesc) (from : Z) (fuel : nat) : Z :=
  match fuel with
  | O => from
  | S fuel' =>
      match t !! from with
      | None => from
      | Some _ => scan t (from + 1) fuel'
      end
  end.

Definition lowest_free (t : gmap Z filedesc) : Z := scan t 0 (size t).

(** close(fd): a descriptor that is not open (in particular -1) gives
    EBADF and changes nothing. *)
Definition close (fd : Z) (t : gmap Z filedesc) : gmap Z filedesc :=
  delete fd t.

(** dup2(oldfd, newfd): fails with EBADF, leaving [newfd] as it was, when
    [oldfd] is not open. *)
Definition dup2 (oldfd newfd : Z) (t : gmap Z filedesc) : gmap Z filedesc :=
  match t !! oldfd with
  | Some d => <[newfd := d]> t
  | None => t
  end.

(** dup(fd): the new descriptor, or -1. *)
Definition dup (fd : Z) (t : gmap Z filedesc) : Z * gmap Z filedesc :=
  match t !! fd with
  | Some d => let n := lowest_free t in (n, <[n := d]> t)
  | None => (-1, t)
  end.

(** A successful pipe(): the read end, the write end, the new table. *)
Definition pipe (k : nat) (t : gmap Z filedesc) : Z * Z * gmap Z filedesc :=
  let r := lowest_free t in
  let t1 := <[r := PipeR k]> t in
  let w := lowest_free t1 in
  (r, w, <[w := PipeW k]> t1).

(** A successful open(). *)
Definition open (d : filedesc) (t : gmap Z filedesc) : Z * gmap Z filedesc :=
  let n := lowest_free t in (n, <[n := d]> t).

(** The channel a descriptor is an endpoint of. *)
Definition chan_of (d : filedesc) : option nat :=
  match d with
  | PipeR k | PipeW k => Some k
  | _ => None
  end.

(** The channels of which the process holds an endpoint open. *)
Definition channels (t : gmap Z filedesc) : gset nat :=
  list_to_set (omap (λ kv, chan_of kv.2) (map_to_list t)).

End Fd.

Definition std_table : gmap Z filedesc :=
  <[0 := Std 0]> (<[1 := Std 1]> (<[2 := Std 2]> ∅)).

(** ** Commands

    Modelled from the spec: parse.h is not part of the sources; the command
    structure is the one of the spec's data model (argument vector,
    input-redirection and output-redirection descriptors, successor), with
    the token names main.c uses.  The successor link [c->next] is the rest
    of the list a command sits in. *)
Inductive token : Type :=
  | Tnil | Tin | Tout | Tapp | ToutErr | TappErr | Tpipe | TpipeErr.

#[global] Instance token_eq_dec : EqDecision token.
Proof. solve_decision. Defined.

Record Cmd : Type := mkCmd {
  args : list string;   (* args[0], args[1], ..., then NULL *)
  nargs : Z;
  cin : token;
  infile : string;
  cout : token;
  outfile : string
}.

(** A Pipe is the chain of its commands; a line is a chain of Pipes. *)
Definition Pipe : Type := list Cmd.

(** ** Process state *)

Inductive disposition : Type := SIG_DFL | SIG_IGN.

Record sigtab : Type := mkSig {
  sigint : disposition;
  sigquit : disposition;
  sigtstp : disposition
}.

(** How a process stopped running the shell's code. *)
Inductive ending : Type :=
  | Exited (status : Z)                 (* exit(status) *)
  | Execed (argv : list string)         (* execvp succeeded *)
  | Crashed.                            (* NULL dereference *)

(** A process created by fork, as its parent sees it: what it had bound
    when it stopped running the shell's code, what it had printed, how it
    ended, and the processes it had forked itself and not waited for (a
    child numbers its own children from 0, as its parent does). *)
#[warnings="-register-all"]
Inductive child : Type := mkChild {
  ch_pid : nat;
  ch_argv : list string;
  ch_sigs : sigtab;
  ch_fds : gmap Z filedesc;
  ch_out : list (option filedesc * string);
  ch_prio : list Z;
  ch_end : ending;
  ch_forked : list child
}.

(** The values [pipenum] and [mypipes] had, and the descriptor table, when
    [process_pipe] called [process_cmd] for a command. *)
Record wiring : Type := mkWiring {
  w_pipenum : Z;
  w_mypipes : (Z * Z) * (Z * Z);
  w_fds : gmap Z filedesc
}.

(** The globals of main.c and the kernel's view of the process.  [hist],
    [stages], [waits], [reaped], [kills] and [waited] are ghost fields: the
    descriptor tables the process went through, the wiring at each call of
    [process_cmd] from [process_pipe], the number of calls of wait, the
    processes they reaped, the number of calls of kill, and the descriptor
    table the process had at each call of wait. *)
Record proc : Type := mkProc {
  pipenum : Z;
  mypipes : (Z * Z) * (Z * Z);
  processing_rc : Z;
  sigs : sigtab;
  fds : gmap Z filedesc;
  npipe : nat;                      (* calls of pipe so far *)
  nfork : nat;                      (* calls of fork so far *)
  children : list child;            (* forked and not yet waited for *)
  out : list (option filedesc * string);   (* printf: target of fd 1, text *)
  prio : list Z;                    (* arguments of setpriority *)
  hist : list (gmap Z filedesc);
  stages : list wiring;
  waits : nat;
  reaped : list nat;
  kills : nat;
  waited : list (gmap Z filedesc)
}.

(** What running a piece of the shell's code in a process gives: it
    returns, or the process exits, or it crashes. *)
Inductive outcome (A : Type) : Type :=
  | Ret (a : A) (s : proc)
  | Exit (status : Z) (s : proc)
  | Crash (s : proc).
Arguments Ret {A} a s.
Arguments Exit {A} status s.
Arguments Crash {A} s.

Definition bind {A B : Type} (m : outcome A) (k : A → proc → outcome B)
  : outcome B :=
  match m with
  | Ret a s => k a s
  | Exit st s => Exit st s
  | Crash s => Crash s
  end.

(** C's [!] on an int. *)
Definition c_not (x : Z) : Z := if x =? 0 then 1 else 0.

(** mypipes[i] for i in {0, 1}. *)
Definition slot (mp : (Z * Z) * (Z * Z)) (i : Z) : Z * Z :=
  if i =? 0 then mp.1 else mp.2.

Definition set_slot (mp : (Z * Z) * (Z * Z)) (i : Z) (v : Z * Z)
  : (Z * Z) * (Z * Z) :=
  if i =? 0 then (v, mp.2) else (mp.1, v).

Definition set_fds (t : gmap Z filedesc) (s : proc) : proc :=
  mkProc (pipenum s) (mypipes s) (processing_rc s) (sigs s) t (npipe s)
    (nfork s) (children s) (out s) (prio s) (hist s ++ [t]) (stages s)
    (waits s) (reaped s) (kills s) (waited s).

Definition set_pipenum (n : Z) (s : proc) : proc :=
  mkProc n (mypipes s) (processing_rc s) (sigs s) (fds s) (npipe s)
    (nfork s) (children s) (out s) (prio s) (hist s) (stages s)
    (waits s) (reaped s) (kills s) (waited s).

Definition set_mypipes (mp : (Z * Z) * (Z * Z)) (s : proc) : proc :=
  mkProc (pipenum s) mp (processing_rc s) (sigs s) (fds s) (npipe s)
    (nfork s) (children s) (out s) (prio s) (hist s) (stages s)
    (waits s) (reaped s) (kills s) (waited s).

Definition set_sigs (g : sigtab) (s : proc) : proc :=
  mkProc (pipenum s) (mypipes s) (processing_rc s) g (fds s) (npipe s)
    (nfork s) (children s) (out s) (prio s) (hist s) (stages s)
    (waits s) (reaped s) (kills s) (waited s).

Definition set_npipe (n : nat) (s : proc) : proc :=
  mkProc (pipenum s) (mypipes s) (processing_rc s) (sigs s) (fds s) n
    (nfork s) (children s) (out s) (prio s) (hist s) (stages s)
    (waits s) (reaped s) (kills s) (waited s).

Definition set_nfork (n : nat) (s : proc) : proc :=
  mkProc (pipenum s) (mypipes s) (processing_rc s) (sigs s) (fds s) (npipe s)
    n (children s) (out s) (prio s) (hist s) (stages s)
    (waits s) (reaped s) (kills s) (waited s).

Definition set_children (l : list child) (s : proc) : proc :=
  mkProc (pipenum s) (mypipes s) (processing_rc s) (sigs s) (fds s) (npipe s)
    (nfork s) l (out s) (prio s) (hist s) (stages s)
    (waits s) (reaped s) (kills s) (waited s).

Definition set_out (l : list (option filedesc * string)) (s : proc) : proc :=
  mkProc (pipenum s) (mypipes s) (processing_rc s) (sigs s) (fds s) (npipe s)
    (nfork s) (children s) l (prio s) (hist s) (stages s)
    (waits s) (reaped s) (kills s) (waited s).

(** printf(text), logged with what descriptor 1 is bound to at the call.
    The text is written there at once when stdout is unbuffered, which it
    is from [setbuf (stdout, NULL)] in main on, that is whenever
    [processing_rc] is 0 in [process_pipe]; while the rc file is processed
    stdout is buffered, and the text is written when the buffer is
    flushed. *)
Definition printf (text : string) (s : proc) : proc :=
  mkProc (pipenum s) (mypipes s) (processing_rc s) (sigs s) (fds s) (npipe s)
    (nfork s) (children s) (out s ++ [(fds s !! 1, text)]) (prio s) (hist s)
    (stages s) (waits s) (reaped s) (kills s) (waited s).

(** setpriority(PRIO_PROCESS, 0, p). *)
Definition setpriority (p : Z) (s : proc) : proc :=
  mkProc (pipenum s) (mypipes s) (processing_rc s) (sigs s) (fds s) (npipe s)
    (nfork s) (children s) (out s) (prio s ++ [p]) (hist s) (stages s)
    (waits s) (reaped s) (kills s) (waited s).

Definition log_stage (s : proc) : proc :=
  mkProc (pipenum s) (mypipes s) (processing_rc s) (sigs s) (fds s) (npipe s)
    (nfork s) (children s) (out s) (prio s) (hist s)
    (stages s ++ [mkWiring (pipenum s) (mypipes s) (fds s)])
    (waits s) (reaped s) (kills s) (waited s).

(** kill(-0, SIGQUIT). *)
Definition kill (s : proc) : proc :=
  mkProc (pipenum s) (mypipes s) (processing_rc s) (sigs s) (fds s) (npipe s)
    (nfork s) (children s) (out s) (prio s) (hist s) (stages s)
    (waits s) (reaped s) (S (kills s)) (waited s).

(** wait(): reaps one child when there is one (the model takes the oldest;
    which one it is does not matter below), returns -1 otherwise. *)
Definition wait (s : proc) : proc :=
  mkProc (pipenum s) (mypipes s) (processing_rc s) (sigs s) (fds s) (npipe s)
    (nfork s) (tail (children s)) (out s) (prio s) (hist s) (stages s)
    (S (waits s))
    (match children s with
     | [] => reaped s
     | c :: _ => reaped s ++ [ch_pid c]
     end)
    (kills s) (waited s ++ [fds s]).

Definition sys_close (fd : Z) (s : proc) : proc :=
  set_fds (Fd.close fd (fds s)) s.

Definition sys_dup2 (oldfd newfd : Z) (s : proc) : proc :=
  set_fds (Fd.dup2 oldfd newfd (fds s)) s.

Definition sys_dup (fd : Z) (s : proc) : Z * proc :=
  let r := Fd.dup fd (fds s) in (r.1, set_fds r.2 s).

Definition sys_open (d : filedesc) (s : proc) : Z * proc :=
  let r := Fd.open d (fds s) in (r.1, set_fds r.2 s).

(** ** What the code cannot decide by itself

    The results of the system calls that may fail, the text the
    environment built-ins print, and the values of the objects main.c reads
    without having initialised them. *)
Inductive exec_result : Type := ExecOk | ExecEACCES | ExecENOENT | ExecOther.

Record world : Type := mkWorld {
  pipe_ok : nat → bool;            (* does the n-th call of pipe succeed *)
  fork_ok : nat → bool;            (* does the n-th call of fork succeed *)
  can_read : string → bool;        (* open(path, O_RDONLY) succeeds *)
  can_write : string → bool;       (* open(path, O_CREAT | ...) succeeds *)
  execvp : list string → exec_result;
  (* cd, pwd, setenv, unsetenv, where: the lines printed, or None when the
     handler dereferences a NULL argument *)
  environment_builtin : Z → list string → option (list string);
  temp_next_null : bool;           (* temp->next == NULL, after malloc *)
  temp_nargs : Z;                  (* temp->nargs, after malloc *)
  child_status : nat → Z           (* the local child_status, never assigned *)
}.

(** ** Helpers of main.c that need no state *)

Definition builtin_cmd_handle : list string :=
  ["cd"; "echo"; "logout"; "nice"; "pwd"; "setenv"; "unsetenv"; "where"].

Fixpoint is_builtin_from (tbl : list string) (i : Z) (cmd_name : string) : Z :=
  match tbl with
  | [] => -1
  | n :: tbl' =>
      if String.eqb n cmd_name then i else is_builtin_from tbl' (i + 1) cmd_name
  end.

(** [process_cmd] hands it [c->args[0]], which is not NULL. *)
Definition is_builtin (cmd_name : string) : Z :=
  is_builtin_from builtin_cmd_handle 0 cmd_name.

Definition isdigit (ch : ascii) : bool :=
  let n := nat_of_ascii ch in ((48 <=? n) && (n <=? 57))%nat.

Fixpoint only_digits (str : string) : Z :=
  match str with
  | EmptyString => 1
  | String ch str' => if isdigit ch then only_digits str' else 0
  end.

Definition is_number (str : string) : Z :=
  match str with
  | String "-"%char str' => only_digits str'
  | _ => only_digits str
  end.

(** atoi of the C library, which is [(int) strtol (str, NULL, 10)]: white
    space, an optional sign, then the longest run of digits, read in base
    10; strtol gives a long, LONG_MIN or LONG_MAX when the number is
    outside of it, and the conversion to int keeps the low 32 bits, in two's
    complement (a 64-bit long, as on the Linux the shell is written
    for). *)
Definition isspace (ch : ascii) : bool :=
  let n := nat_of_ascii ch in ((n =? 32) || ((9 <=? n) && (n <=? 13)))%nat.

Fixpoint atoi_digits (str : string) (acc : Z) : Z :=
  match str with
  | EmptyString => acc
  | String ch str' =>
      if isdigit ch
      then atoi_digits str' (10 * acc + (Z.of_nat (nat_of_ascii ch) - 48))
      else acc
  end.

Definition atoi_signed (str : string) : Z :=
  match str with
  | String "-"%char str' => - atoi_digits str' 0
  | String "+"%char str' => atoi_digits str' 0
  | _ => atoi_digits str 0
  end.

(** The number after the white space, however large. *)
Fixpoint atoi_spaces (str : string) : Z :=
  match str with
  | EmptyString => 0
  | String ch str' => if isspace ch then atoi_spaces str' else atoi_signed str
  end.

Definition INT_MIN : Z := - 2 ^ 31.
Definition INT_MAX : Z := 2 ^ 31 - 1.
Definition LONG_MIN : Z := - 2 ^ 63.
Definition LONG_MAX : Z := 2 ^ 63 - 1.

Definition strtol (str : string) : Z :=
  Z.max LONG_MIN (Z.min LONG_MAX (atoi_spaces str)).

(** The conversion of a long to int. *)
Definition to_int (x : Z) : Z := (x + 2 ^ 31) mod 2 ^ 32 - 2 ^ 31.

Definition atoi (str : string) : Z := to_int (strtol str).

(** WEXITSTATUS of <sys/wait.h>. *)
Definition WEXITSTATUS (status : Z) : Z :=
  Z.shiftr (Z.land status 65280) 8.

(** What [exec_nice] decides before it calls setpriority: the priority and
    where the command to run starts, or None when is_number is handed the
    NULL that ends the argument vector. *)
Inductive nice_cmd : Type := NoCmd | FromArg1 | FromArg2.

Definition nice_plan (c : Cmd) : option (Z * nice_cmd) :=
  if nargs c >? 1 then
    match args c !! 1%nat with
    | None => None
    | Some a1 =>
        if is_number a1 =? 1 then
          let priority := atoi a1 in
          let priority :=
            if priority <? -19 then -19
            else if priority >? 20 then 20
            else priority in
          Some (priority,
                match args c !! 2%nat with
                | Some _ => FromArg2
                | None => NoCmd
                end)
        else Some (4, FromArg1)
    end
  else Some (4, NoCmd).

(** ** The shell's code *)

Section Shell.

Variable W : world.

(** pipe(mypipes[pipenum]): on failure the array is left as it was. *)
Definition sys_pipe (s : proc) : proc :=
  let s1 := set_npipe (S (npipe s)) s in
  if pipe_ok W (npipe s) then
    let r := Fd.pipe (npipe s) (fds s) in
    set_mypipes (set_slot (mypipes s) (pipenum s) r.1) (set_fds r.2 s1)
  else s1.

Definition perform_pipe_redirect (c : Cmd) (s : proc) : proc :=
  let s := sys_dup2 (slot (mypipes s) (c_not (pipenum s))).1 0 s in
  let s := sys_close (slot (mypipes s) (c_not (pipenum s))).2 s in
  let s := sys_dup2 (slot (mypipes s) (pipenum s)).2 1 s in
  let s := sys_close (slot (mypipes s) (pipenum s)).1 s in
  if decide (cout c = TpipeErr)
  then sys_dup2 (slot (mypipes s) (pipenum s)).2 2 s
  else s.

(** One case of the switch on [c->out]: [d] is the file as the flags of
    open make it, [both] tells whether descriptor 2 is redirected too. *)
Definition redirect_output (path : string) (d : filedesc) (both : bool)
  (s : proc) : proc :=
  if can_write W path then
    let o := sys_open d s in
    let s := sys_dup2 o.1 1 o.2 in
    let s := if both then sys_dup2 o.1 2 s else s in
    sys_close o.1 s
  else s.

Definition perform_io_redirect (c : Cmd) (s : proc) : outcome unit :=
  bind
    (if decide (cin c = Tin) then
       if can_read W (infile c) then
         let i := sys_open (FileR (infile c)) s in
         Ret tt (sys_close i.1 (sys_dup2 i.1 0 i.2))
       else Exit (-1) s
     else Ret tt s)
    (λ _ s,
       Ret tt
         match cout c with
         | Tout => redirect_output (outfile c) (FileW (outfile c) false) false s
         | Tapp => redirect_output (outfile c) (FileW (outfile c) true) false s
         | ToutErr => redirect_output (outfile c) (FileW (outfile c) false) true s
         | TappErr => redirect_output (outfile c) (FileW (outfile c) true) true s
         | _ => s
         end).

Fixpoint echo_loop (rest : list string) (i : Z) (s : proc) : Z * proc :=
  match rest with
  | [] => (i, s)
  | a :: rest' => echo_loop rest' (i + 1) (printf (a +:+ " ") s)
  end.

Definition exec_echo (c : Cmd) (s : proc) : outcome unit :=
  let r := echo_loop (tail (args c)) 1 s in
  Ret tt (if r.1 =? 1 then r.2 else printf "
" r.2).

Definition exec_logout (c : Cmd) (s : proc) : outcome unit := Exit 0 s.

(** [sub1] and [sub2] are [process_cmd (temp)] for [temp->args] set to
    [&c->args[1]] and to [&c->args[2]]. *)
Definition exec_nice (sub1 sub2 : proc → outcome Z) (c : Cmd) (s : proc)
  : outcome unit :=
  match nice_plan c with
  | None => Crash s
  | Some (priority, cmd) =>
      let s := setpriority priority s in
      match cmd with
      | NoCmd => Ret tt s
      | FromArg1 => bind (sub1 s) (λ _ s, Ret tt s)
      | FromArg2 => bind (sub2 s) (λ _ s, Ret tt s)
      end
  end.

(** cd, pwd, setenv, unsetenv and where: they touch the environment and the
    working directory, and print. *)
Definition exec_environment (i : Z) (c : Cmd) (s : proc) : outcome unit :=
  match environment_builtin W i (args c) with
  | Some lines => Ret tt (foldl (λ s l, printf l s) s lines)
  | None => Crash s
  end.

(** builtin_cmd_handle[i].exec_cmd(c) *)
Definition exec_cmd (i : Z) (sub1 sub2 : proc → outcome Z) (c : Cmd)
  (s : proc) : outcome unit :=
  if i =? 1 then exec_echo c s
  else if i =? 2 then exec_logout c s
  else if i =? 3 then exec_nice sub1 sub2 c s
  else exec_environment i c s.

(** The copy of the process fork makes: no children of its own, nothing
    printed yet. *)
Definition forked (s : proc) : proc :=
  mkProc (pipenum s) (mypipes s) (processing_rc s) (sigs s) (fds s) (npipe s)
    0 [] [] [] [fds s] [] 0 [] 0 [].

Definition child_of (pid : nat) (argv : list string) (o : outcome ending)
  : child :=
  match o with
  | Ret e k =>
      mkChild pid argv (sigs k) (fds k) (out k) (prio k) e (children k)
  | Exit st k =>
      mkChild pid argv (sigs k) (fds k) (out k) (prio k) (Exited st)
        (children k)
  | Crash k =>
      mkChild pid argv (sigs k) (fds k) (out k) (prio k) Crashed (children k)
  end.

(** fork(): in the parent.  [body] is what the child runs. *)
Definition fork (argv : list string) (body : proc → outcome ending)
  (s : proc) : proc :=
  let s' := set_nfork (S (nfork s)) s in
  if fork_ok W (nfork s)
  then set_children
         (children s ++ [child_of (nfork s) argv (body (forked s))]) s'
  else s'.

Definition reset_signals (s : proc) : proc :=
  set_sigs (mkSig SIG_DFL SIG_DFL SIG_DFL) s.

(** The child of the built-in branch. *)
Definition builtin_child (i : Z) (sub1 sub2 : proc → outcome Z) (c : Cmd)
  (k : proc) : outcome ending :=
  let k := reset_signals k in
  let k := perform_pipe_redirect c k in
  bind (perform_io_redirect c k) (λ _ k,
  bind (exec_cmd i sub1 sub2 c k) (λ _ k,
  Exit 0 k)).

(** The child of the external branch. *)
Definition external_child (c : Cmd) (k : proc) : outcome ending :=
  let k := reset_signals k in
  let k := perform_pipe_redirect c k in
  bind (perform_io_redirect c k) (λ _ k,
  match execvp W (args c) with
  | ExecOk => Ret (Execed (args c)) k
  | ExecEACCES => Exit (-1) (printf "permission denied
" k)
  | ExecENOENT => Exit (-1) (printf "command not found
" k)
  | ExecOther => Exit (-1) k
  end).

(** The built-in branch for the last command of a pipe, run in the shell. *)
Definition builtin_in_shell (i : Z) (sub1 sub2 : proc → outcome Z) (c : Cmd)
  (s : proc) : outcome Z :=
  let saved_stdin := sys_dup 0 s in
  let saved_stdout := sys_dup 1 saved_stdin.2 in
  let s := perform_pipe_redirect c saved_stdout.2 in
  bind (perform_io_redirect c s) (λ _ s,
  bind (exec_cmd i sub1 sub2 c s) (λ _ s,
  let s := sys_dup2 saved_stdin.1 0 s in
  let s := sys_dup2 saved_stdout.1 1 s in
  let s := sys_close saved_stdin.1 s in
  let s := sys_close saved_stdout.1 s in
  Ret 0 s)).

(** [process_cmd], by recursion on the argument vector: [exec_nice] calls
    it again on a suffix of the vector it was given.  [last] is
    [c->next == NULL]. *)
Fixpoint process_cmd_args (argv : list string) (na : Z) (ci : token)
  (inf : string) (co : token) (outf : string) (last : bool) (s : proc)
  {struct argv} : outcome Z :=
  match argv with
  | [] => Crash s
  | name :: rest =>
      let c := mkCmd argv na ci inf co outf in
      let sub1 :=
        process_cmd_args rest (temp_nargs W) Tnil EmptyString Tnil
          EmptyString (temp_next_null W) in
      let sub2 :=
        match rest with
        | [] => Crash
        | _ :: rest2 =>
            process_cmd_args rest2 (temp_nargs W) Tnil EmptyString Tnil
              EmptyString (temp_next_null W)
        end in
      if String.eqb name "end" && (processing_rc s =? 0) then Exit 0 s
      else
        let i := is_builtin name in
        if negb (i =? -1) then
          if last then builtin_in_shell i sub1 sub2 c s
          else Ret 0 (fork argv (builtin_child i sub1 sub2 c) s)
        else Ret 0 (fork argv (external_child c) s)
  end.

Definition process_cmd (c : Cmd) (last : bool) (s : proc) : outcome Z :=
  process_cmd_args (args c) (nargs c) (cin c) (infile c) (cout c)
    (outfile c) last s.

(** [temp] of [exec_nice]: the argument vector from [cmd] on and no
    redirection; [nargs] and [next] are what malloc left there. *)
Definition nice_temp (argv : list string) : Cmd :=
  mkCmd argv (temp_nargs W) Tnil EmptyString Tnil EmptyString.

(** [process_cmd (temp)] for [cmd = &c->args[1]], [rest] being the
    arguments of [c] after its name. *)
Definition nice_sub1 (rest : list string) : proc → outcome Z :=
  process_cmd (nice_temp rest) (temp_next_null W).

(** [process_cmd (temp)] for [cmd = &c->args[2]]. *)
Definition nice_sub2 (rest : list string) : proc → outcome Z :=
  match rest with
  | [] => Crash
  | _ :: rest2 => process_cmd (nice_temp rest2) (temp_next_null W)
  end.

(** if (v[0] != 0) close(v[0]); if (v[1] != 1) close(v[1]); for a slot
    [v] of mypipes: the shell's own standard input and output are spared. *)
Definition close_stale (v : Z * Z) (s : proc) : proc :=
  let s := if negb (v.1 =? 0) then sys_close v.1 s else s in
  if negb (v.2 =? 1) then sys_close v.2 s else s.

(** The body of the for loop of [process_pipe] up to the call of
    [process_cmd]. *)
Definition next_stage (last : bool) (s : proc) : proc :=
  let s := set_pipenum (c_not (pipenum s)) s in
  let s := close_stale (slot (mypipes s) (pipenum s)) s in
  if last
  then
    let s :=
      set_mypipes
        (set_slot (mypipes s) (pipenum s)
           ((slot (mypipes s) (pipenum s)).1, 1)) s in
    set_mypipes
      (set_slot (mypipes s) (pipenum s)
         (-1, (slot (mypipes s) (pipenum s)).2)) s
  else sys_pipe s.

Fixpoint command_loop (cs : list Cmd) (no_of_child : Z) (s : proc)
  : outcome Z :=
  match cs with
  | [] => Ret no_of_child s
  | c :: next =>
      let no_of_child := no_of_child + 1 in
      let last := match next with [] => true | _ => false end in
      let s := next_stage last s in
      bind (process_cmd c last (log_stage s)) (λ ret s,
        if ret <? 0 then Ret no_of_child s
        else command_loop next no_of_child s)
  end.

(** The four closes after the loop. *)
Definition close_all (s : proc) : proc :=
  let s := close_stale (mypipes s).1 s in
  close_stale (mypipes s).2 s.

(** while (no_of_child--) *)
Fixpoint wait_loop (no_of_child : nat) (s : proc) : proc :=
  match no_of_child with
  | O => s
  | S n =>
      let status := child_status W (waits s) in
      let s := wait s in
      let s :=
        if WEXITSTATUS status =? -1
        then kill (printf "command failed, aborting entire pipeline
" s)
        else s in
      wait_loop n s
  end.

(** [process_pipe] up to the end of the for loop. *)
Definition launch_pipe (p : Pipe) (s : proc) : outcome Z :=
  let s := set_pipenum 0 s in
  let s := set_mypipes ((-1, -1), (-1, -1)) s in
  let s := set_mypipes (set_slot (mypipes s) (pipenum s)
                          (0, (slot (mypipes s) (pipenum s)).2)) s in
  command_loop p 0 s.

(** [process_pipe] on the chain [p], [p->next], ... *)
Fixpoint process_pipe (ps : list Pipe) (s : proc) : outcome unit :=
  match ps with
  | [] => Ret tt (set_mypipes ((-1, -1), (-1, -1)) (set_pipenum 0 s))
  | p :: next =>
      bind (launch_pipe p s) (λ no_of_child s,
        let s := close_all s in
        let s := wait_loop (Z.to_nat no_of_child) s in
        process_pipe next s)
  end.

End Shell.

(** The text a process has printed, in order. *)
Definition printed (l : list (option filedesc * string)) : string :=
  foldr (λ p acc, p.2 +:+ acc) EmptyString l.

Definition state_of {A : Type} (o : outcome A) : proc :=
  match o with
  | Ret _ s | Exit _ s | Crash s => s
  end.

(** An argument the spec calls numeric: an optional leading '-' followed
    only by digits. *)
Fixpoint all_digits (str : string) : Prop :=
  match str with
  | EmptyString => True
  | String ch str' => isdigit ch = true ∧ all_digits str'
  end.

Definition numeric_argument (str : string) : Prop :=
  ∃ digits : string,
    all_digits digits ∧ (str = digits ∨ str = String "-"%char digits).

(** The number such an argument writes, in base 10. *)
Definition digit_value (ch : ascii) : Z := Z.of_nat (nat_of_ascii ch) - 48.

Fixpoint decimal (digits : string) (acc : Z) : Z :=
  match digits with
  | EmptyString => acc
  | String ch digits' => decimal digits' (10 * acc + digit_value ch)
  end.

Definition number_value (str : string) : Z :=
  match str with
  | String "-"%char digits => - decimal digits 0
  | _ => decimal str 0
  end.

(** The command without its output redirection. *)
Definition without_output (c : Cmd) : Cmd :=
  mkCmd (args c) (nargs c) (cin c) (infile c) Tnil (outfile c).

Definition output_to_file (t : token) : bool :=
  match t with
  | Tout | Tapp | ToutErr | TappErr => true
  | _ => false
  end.

(** The priority the spec gives for a numeric argument. *)
Definition clamped (n : Z) : Z := Z.max (-19) (Z.min 20 n).

(** ** Relations between the states of a process

    [shrinks s s']: from [s] to [s'] the process went only through
    descriptor tables whose channels are channels of [s], it changed
    neither the log of stages nor its signal dispositions, and it did not
    call wait. *)
Definition shrinks (s s' : proc) : Prop :=
  stages s' = stages s ∧
  sigs s' = sigs s ∧
  (waits s' = waits s ∧ reaped s' = reaped s ∧ waited s' = waited s) ∧
  ∀ C : gset nat,
    Fd.channels (fds s) ⊆ C →
    Fd.channels (fds s') ⊆ C ∧
    ∃ L, hist s' = hist s ++ L ∧ Forall (λ t, Fd.channels t ⊆ C) L.

(** [keeps X t t']: every descriptor of [t] outside [X] is in [t'], bound
    to the same object. *)
Definition keeps (X : gset Z) (t t' : gmap Z filedesc) : Prop :=
  ∀ fd d, fd ∉ X → t !! fd = Some d → t' !! fd = Some d.

(** The descriptors the redirections of a command may rebind. *)
Definition redirected (co : token) : gset Z :=
  {[0; 1]} ∪
  match co with
  | ToutErr | TappErr | TpipeErr => {[2]}
  | _ => ∅
  end.

(** The two descriptors [perform_pipe_redirect] closes. *)
Definition discarded (s : proc) : gset Z :=
  {[(slot (mypipes s) (c_not (pipenum s))).2;
    (slot (mypipes s) (pipenum s)).1]}.

(** The part of the state [process_cmd] leaves alone. *)
Definition same_globals (s s' : proc) : Prop :=
  pipenum s' = pipenum s ∧ mypipes s' = mypipes s ∧
  processing_rc s' = processing_rc s ∧ npipe s' = npipe s ∧
  stages s' = stages s ∧ waits s' = waits s ∧ reaped s' = reaped s ∧
  kills s' = kills s.

(** At most one process was forked, and it is a new one. *)
Definition forked_at_most_one (s s' : proc) : Prop :=
  (nfork s ≤ nfork s')%nat ∧
  ∃ L, children s' = children s ++ L ∧ (length L ≤ 1)%nat ∧
       ∀ k, k ∈ L → (nfork s ≤ ch_pid k < nfork s')%nat.

(** At most [m] processes were forked, all new and all different. *)
Definition forked_some (m : nat) (s s' : proc) : Prop :=
  (nfork s ≤ nfork s')%nat ∧
  ∃ L, children s' = children s ++ L ∧ (length L ≤ m)%nat ∧
       NoDup (map ch_pid L) ∧
       ∀ k, k ∈ L → (nfork s ≤ ch_pid k < nfork s')%nat.

(** What a call of [process_cmd] that returns has done to the process. *)
Definition framed (co : token) (s s' : proc) : Prop :=
  same_globals s s' ∧
  forked_at_most_one s s' ∧
  keeps (redirected co ∪ discarded s) (fds s) (fds s') ∧
  keeps (redirected co) (fds s') (fds s).

(** Descriptors 0, 1 and 2 are open. *)
Definition std3 (t : gmap Z filedesc) : Prop :=
  is_Some (t !! 0) ∧ is_Some (t !! 1) ∧ is_Some (t !! 2).

(** [perform_pipe_redirect] closes none of 0, 1, 2. *)
Definition spared (s : proc) : Prop :=
  (0 ∉ discarded s) ∧ (1 ∉ discarded s) ∧ (2 ∉ discarded s).

(** What the file redirections of a command make of a descriptor table,
    when the input file, if any, can be opened: descriptor 0 bound to the
    input file, descriptor 1 (and 2) bound to the output file. *)
Definition file_out (W : world) (c : Cmd) : option (filedesc * bool) :=
  if can_write W (outfile c) then
    match cout c with
    | Tout => Some (FileW (outfile c) false, false)
    | Tapp => Some (FileW (outfile c) true, false)
    | ToutErr => Some (FileW (outfile c) false, true)
    | TappErr => Some (FileW (outfile c) true, true)
    | _ => None
    end
  else None.

Definition file_redirections (W : world) (c : Cmd) (t : gmap Z filedesc)
  : gmap Z filedesc :=
  let t := if decide (cin c = Tin) then <[0 := FileR (infile c)]> t else t in
  match file_out W c with
  | Some (d, true) => <[2 := d]> (<[1 := d]> t)
  | Some (d, false) => <[1 := d]> t
  | None => t
  end.

(** What [perform_pipe_redirect] makes of a descriptor table, for the
    values [pn] of pipenum and [mp] of mypipes. *)
Definition wired (co : token) (pn : Z) (mp : (Z * Z) * (Z * Z))
  (t : gmap Z filedesc) : gmap Z filedesc :=
  let t := Fd.dup2 (slot mp (c_not pn)).1 0 t in
  let t := Fd.close (slot mp (c_not pn)).2 t in
  let t := Fd.dup2 (slot mp pn).2 1 t in
  let t := Fd.close (slot mp pn).1 t in
  if decide (co = TpipeErr) then Fd.dup2 (slot mp pn).2 2 t else t.

(** The descriptor table of a launched command: channel wiring, then
    redirection to files. *)
Definition launched_table (W : world) (c : Cmd) (s : proc)
  : gmap Z filedesc :=
  file_redirections W c (wired (cout c) (pipenum s) (mypipes s) (fds s)).

Definition all_default : sigtab := mkSig SIG_DFL SIG_DFL SIG_DFL.

(** The shell after a successful fork of [kid]. *)
Definition with_child (kid : child) (s : proc) : proc :=
  set_children (children s ++ [kid]) (set_nfork (S (nfork s)) s).

(** ** The wiring invariant of [process_pipe] *)

(** The descriptor is one of the two of a slot. *)
Definition in_slot (v : Z * Z) (fd : Z) : Prop := fd = v.1 ∨ fd = v.2.

(** Every channel endpoint of the table sits in one of the two slots of
    [mypipes], and a slot holds endpoints of one channel at most. *)
Definition confined (mp : (Z * Z) * (Z * Z)) (t : gmap Z filedesc) : Prop :=
  ∃ c0 c1 : option nat,
    ∀ fd d k, t !! fd = Some d → Fd.chan_of d = Some k →
      (in_slot mp.1 fd ∧ c0 = Some k) ∨ (in_slot mp.2 fd ∧ c1 = Some k).

(** Descriptors 0 and 1 are open and are no channel endpoints. *)
Definition std_open (t : gmap Z filedesc) : Prop :=
  ∃ d0 d1, t !! 0 = Some d0 ∧ t !! 1 = Some d1 ∧
           Fd.chan_of d0 = None ∧ Fd.chan_of d1 = None.

Definition slots_sane (mp : (Z * Z) * (Z * Z)) : Prop :=
  mp.1.1 ≠ 1 ∧ mp.1.2 ≠ 0 ∧ mp.2.1 ≠ 1 ∧ mp.2.2 ≠ 0.

(** At most two channels have an endpoint in the table. *)
Definition at_most_two (t : gmap Z filedesc) : Prop :=
  (size (Fd.channels t) ≤ 2)%nat.

(** What the ghost fields say of a construction: every table the shell
    went through holds at most two channels, and at every call of
    [process_cmd] the channel endpoints were confined to the slots. *)
Definition construction_ok (s : proc) : Prop :=
  Forall at_most_two (hist s) ∧
  Forall (λ w, confined (w_mypipes w) (w_fds w)) (stages s).

Definition stage_inv (s : proc) : Prop :=
  std_open (fds s) ∧ slots_sane (mypipes s) ∧
  confined (mypipes s) (fds s) ∧ construction_ok s.

(** The shell before a pipeline: 0 and 1 open, no channel endpoint. *)
Definition ready (s : proc) : Prop :=
  is_Some (fds s !! 0) ∧ is_Some (fds s !! 1) ∧
  Fd.channels (fds s) = ∅ ∧
  Forall at_most_two (hist s) ∧ stages s = [].

(** What a command launched at the wiring [w] gets as standard input and
    as standard output from [perform_pipe_redirect]. *)
Definition input_source (c : Cmd) (w : wiring) : option filedesc :=
  wired (cout c) (w_pipenum w) (w_mypipes w) (w_fds w) !! 0.

Definition output_sink (c : Cmd) (w : wiring) : option filedesc :=
  wired (cout c) (w_pipenum w) (w_mypipes w) (w_fds w) !! 1.

(** The read endpoint of the slot that is not current, the write endpoint
    of the current slot. *)
Definition not_current_read (w : wiring) : option filedesc :=
  w_fds w !! (slot (w_mypipes w) (c_not (w_pipenum w))).1.

Definition current_write (w : wiring) : option filedesc :=
  w_fds w !! (slot (w_mypipes w) (w_pipenum w)).2.

(** The wirings [ws] logged for the commands [cs], the first of which is
    to read from [src]: each command reads from the read endpoint of the
    slot that is not current and writes to the write endpoint of the
    current slot; the first reads from [src]; a command that has a
    successor writes to the write end of the channel its successor reads
    from; the last writes to [stdout].  The log is shorter than the pipe
    when the shell exited on the way. *)
Fixpoint wiring_chain (src stdout : filedesc) (cs : list Cmd)
  (ws : list wiring) : Prop :=
  match ws, cs with
  | [], _ => True
  | _ :: _, [] => False
  | w :: ws', c :: cs' =>
      input_source c w = Some src ∧
      input_source c w = not_current_read w ∧
      output_sink c w = current_write w ∧
      match cs' with
      | [] => output_sink c w = Some stdout ∧ ws' = []
      | _ :: _ =>
          ∃ k, output_sink c w = Some (PipeW k) ∧
               wiring_chain (PipeR k) stdout cs' ws'
      end
  end.

(** Between two commands of a pipe whose channels could all be created:
    0, 1 and 2 are open and are no channel endpoints; the current slot
    holds [src], which the next command is to read from, and, unless it is
    the initial (0, -1), the write end of the same channel; the other
    slot, which is closed next, names none of these. *)
Definition linked (src : filedesc) (s : proc) : Prop :=
  let cur := slot (mypipes s) (pipenum s) in
  let old := slot (mypipes s) (c_not (pipenum s)) in
  std3 (fds s) ∧
  (∀ x d, x = 0 ∨ x = 1 ∨ x = 2 → fds s !! x = Some d →
          Fd.chan_of d = None) ∧
  (old.1 ≠ 1 ∧ old.1 ≠ 2 ∧ old.2 ≠ 0 ∧ old.2 ≠ 1 ∧ old.2 ≠ 2) ∧
  fds s !! cur.1 = Some src ∧
  ((cur = (0, -1) ∧ old.1 ≠ 0) ∨
   (∃ k, src = PipeR k ∧ fds s !! cur.2 = Some (PipeW k) ∧
         ¬ in_slot old cur.1 ∧ ¬ in_slot old cur.2)).

(** The shell at the call of [process_cmd] for a command that is to read
    from [src]. *)
Definition at_stage (src : filedesc) (last : bool) (s : proc) : Prop :=
  let prev := slot (mypipes s) (c_not (pipenum s)) in
  let cur := slot (mypipes s) (pipenum s) in
  std3 (fds s) ∧
  (∀ x d, x = 0 ∨ x = 1 ∨ x = 2 → fds s !! x = Some d →
          Fd.chan_of d = None) ∧
  fds s !! prev.1 = Some src ∧
  (prev.2 ≠ 0 ∧ prev.2 ≠ 1 ∧ prev.2 ≠ 2) ∧
  (prev.2 < 0 ∨ is_Some (fds s !! prev.2)) ∧
  if last then cur = (-1, 1)
  else ∃ k, linked (PipeR k) s ∧ fds s !! cur.2 = Some (PipeW k) ∧
            cur.2 ≠ prev.2 ∧
            (cur.1 ≠ 0 ∧ cur.1 ≠ 1 ∧ cur.1 ≠ 2) ∧
            (cur.2 ≠ 0 ∧ cur.2 ≠ 1 ∧ cur.2 ≠ 2).

(** The shell before a pipeline, with its standard error open too. *)
Definition ready3 (s : proc) : Prop := ready s ∧ is_Some (fds s !! 2).

(** ** What a launched command holds *)

(** The table holds no channel by both of its ends. *)
Definition one_way (t : gmap Z filedesc) : Prop :=
  ∀ k fd fd', t !! fd = Some (PipeR k) → t !! fd' = Some (PipeW k) → False.

(** The channels of the table were all made by earlier calls of pipe. *)
Definition fresh_ids (s : proc) : Prop :=
  ∀ fd d k, fds s !! fd = Some d → Fd.chan_of d = Some k → (k < npipe s)%nat.

(** From [s] to [s'] the process has only gained children, and each new
    child has the default disposition for the three signals. *)
Definition born_default (s s' : proc) : Prop :=
  ∃ L, children s' = children s ++ L ∧
       Forall (λ kid, ch_sigs kid = all_default) L.



(** A command for which [process_cmd] forks a process that is to call
    execvp: its name is no built-in and is not [end]. *)
Definition runs_program (c : Cmd) : Prop :=
  ∃ name rest,
    args c = name :: rest ∧ is_builtin name = -1 ∧ name ≠ "end".

(** A command without redirection from or to a file. *)
Definition unredirected (c : Cmd) : Prop :=
  cin c ≠ Tin ∧ output_to_file (cout c) = false.

(** The wiring of a process: what [log_stage] logs of it. *)
Definition wiring_of (s : proc) : wiring :=
  mkWiring (pipenum s) (mypipes s) (fds s).

(** The process forked for the command [c] by a shell in the state [st],
    after the first two steps of either child of [process_cmd]. *)
Definition spawned (c : Cmd) (st : proc) : proc :=
  perform_pipe_redirect c (reset_signals (forked st)).

(** Forked by a shell at the wiring [w], the process of the command [c]
    has [d] as its standard input, as its standard output, when it has
    run [perform_pipe_redirect]. *)
Definition reads_from (c : Cmd) (w : wiring) (d : filedesc) : Prop :=
  ∀ st, wiring_of st = w → fds (spawned c st) !! 0 = Some d.

Definition writes_to (c : Cmd) (w : wiring) (d : filedesc) : Prop :=
  ∀ st, wiring_of st = w → fds (spawned c st) !! 1 = Some d.

(** The wiring invariant along a pipe.  [ws] are the wirings logged for
    the commands [cs], the first of which is to read from [src]: the
    process forked for a command reads from the read endpoint of the slot
    that is not current and writes to the write endpoint of the current
    slot; the first reads from [src]; a command that has a successor writes
    to the write end of the channel its successor reads from; the last
    writes to [stdout].  The log is shorter than the pipe when the shell
    exited on the way. *)
Fixpoint spawn_chain (src stdout : filedesc) (cs : list Cmd)
  (ws : list wiring) : Prop :=
  match ws, cs with
  | [], _ => True
  | _ :: _, [] => False
  | w :: ws', c :: cs' =>
      reads_from c w src ∧ not_current_read w = Some src ∧
      ∃ snk,
        writes_to c w snk ∧ current_write w = Some snk ∧
        match cs' with
        | [] => snk = stdout ∧ ws' = []
        | _ :: _ =>
            ∃ k, snk = PipeW k ∧ spawn_chain (PipeR k) stdout cs' ws'
        end
  end.

(** ** Concrete worlds, states and commands used in the examples *)

Module Demo.

(** Every system call succeeds; uninitialised objects read as zero. *)
Definition calm : world :=
  mkWorld (λ _, true) (λ _, true) (λ _, true) (λ _, true) (λ _, ExecOk)
    (λ _ _, Some []) true 0 (λ _, 0).

(** As [calm], with no file that can be opened. *)
Definition no_files : world :=
  mkWorld (λ _, true) (λ _, true) (λ _, false) (λ _, false) (λ _, ExecOk)
    (λ _ _, Some []) true 0 (λ _, 0).

(** As [calm], but the first fork fails. *)
Definition first_fork_fails : world :=
  mkWorld (λ _, true) (λ n, negb (n =? 0)%nat) (λ _, true) (λ _, true)
    (λ _, ExecOk) (λ _ _, Some []) true 0 (λ _, 0).

(** As [calm], but the first pipe fails. *)
Definition first_pipe_fails : world :=
  mkWorld (λ n, negb (n =? 0)%nat) (λ _, true) (λ _, true) (λ _, true)
    (λ _, ExecOk) (λ _ _, Some []) true 0 (λ _, 0).


(** As [calm], but the program "nosuch" does not exist. *)
Definition nosuch_missing : world :=
  mkWorld (λ _, true) (λ _, true) (λ _, true) (λ _, true)
    (λ argv, if decide (argv !! 0%nat = Some "nosuch") then ExecENOENT
             else ExecOk)
    (λ _ _, Some []) true 0 (λ _, 0).

(** As [calm], but the [next] field of the command [exec_nice] allocates
    does not read as NULL. *)
Definition garbage_next : world :=
  mkWorld (λ _, true) (λ _, true) (λ _, true) (λ _, true) (λ _, ExecOk)
    (λ _ _, Some []) false 0 (λ _, 0).

(** The interactive shell between two lines: descriptors 0, 1 and 2 open,
    SIGINT and SIGQUIT ignored, no child. *)
Definition shell : proc :=
  mkProc 0 ((-1, -1), (-1, -1)) 0 (mkSig SIG_IGN SIG_IGN SIG_DFL) std_table
    0 0 [] [] [] [std_table] [] 0 [] 0 [].

(** A command as the parser builds it, without file redirection. *)
Definition cmd (argv : list string) (o : token) : Cmd :=
  mkCmd argv (Z.of_nat (length argv)) Tnil EmptyString o EmptyString.

(** A command reading from [i] and writing to [o]. *)
Definition cmd_io (argv : list string) (i o : string) : Cmd :=
  mkCmd argv (Z.of_nat (length argv)) Tin i Tout o.

Definition ls_grep_wc : Pipe :=
  [cmd ["ls"] Tpipe; cmd ["grep"; "main"] Tpipe; cmd ["wc"] Tnil].

End Demo.

(** ** where

    [exec_where], [is_valid_cmd] and [is_dir], over what they ask the
    system: the value of PATH, access(path, X_OK) and the st_mode that stat
    gives. *)

Module Where.

Record fsys : Type := mkFsys {
  access_x : string → bool;        (* access(path, X_OK) == 0 *)
  st_mode : string → Z             (* buf.st_mode after stat(path, &buf) *)
}.

Definition S_IFDIR : Z := 16384.   (* 0040000 *)

Definition is_dir (fs : fsys) (path : string) : Z :=
  Z.land (st_mode fs path) S_IFDIR.

Definition is_valid_cmd (fs : fsys) (path : string) : Z :=
  if negb (access_x fs path) || negb (is_dir fs path =? 0) then 0 else 1.

(** The fields of [str] between two delimiters, the empty ones too; [acc]
    is the field being read. *)
Fixpoint fields (delim : ascii) (str acc : string) : list string :=
  match str with
  | EmptyString => [acc]
  | String ch str' =>
      if Ascii.eqb ch delim then acc :: fields delim str' EmptyString
      else fields delim str' (acc +:+ String ch EmptyString)
  end.

(** The tokens the successive calls strtok(path_copy, ":"), strtok(NULL,
    ":"), ... give until NULL: the fields that are not empty. *)
Definition strtok_all (delim : ascii) (str : string) : list string :=
  filter (λ t, t ≠ EmptyString) (fields delim str EmptyString).

Definition PATH_MAX : nat := 4096.

(** The while loop of [exec_where]: one line for every directory of PATH
    in which the name is a valid command.  None when a path does not fit
    in abs_path[PATH_MAX] with its final NUL. *)
Fixpoint where_loop (fs : fsys) (name : string) (dirs : list string)
  : option (list string) :=
  match dirs with
  | [] => Some []
  | curr_path :: dirs' =>
      let abs_path := curr_path +:+ "/" +:+ name in
      if (PATH_MAX <=? String.length abs_path)%nat then None
      else
        match where_loop fs name dirs' with
        | None => None
        | Some lines =>
            Some ((if is_valid_cmd fs abs_path =? 1 then [abs_path +:+ "
"] else []) ++ lines)
        end
  end.

(** The lines [exec_where] prints.  None where the C code has no defined
    behaviour: no argument (NULL goes to is_builtin and strcat), PATH not
    set (NULL goes to strcpy), or a buffer of PATH_MAX bytes too small. *)
Definition exec_where (fs : fsys) (PATH : option string) (c : Cmd)
  : option (list string) :=
  match args c !! 1%nat, PATH with
  | Some name, Some path =>
      if (PATH_MAX <=? String.length path)%nat then None
      else
        match where_loop fs name (strtok_all ":" path) with
        | None => None
        | Some lines =>
            Some ((if negb (is_builtin name =? -1) then [name +:+ "
"] else []) ++ lines)
        end
  | _, _ => None
  end.

(** What the spec of where says, for comparison: the name itself when it
    is a built-in, then directory/name for each directory of PATH, in the
    order of PATH, in which that path can be executed and is no
    directory. *)
Definition known_instances (fs : fsys) (name path : string)
  : list string :=
  (if bool_decide (name ∈ builtin_cmd_handle) then [name +:+ "
"] else [])
  ++ map (λ d, d +:+ "/" +:+ name +:+ "
")
       (filter (λ d, access_x fs (d +:+ "/" +:+ name) = true ∧
                     Z.testbit (st_mode fs (d +:+ "/" +:+ name)) 14 = false)
               (strtok_all ":" path)).

(** Joining directories with the delimiter, as PATH is written. *)
Fixpoint join_path (delim : ascii) (ts : list string) : string :=
  match ts with
  | [] => EmptyString
  | [t] => t
  | t :: ts' => t +:+ String delim (join_path delim ts')
  end.

(** A file system for the examples: /bin/ls can be executed, /usr is a
    directory one may enter. *)
Definition demo_fs : fsys :=
  mkFsys (λ p, bool_decide (p = "/bin/ls") || bool_decide (p = "/usr/ls"))
         (λ p, if bool_decide (p = "/usr/ls") then 16877 else 33261).

End Where.

(** * Properties *)

(** ** Wait statuses *)

Lemma WEXITSTATUS_range (status : Z) : 0 ≤ WEXITSTATUS status ≤ 255.
Proof.
  unfold WEXITSTATUS.
  rewrite Z.shiftr_land.
  change (Z.shiftr 65280 8) with (Z.ones 8).
  rewrite Z.land_ones by lia.
  pose proof (Z.mod_pos_bound (Z.shiftr status 8) (2 ^ 8)). lia.
Qed.

Lemma WEXITSTATUS_not_minus_one (status : Z) :
  (WEXITSTATUS status =? -1) = false.
Proof. pose proof (WEXITSTATUS_range status). lia. Qed.

Lemma wait_loop_quiet (W : world) (n : nat) (s : proc) :
  kills (wait_loop W n s) = kills s ∧ out (wait_loop W n s) = out s.
Proof.
  revert s. induction n as [|n IH]; intros s; simpl; [done|].
  rewrite WEXITSTATUS_not_minus_one.
  destruct (IH (wait s)) as [-> ->]. done.
Qed.

(** C7: whatever the wait status, WEXITSTATUS gives a value in 0..255, so
    its comparison with -1 is false, and the loop that waits for the
    children never prints the failure message and never calls kill. *)
Theorem failure_branch_unreachable :
  (∀ status : Z,
     0 ≤ WEXITSTATUS status ≤ 255 ∧ (WEXITSTATUS status =? -1) = false) ∧
  (∀ (W : world) (n : nat) (s : proc),
     kills (wait_loop W n s) = kills s ∧ out (wait_loop W n s) = out s).
Proof.
  split.
  - intros status. split.
    + apply WEXITSTATUS_range.
    + apply WEXITSTATUS_not_minus_one.
  - apply wait_loop_quiet.
Qed.

(** ** echo *)

Lemma out_printf (text : string) (s : proc) :
  out (printf text s) = out s ++ [(fds s !! 1, text)].
Proof. reflexivity. Qed.

Lemma echo_loop_out (rest : list string) (i : Z) (s : proc) :
  (echo_loop rest i s).1 = i + Z.of_nat (length rest) ∧
  out (echo_loop rest i s).2 =
    out s ++ map (λ a, (fds s !! 1, a +:+ " ")) rest ∧
  fds (echo_loop rest i s).2 = fds s.
Proof.
  revert i s. induction rest as [|a rest IH]; intros i s; simpl.
  - rewrite app_nil_r. split_and!; [lia|done|done].
  - destruct (IH (i + 1) (printf (a +:+ " ") s)) as (-> & -> & ->).
    simpl. rewrite <- app_assoc. split_and!; [lia|done|done].
Qed.

(** C9, first half, as the code has it: [echo a b c] prints "a ", "b ",
    "c " and a newline, that is "a b c" followed by a space and a newline,
    not "a b c" followed by a newline. *)
Theorem exec_echo_trailing_space (s : proc) :
  ∃ s' : proc,
    exec_echo (Demo.cmd ["echo"; "a"; "b"; "c"] Tnil) s = Ret tt s' ∧
    ∃ text : list (option filedesc * string),
      out s' = out s ++ text ∧
      printed text = "a b c 
" ∧
      printed text ≠ "a b c
".
Proof.
  eexists. split; [reflexivity|].
  eexists. split; [simpl; rewrite <- !app_assoc; reflexivity|].
  split; [reflexivity|discriminate].
Qed.

(** C9, second half: echo without argument prints nothing. *)
Lemma exec_echo_no_argument (s : proc) (c : Cmd) (name : string) :
  args c = [name] → exec_echo c s = Ret tt s.
Proof. intros H. unfold exec_echo. rewrite H. reflexivity. Qed.

(** In general echo prints every argument followed by a space, then a
    newline when there was an argument. *)
Lemma exec_echo_out (s : proc) (c : Cmd) (name a : string)
  (rest : list string) :
  args c = name :: a :: rest →
  ∃ s' : proc,
    exec_echo c s = Ret tt s' ∧
    out s' = out s ++ map (λ a, (fds s !! 1, a +:+ " ")) (a :: rest)
               ++ [(fds s !! 1, "
")].
Proof.
  intros H. unfold exec_echo. rewrite H.
  change (tail (name :: a :: rest)) with (a :: rest).
  destruct (echo_loop_out (a :: rest) 1 s) as (Hi & Ho & Hf).
  eexists. split; [reflexivity|].
  rewrite Hi.
  assert (E : (1 + Z.of_nat (length (a :: rest)) =? 1) = false)
    by (rewrite length_cons; apply Z.eqb_neq; lia).
  rewrite E, out_printf, Ho, Hf, <- app_assoc. reflexivity.
Qed.

(** ** nice *)

Lemma only_digits_spec (str : string) : only_digits str = 1 ↔ all_digits str.
Proof.
  induction str as [|ch str IH]; simpl; [done|].
  destruct (isdigit ch); [|split; [done|intros [? _]; done]].
  rewrite IH. tauto.
Qed.

Lemma only_digits_01 (str : string) : only_digits str = 0 ∨ only_digits str = 1.
Proof.
  induction str as [|ch str IH]; simpl; [tauto|].
  destruct (isdigit ch); tauto.
Qed.

Lemma is_number_spec (str : string) :
  is_number str = 1 ↔ numeric_argument str.
Proof.
  unfold numeric_argument. split.
  - intros H. destruct str as [|ch str].
    + exists EmptyString. simpl. tauto.
    + destruct (decide (ch = "-"%char)) as [->|Hne].
      * exists str. simpl in H. apply only_digits_spec in H. tauto.
      * exists (String ch str). split; [|tauto].
        apply only_digits_spec. rewrite <- H. unfold is_number.
        destruct ch as [[] [] [] [] [] [] [] []]; try reflexivity.
        congruence.
  - intros (digits & Hd & [->| ->]).
    + apply only_digits_spec in Hd as Hd'.
      destruct digits as [|ch digits]; [done|].
      destruct Hd as [Hch _]. unfold is_number.
      destruct ch as [[] [] [] [] [] [] [] []]; try exact Hd'.
      discriminate Hch.
    + simpl. by apply only_digits_spec.
Qed.

Lemma clamp_as_in_source (p : Z) :
  (if p <? -19 then -19 else if p >? 20 then 20 else p) = clamped p.
Proof. unfold clamped. repeat case_match; lia. Qed.

Lemma atoi_digits_decimal (digits : string) :
  all_digits digits → ∀ acc, atoi_digits digits acc = decimal digits acc.
Proof.
  induction digits as [|ch digits IH]; simpl; [done|].
  intros [Hch Hd] acc. rewrite Hch. by apply IH.
Qed.

(** On a numeric argument strtol reads the whole of it. *)
Lemma atoi_spaces_numeric (str : string) :
  numeric_argument str → atoi_spaces str = number_value str.
Proof.
  intros (digits & Hd & [->| ->]).
  - destruct digits as [|ch digits]; [done|].
    pose proof (atoi_digits_decimal _ Hd 0) as E.
    destruct Hd as [Hch _]. revert E. unfold number_value.
    cbn [atoi_spaces].
    destruct ch as [[] [] [] [] [] [] [] []]; try discriminate Hch;
      intros E; exact E.
  - cbn [atoi_spaces number_value]. change (isspace "-") with false.
    cbv iota. unfold atoi_signed. by rewrite atoi_digits_decimal.
Qed.

(** When the number fits an int, atoi gives it. *)
Lemma atoi_numeric (str : string) :
  numeric_argument str →
  INT_MIN ≤ number_value str ≤ INT_MAX →
  atoi str = number_value str.
Proof.
  intros Hnum. unfold atoi, strtol, to_int, INT_MIN, INT_MAX, LONG_MIN,
    LONG_MAX. rewrite (atoi_spaces_numeric _ Hnum). intros H.
  rewrite Z.min_r, Z.max_r by lia.
  rewrite Z.mod_small by lia. lia.
Qed.

(** C10, as the code has it.  [exec_nice] calls setpriority once, before
    it runs any command.  Without a first argument the priority is 4 and
    there is no command.  With a first argument that is not numeric (an
    optional leading '-' followed only by digits; a leading '+' is not
    numeric) the priority is 4 and the command starts at that argument.
    With a numeric first argument the priority is what atoi makes of it,
    clamped to -19..20, and the command starts at the second argument when
    there is one; what atoi makes of it is the number it writes whenever
    that number fits an int. *)
Theorem nice_priority_spec (sub1 sub2 : proc → outcome Z) (c : Cmd)
  (name : string) (rest : list string) (s : proc) :
  args c = name :: rest →
  nargs c = Z.of_nat (length (args c)) →
  match rest with
  | [] => exec_nice sub1 sub2 c s = Ret tt (setpriority 4 s)
  | a1 :: rest2 =>
      (numeric_argument a1 →
       exec_nice sub1 sub2 c s =
         (let s := setpriority (clamped (atoi a1)) s in
          match rest2 with
          | [] => Ret tt s
          | _ :: _ => bind (sub2 s) (λ _ s, Ret tt s)
          end) ∧
       (INT_MIN ≤ number_value a1 ≤ INT_MAX → atoi a1 = number_value a1)) ∧
      (¬ numeric_argument a1 →
       exec_nice sub1 sub2 c s =
         bind (sub1 (setpriority 4 s)) (λ _ s, Ret tt s))
  end.
Proof.
  intros Hargs Hn. unfold exec_nice, nice_plan.
  rewrite Hn, Hargs. destruct rest as [|a1 rest2].
  - reflexivity.
  - rewrite !length_cons.
    assert (E : (Z.of_nat (S (S (length rest2))) >? 1) = true)
      by (apply Z.gtb_lt; lia).
    rewrite E.
    change ((name :: a1 :: rest2) !! 1%nat) with (Some a1).
    split.
    + intros Hnum. split; [|by apply atoi_numeric].
      apply is_number_spec in Hnum. rewrite Hnum.
      change (1 =? 1) with true. cbv iota zeta.
      rewrite clamp_as_in_source. by destruct rest2.
    + intros Hnum. rewrite <- is_number_spec in Hnum.
      apply Z.eqb_neq in Hnum. rewrite Hnum. reflexivity.
Qed.

Lemma nice_priority_spec_witness :
  exec_nice (nice_sub1 Demo.calm ["-25"]) (nice_sub2 Demo.calm ["-25"])
    (Demo.cmd ["nice"; "-25"] Tnil) Demo.shell
  = Ret tt (setpriority (-19) Demo.shell) ∧
  exec_nice (nice_sub1 Demo.calm ["+5"; "ls"])
    (nice_sub2 Demo.calm ["+5"; "ls"])
    (Demo.cmd ["nice"; "+5"; "ls"] Tnil) Demo.shell
  = bind (nice_sub1 Demo.calm ["+5"; "ls"] (setpriority 4 Demo.shell))
      (λ _ s, Ret tt s).
Proof.
  split.
  - apply (nice_priority_spec (nice_sub1 Demo.calm ["-25"])
             (nice_sub2 Demo.calm ["-25"]) (Demo.cmd ["nice"; "-25"] Tnil)
             "nice" ["-25"] Demo.shell eq_refl eq_refl).
    exists "25". simpl. tauto.
  - apply (nice_priority_spec (nice_sub1 Demo.calm ["+5"; "ls"])
             (nice_sub2 Demo.calm ["+5"; "ls"])
             (Demo.cmd ["nice"; "+5"; "ls"] Tnil)
             "nice" ["+5"; "ls"] Demo.shell eq_refl eq_refl).
    rewrite <- is_number_spec. vm_compute. discriminate.
Defined.

(** C10 as stated fails for a number that does not fit an int: in
    [nice 4294967295] the argument is numeric and the number clamped is 20,
    but atoi gives -1 and that is the priority applied; in
    [nice 2147483648] atoi gives INT_MIN and the priority applied is
    -19. *)
Lemma nice_wraps_around :
  numeric_argument "4294967295" ∧
  clamped (number_value "4294967295") = 20 ∧
  exec_nice (nice_sub1 Demo.calm ["4294967295"])
    (nice_sub2 Demo.calm ["4294967295"])
    (Demo.cmd ["nice"; "4294967295"] Tnil) Demo.shell
  = Ret tt (setpriority (-1) Demo.shell) ∧
  numeric_argument "2147483648" ∧
  clamped (number_value "2147483648") = 20 ∧
  exec_nice (nice_sub1 Demo.calm ["2147483648"])
    (nice_sub2 Demo.calm ["2147483648"])
    (Demo.cmd ["nice"; "2147483648"] Tnil) Demo.shell
  = Ret tt (setpriority (-19) Demo.shell).
Proof.
  split_and!; try (by vm_compute).
  - exists "4294967295". simpl. tauto.
  - exists "2147483648". simpl. tauto.
Qed.

(** [exec_nice] hands that priority to setpriority before anything else. *)
Lemma exec_nice_sets_priority (sub1 sub2 : proc → outcome Z)
  (c : Cmd) (s : proc) (p : Z) :
  nice_plan c = Some (p, NoCmd) →
  exec_nice sub1 sub2 c s = Ret tt (setpriority p s).
Proof. intros H. unfold exec_nice. rewrite H. reflexivity. Qed.

(** ** Redirection *)

Lemma out_perform_pipe_redirect (c : Cmd) (s : proc) :
  out (perform_pipe_redirect c s) = out s.
Proof. unfold perform_pipe_redirect. by case_decide. Qed.

Lemma perform_io_redirect_input_fails (W : world) (c : Cmd) (s : proc) :
  cin c = Tin → can_read W (infile c) = false →
  perform_io_redirect W c s = Exit (-1) s.
Proof.
  intros Hin Hr. unfold perform_io_redirect.
  rewrite decide_True by done. rewrite Hr. reflexivity.
Qed.

Lemma perform_io_redirect_output_fails (W : world) (c : Cmd) (s : proc) :
  can_write W (outfile c) = false →
  perform_io_redirect W c s = perform_io_redirect W (without_output c) s.
Proof.
  intros Hw. unfold perform_io_redirect, without_output, redirect_output.
  simpl. rewrite Hw.
  destruct (decide (cin c = Tin)); [destruct (can_read W (infile c))|];
    simpl; destruct (cout c); reflexivity.
Qed.

(** C5: when the file of an input redirection cannot be opened the process
    exits with status -1 before it has run anything or printed anything,
    in each of the three places [perform_io_redirect] is called from; when
    the file of an output redirection cannot be opened the redirection is
    skipped and the process goes on as if the command had none. *)
Theorem redirection_failure_asymmetry (W : world) (c : Cmd) (s : proc) :
  (cin c = Tin → can_read W (infile c) = false →
   perform_io_redirect W c s = Exit (-1) s ∧
   (∃ k : proc, external_child W c s = Exit (-1) k ∧ out k = out s) ∧
   (∀ i sub1 sub2, ∃ k : proc,
      builtin_child W i sub1 sub2 c s = Exit (-1) k ∧ out k = out s) ∧
   (∀ i sub1 sub2, ∃ k : proc,
      builtin_in_shell W i sub1 sub2 c s = Exit (-1) k ∧ out k = out s)) ∧
  (output_to_file (cout c) = true → can_write W (outfile c) = false →
   perform_io_redirect W c s = perform_io_redirect W (without_output c) s ∧
   (cin c ≠ Tin → perform_io_redirect W c s = Ret tt s)).
Proof.
  split.
  - intros Hin Hr. split; [by apply perform_io_redirect_input_fails|].
    split; [|split].
    + eexists. unfold external_child.
      rewrite perform_io_redirect_input_fails by done.
      split; [reflexivity|]. by rewrite out_perform_pipe_redirect.
    + intros i sub1 sub2. eexists. unfold builtin_child.
      rewrite perform_io_redirect_input_fails by done.
      split; [reflexivity|]. by rewrite out_perform_pipe_redirect.
    + intros i sub1 sub2. eexists. unfold builtin_in_shell.
      rewrite perform_io_redirect_input_fails by done.
      split; [reflexivity|]. by rewrite out_perform_pipe_redirect.
  - intros _ Hw. split; [by apply perform_io_redirect_output_fails|].
    intros Hin. rewrite perform_io_redirect_output_fails by done.
    unfold perform_io_redirect. rewrite decide_False by done. reflexivity.
Qed.

Lemma redirection_failure_asymmetry_witness :
  perform_io_redirect Demo.no_files (Demo.cmd_io ["cat"] "missing" "log")
    Demo.shell = Exit (-1) Demo.shell ∧
  perform_io_redirect Demo.no_files
    (mkCmd ["ls"] 1 Tnil EmptyString Tout "/nodir/log") Demo.shell
  = Ret tt Demo.shell.
Proof.
  split.
  - apply (redirection_failure_asymmetry Demo.no_files
             (Demo.cmd_io ["cat"] "missing" "log") Demo.shell);
      reflexivity.
  - apply (redirection_failure_asymmetry Demo.no_files
             (mkCmd ["ls"] 1 Tnil EmptyString Tout "/nodir/log") Demo.shell);
      [reflexivity|reflexivity|discriminate].
Defined.

(** ** The descriptor table *)

Module FdFacts.

Lemma scan_spec (t : gmap Z filedesc) (fuel : nat) (from : Z) :
  (size (filter (λ kv : Z * filedesc, (from ≤ kv.1)%Z) t) ≤ fuel)%nat →
  from ≤ Fd.scan t from fuel ∧ t !! Fd.scan t from fuel = None.
Proof.
  revert from. induction fuel as [|fuel IH]; intros from Hsz; simpl.
  - split; [lia|].
    destruct (t !! from) as [d|] eqn:E; [|done].
    assert (Hin : filter (λ kv : Z * filedesc, from ≤ kv.1) t !! from = Some d)
      by (apply map_lookup_filter_Some; simpl; split; [done|lia]).
    assert (filter (λ kv : Z * filedesc, from ≤ kv.1) t = ∅) as Hemp
      by (apply map_size_empty_iff; lia).
    rewrite Hemp in Hin. by rewrite lookup_empty in Hin.
  - destruct (t !! from) as [d|] eqn:E; [|split; [lia|done]].
    destruct (IH (from + 1)) as [Hle Hfree]; [|split; [lia|done]].
    assert (Heq : filter (λ kv : Z * filedesc, from + 1 ≤ kv.1) t
                  = delete from (filter (λ kv : Z * filedesc, from ≤ kv.1) t)).
    { apply map_eq. intros i. apply option_eq. intros x.
      rewrite map_lookup_filter_Some, lookup_delete_Some,
        map_lookup_filter_Some. simpl. intuition lia. }
    rewrite Heq.
    assert (Hin : filter (λ kv : Z * filedesc, from ≤ kv.1) t !! from = Some d)
      by (apply map_lookup_filter_Some; simpl; split; [done|lia]).
    rewrite map_size_delete_Some by (rewrite Hin; eauto). lia.
Qed.

Lemma lowest_free_spec (t : gmap Z filedesc) :
  0 ≤ Fd.lowest_free t ∧ t !! Fd.lowest_free t = None.
Proof.
  apply scan_spec. apply map_size_filter.
Qed.

Lemma lowest_free_fresh (t : gmap Z filedesc) (fd : Z) (d : filedesc) :
  t !! fd = Some d → fd ≠ Fd.lowest_free t.
Proof.
  intros H ->. destruct (lowest_free_spec t) as [_ Hf]. congruence.
Qed.

Lemma elem_of_channels (t : gmap Z filedesc) (k : nat) :
  k ∈ Fd.channels t ↔ ∃ fd d, t !! fd = Some d ∧ Fd.chan_of d = Some k.
Proof.
  unfold Fd.channels. rewrite elem_of_list_to_set, list_elem_of_omap.
  split.
  - intros ([fd d] & Hin & Hk). apply elem_of_map_to_list in Hin. eauto.
  - intros (fd & d & Hin & Hk). exists (fd, d).
    split; [by apply elem_of_map_to_list|done].
Qed.

Lemma channels_close (fd : Z) (t : gmap Z filedesc) :
  Fd.channels (Fd.close fd t) ⊆ Fd.channels t.
Proof.
  intros k. rewrite !elem_of_channels. intros (x & d & Hx & Hk).
  unfold Fd.close in Hx. apply lookup_delete_Some in Hx as [_ Hx]. eauto.
Qed.

Lemma channels_insert (fd : Z) (d : filedesc) (t : gmap Z filedesc) (k : nat) :
  k ∈ Fd.channels (<[fd := d]> t) →
  Fd.chan_of d = Some k ∨ k ∈ Fd.channels t.
Proof.
  rewrite !elem_of_channels. intros (x & d' & Hx & Hk).
  apply lookup_insert_Some in Hx as [[_ <-]|[_ Hx]]; eauto.
Qed.

Lemma channels_dup2 (oldfd newfd : Z) (t : gmap Z filedesc) :
  Fd.channels (Fd.dup2 oldfd newfd t) ⊆ Fd.channels t.
Proof.
  unfold Fd.dup2. destruct (t !! oldfd) as [d|] eqn:E; [|done].
  intros k Hk. apply channels_insert in Hk as [Hk|Hk]; [|done].
  apply elem_of_channels. eauto.
Qed.

Lemma channels_dup (fd : Z) (t : gmap Z filedesc) :
  Fd.channels (Fd.dup fd t).2 ⊆ Fd.channels t.
Proof.
  unfold Fd.dup. destruct (t !! fd) as [d|] eqn:E; [|done].
  intros k Hk. apply channels_insert in Hk as [Hk|Hk]; [|done].
  apply elem_of_channels. eauto.
Qed.

Lemma channels_open (d : filedesc) (t : gmap Z filedesc) :
  Fd.chan_of d = None → Fd.channels (Fd.open d t).2 ⊆ Fd.channels t.
Proof.
  intros Hd k Hk. apply channels_insert in Hk as [Hk|Hk]; [congruence|done].
Qed.

Lemma channels_pipe (n : nat) (t : gmap Z filedesc) :
  Fd.channels (Fd.pipe n t).2 ⊆ {[n]} ∪ Fd.channels t.
Proof.
  intros k Hk. unfold Fd.pipe in Hk. simpl in Hk.
  apply channels_insert in Hk as [Hk|Hk]; [simpl in Hk; set_solver|].
  apply channels_insert in Hk as [Hk|Hk]; [simpl in Hk; set_solver|].
  set_solver.
Qed.

End FdFacts.

(** ** Channels never appear inside [process_cmd] *)

Lemma shrinks_refl (s : proc) : shrinks s s.
Proof.
  split; [done|]. split; [done|]. split; [done|]. intros C H. split; [done|]. exists []. by rewrite app_nil_r.
Qed.

Lemma shrinks_trans (s1 s2 s3 : proc) :
  shrinks s1 s2 → shrinks s2 s3 → shrinks s1 s3.
Proof.
  intros (S12 & G12 & (W12 & R12 & D12) & H12)
    (S23 & G23 & (W23 & R23 & D23) & H23).
  split; [congruence|]. split; [congruence|].
  split; [split_and!; congruence|]. intros C H.
  destruct (H12 C H) as (H2 & L1 & E1 & F1).
  destruct (H23 C H2) as (H3 & L2 & E2 & F2).
  split; [done|]. exists (L1 ++ L2).
  rewrite E2, E1, <- app_assoc. split; [done|]. by apply Forall_app.
Qed.

Lemma shrinks_same (s s' : proc) :
  fds s' = fds s → hist s' = hist s → stages s' = stages s →
  sigs s' = sigs s → waits s' = waits s → reaped s' = reaped s →
  waited s' = waited s →
  shrinks s s'.
Proof.
  intros Hf Hh Hs Hg Hw Hr Hd. split; [done|]. split; [done|]. split; [done|].
  intros C H. rewrite Hf, Hh.
  split; [done|]. exists []. by rewrite app_nil_r.
Qed.

Lemma shrinks_set_fds (t : gmap Z filedesc) (s : proc) :
  Fd.channels t ⊆ Fd.channels (fds s) → shrinks s (set_fds t s).
Proof.
  intros Ht. split; [done|]. split; [done|]. split; [done|].
  intros C H. simpl. split; [set_solver|].
  exists [t]. split; [done|]. apply Forall_singleton. set_solver.
Qed.

Lemma shrinks_close (fd : Z) (s : proc) : shrinks s (sys_close fd s).
Proof. apply shrinks_set_fds, FdFacts.channels_close. Qed.

Lemma shrinks_dup2 (oldfd newfd : Z) (s : proc) :
  shrinks s (sys_dup2 oldfd newfd s).
Proof. apply shrinks_set_fds, FdFacts.channels_dup2. Qed.

Lemma shrinks_dup (fd : Z) (s : proc) : shrinks s (sys_dup fd s).2.
Proof. apply shrinks_set_fds, FdFacts.channels_dup. Qed.

Lemma shrinks_open (d : filedesc) (s : proc) :
  Fd.chan_of d = None → shrinks s (sys_open d s).2.
Proof. intros H. by apply shrinks_set_fds, FdFacts.channels_open. Qed.

Ltac shrink_chain :=
  repeat first
    [ apply shrinks_refl
    | eapply shrinks_trans;
      [| first [ apply shrinks_close | apply shrinks_dup2
               | apply shrinks_dup | by apply shrinks_open ] ] ].

Lemma shrinks_perform_pipe_redirect (c : Cmd) (s : proc) :
  shrinks s (perform_pipe_redirect c s).
Proof.
  unfold perform_pipe_redirect. case_decide; shrink_chain.
Qed.

Lemma shrinks_redirect_output (W : world) (path : string) (d : filedesc)
  (both : bool) (s : proc) :
  Fd.chan_of d = None → shrinks s (redirect_output W path d both s).
Proof.
  intros Hd. unfold redirect_output.
  destruct (can_write W path); [|apply shrinks_refl].
  destruct both; shrink_chain.
Qed.

Lemma shrinks_perform_io_redirect (W : world) (c : Cmd) (s : proc) :
  shrinks s (state_of (perform_io_redirect W c s)).
Proof.
  unfold perform_io_redirect.
  assert (Hout : ∀ s0, shrinks s0
            match cout c with
            | Tout => redirect_output W (outfile c) (FileW (outfile c) false) false s0
            | Tapp => redirect_output W (outfile c) (FileW (outfile c) true) false s0
            | ToutErr => redirect_output W (outfile c) (FileW (outfile c) false) true s0
            | TappErr => redirect_output W (outfile c) (FileW (outfile c) true) true s0
            | _ => s0
            end).
  { intros s0. destruct (cout c);
      first [apply shrinks_refl | by apply shrinks_redirect_output]. }
  case_decide; [destruct (can_read W (infile c))|]; simpl.
  - eapply shrinks_trans; [|apply Hout]. shrink_chain.
  - apply shrinks_refl.
  - apply Hout.
Qed.

Lemma shrinks_bind {A B : Type} (s : proc) (m : outcome A)
  (k : A → proc → outcome B) :
  shrinks s (state_of m) →
  (∀ a s1, m = Ret a s1 → shrinks s1 (state_of (k a s1))) →
  shrinks s (state_of (bind m k)).
Proof.
  intros Hm Hk. destruct m as [a s1| |]; simpl in *; [|done|done].
  eapply shrinks_trans; [exact Hm|]. by apply Hk.
Qed.

Lemma set_out_id (s : proc) : set_out (out s) s = s.
Proof. by destruct s. Qed.

Lemma echo_loop_eq (rest : list string) (i : Z) (s : proc) :
  echo_loop rest i s =
  (i + Z.of_nat (length rest),
   set_out (out s ++ map (λ a, (fds s !! 1, a +:+ " ")) rest) s).
Proof.
  revert i s. induction rest as [|a rest IH]; intros i s.
  - simpl. rewrite app_nil_r, set_out_id. f_equal. lia.
  - cbn [echo_loop]. rewrite IH. f_equal; [rewrite length_cons; lia|].
    simpl. by rewrite <- app_assoc.
Qed.

Lemma printf_lines_eq (lines : list string) (s : proc) :
  foldl (λ s l, printf l s) s lines =
  set_out (out s ++ map (λ l, (fds s !! 1, l)) lines) s.
Proof.
  revert s. induction lines as [|l lines IH]; intros s.
  - simpl. by rewrite app_nil_r, set_out_id.
  - cbn [foldl]. rewrite IH. simpl. by rewrite <- app_assoc.
Qed.

Lemma shrinks_exec_cmd (W : world) (i : Z) (sub1 sub2 : proc → outcome Z)
  (c : Cmd) (s : proc) :
  (∀ s0, shrinks s0 (state_of (sub1 s0))) →
  (∀ s0, shrinks s0 (state_of (sub2 s0))) →
  shrinks s (state_of (exec_cmd W i sub1 sub2 c s)).
Proof.
  intros H1 H2. unfold exec_cmd.
  destruct (i =? 1); [|destruct (i =? 2); [|destruct (i =? 3)]].
  - unfold exec_echo. rewrite echo_loop_eq. simpl.
    destruct (_ =? 1); by apply shrinks_same.
  - apply shrinks_refl.
  - unfold exec_nice. destruct (nice_plan c) as [[p cmd]|];
      [|apply shrinks_refl].
    destruct cmd; simpl.
    + by apply shrinks_same.
    + apply shrinks_bind; [|intros; apply shrinks_refl].
      eapply shrinks_trans; [|apply H1]. by apply shrinks_same.
    + apply shrinks_bind; [|intros; apply shrinks_refl].
      eapply shrinks_trans; [|apply H2]. by apply shrinks_same.
  - unfold exec_environment.
    destruct (environment_builtin W i (args c)) as [lines|];
      [|apply shrinks_refl].
    rewrite printf_lines_eq. by apply shrinks_same.
Qed.

Lemma shrinks_fork (W : world) (argv : list string)
  (body : proc → outcome ending) (s : proc) :
  shrinks s (fork W argv body s).
Proof. unfold fork. destruct (fork_ok W (nfork s)); by apply shrinks_same. Qed.

Lemma shrinks_builtin_in_shell (W : world) (i : Z)
  (sub1 sub2 : proc → outcome Z) (c : Cmd) (s : proc) :
  (∀ s0, shrinks s0 (state_of (sub1 s0))) →
  (∀ s0, shrinks s0 (state_of (sub2 s0))) →
  shrinks s (state_of (builtin_in_shell W i sub1 sub2 c s)).
Proof.
  intros H1 H2. unfold builtin_in_shell.
  apply shrinks_bind.
  - eapply shrinks_trans; [|apply shrinks_perform_io_redirect].
    eapply shrinks_trans; [|apply shrinks_perform_pipe_redirect].
    shrink_chain.
  - intros _ s1 _. apply shrinks_bind; [by apply shrinks_exec_cmd|].
    intros _ s2 _. simpl. shrink_chain.
Qed.

(** Induction on an argument vector, as [process_cmd] recurses on it: on
    the vector without its first word, and without its first two. *)
Lemma args_ind (P : list string → Prop) :
  P [] →
  (∀ name rest,
     P rest → (∀ a rest2, rest = a :: rest2 → P rest2) → P (name :: rest)) →
  ∀ argv, P argv.
Proof.
  intros Hnil Hcons argv.
  cut (P argv ∧ ∀ a r, argv = a :: r → P r); [tauto|].
  induction argv as [|name rest [IH1 IH2]].
  - split; [done|]. intros a r H. discriminate H.
  - split; [by apply Hcons|]. intros a r H. by simplify_eq.
Qed.

Lemma shrinks_process_cmd_args (W : world) (argv : list string) :
  ∀ na ci inf co outf last s,
    shrinks s (state_of (process_cmd_args W argv na ci inf co outf last s)).
Proof.
  induction argv as [|name rest IH1 IH2] using args_ind;
    intros na ci inf co outf last s.
  - apply shrinks_refl.
  - simpl.
    destruct (String.eqb name "end" && (processing_rc s =? 0));
      [apply shrinks_refl|].
    destruct (negb (is_builtin name =? -1)); [destruct last|].
    + apply shrinks_builtin_in_shell.
      * intros s0. apply IH1.
      * intros s0. destruct rest as [|a rest2]; [apply shrinks_refl|].
        by apply (IH2 a rest2).
    + apply shrinks_fork.
    + apply shrinks_fork.
Qed.

Lemma shrinks_process_cmd (W : world) (c : Cmd) (last : bool) (s : proc) :
  shrinks s (state_of (process_cmd W c last s)).
Proof. apply shrinks_process_cmd_args. Qed.

(** ** Two slots, two channels *)

Lemma chan_of_None_channels (t : gmap Z filedesc) :
  Fd.channels t = ∅ ↔ ∀ fd d, t !! fd = Some d → Fd.chan_of d = None.
Proof.
  split.
  - intros H fd d Hfd. destruct (Fd.chan_of d) as [k|] eqn:E; [|done].
    assert (k ∈ Fd.channels t) by (apply FdFacts.elem_of_channels; eauto).
    set_solver.
  - intros H. apply set_eq. intros k. rewrite FdFacts.elem_of_channels.
    split; [|set_solver]. intros (fd & d & Hfd & Hk).
    rewrite (H fd d Hfd) in Hk. discriminate.
Qed.

Lemma at_most_two_subseteq (t t' : gmap Z filedesc) :
  Fd.channels t ⊆ Fd.channels t' → at_most_two t' → at_most_two t.
Proof.
  unfold at_most_two. intros H%subseteq_size H'. lia.
Qed.

Lemma size_list_to_set_le (l : list nat) :
  (size (list_to_set l : gset nat) ≤ length l)%nat.
Proof.
  induction l as [|x l IH].
  - change (list_to_set [] : gset nat) with (∅ : gset nat).
    by rewrite size_empty.
  - change (list_to_set (x :: l) : gset nat)
      with ({[x]} ∪ list_to_set l : gset nat).
    rewrite size_union_alt, size_singleton, length_cons.
    pose proof (subseteq_size ((list_to_set l : gset nat) ∖ {[x]})
                  (list_to_set l) (subseteq_difference_l _ _ _ (reflexivity _))).
    lia.
Qed.

Lemma confined_at_most_two (mp : (Z * Z) * (Z * Z)) (t : gmap Z filedesc) :
  confined mp t → at_most_two t.
Proof.
  intros (c0 & c1 & H). unfold at_most_two.
  assert (Hsub : Fd.channels t ⊆
                 list_to_set (option_list c0 ++ option_list c1)).
  { intros k (fd & d & Hfd & Hk)%FdFacts.elem_of_channels.
    apply elem_of_list_to_set, elem_of_app.
    destruct (H fd d k Hfd Hk) as [[_ ->]|[_ ->]]; simpl; set_solver. }
  apply subseteq_size in Hsub.
  pose proof (size_list_to_set_le (option_list c0 ++ option_list c1)) as Hl.
  assert (Hlen : (length (option_list c0 ++ option_list c1) ≤ 2)%nat)
    by (destruct c0, c1; simpl; lia).
  lia.
Qed.

Lemma std_open_close (fd : Z) (t : gmap Z filedesc) :
  fd ≠ 0 → fd ≠ 1 → std_open t → std_open (Fd.close fd t).
Proof.
  intros H0 H1 (d0 & d1 & E0 & E1 & P0 & P1). exists d0, d1.
  unfold Fd.close. by rewrite !lookup_delete_ne.
Qed.

Lemma std_open_insert (fd : Z) (d : filedesc) (t : gmap Z filedesc) :
  fd ≠ 0 → fd ≠ 1 → std_open t → std_open (<[fd := d]> t).
Proof.
  intros H0 H1 (d0 & d1 & E0 & E1 & P0 & P1). exists d0, d1.
  by rewrite !lookup_insert_ne.
Qed.

Lemma std_open_fresh (t : gmap Z filedesc) :
  std_open t → Fd.lowest_free t ≠ 0 ∧ Fd.lowest_free t ≠ 1.
Proof.
  intros (d0 & d1 & E0 & E1 & _).
  split; symmetry; eapply FdFacts.lowest_free_fresh; eauto.
Qed.

Lemma close_stale_spec (v : Z * Z) (s : proc) :
  std_open (fds s) → v.1 ≠ 1 → v.2 ≠ 0 →
  shrinks s (close_stale v s) ∧
  mypipes (close_stale v s) = mypipes s ∧
  pipenum (close_stale v s) = pipenum s ∧
  npipe (close_stale v s) = npipe s ∧
  std_open (fds (close_stale v s)) ∧
  ∀ fd d k, fds (close_stale v s) !! fd = Some d → Fd.chan_of d = Some k →
            fds s !! fd = Some d ∧ ¬ in_slot v fd.
Proof.
  intros Hstd H1 H2. unfold close_stale.
  destruct Hstd as (d0 & d1 & E0 & E1 & P0 & P1).
  assert (Hpipe : ∀ fd d k, fds s !! fd = Some d → Fd.chan_of d = Some k →
                            fd ≠ 0 ∧ fd ≠ 1).
  { intros fd d k Hfd Hk. split; intros ->; congruence. }
  destruct (Z.eqb_spec v.1 0) as [Ea|Ea],(Z.eqb_spec v.2 1) as [Eb|Eb]; simpl.
  - split_and!; [apply shrinks_refl|done|done|done|by exists d0, d1|].
    intros fd d k Hfd Hk. split; [done|].
    destruct (Hpipe fd d k Hfd Hk). intros [->| ->]; congruence.
  - split_and!; [apply shrinks_close|done|done|done| |].
    + exists d0, d1. unfold Fd.close. by rewrite !lookup_delete_ne.
    + intros fd d k Hfd Hk. unfold Fd.close in Hfd.
      apply lookup_delete_Some in Hfd as [Hne Hfd]. split; [done|].
      destruct (Hpipe fd d k Hfd Hk). intros [->| ->]; congruence.
  - split_and!; [apply shrinks_close|done|done|done| |].
    + exists d0, d1. unfold Fd.close. by rewrite !lookup_delete_ne.
    + intros fd d k Hfd Hk. unfold Fd.close in Hfd.
      apply lookup_delete_Some in Hfd as [Hne Hfd]. split; [done|].
      destruct (Hpipe fd d k Hfd Hk). intros [->| ->]; congruence.
  - split_and!; [|done|done|done| |].
    + eapply shrinks_trans; apply shrinks_close.
    + exists d0, d1. unfold Fd.close. by rewrite !lookup_delete_ne.
    + intros fd d k Hfd Hk. unfold Fd.close in Hfd.
      apply lookup_delete_Some in Hfd as [Hne Hfd].
      apply lookup_delete_Some in Hfd as [Hne' Hfd]. split; [done|].
      intros [->| ->]; congruence.
Qed.

Lemma slot_cases (mp : (Z * Z) * (Z * Z)) (i : Z) :
  (slot mp i = mp.1 ∧ ∀ v, set_slot mp i v = (v, mp.2)) ∨
  (slot mp i = mp.2 ∧ ∀ v, set_slot mp i v = (mp.1, v)).
Proof. unfold slot, set_slot. destruct (i =? 0); [left|right]; done. Qed.

(** After the stale descriptors of a slot are closed, the endpoints left
    are those of the other slot. *)
Lemma confined_after_close (mp : (Z * Z) * (Z * Z)) (t t' : gmap Z filedesc)
  (i : Z) :
  confined mp t →
  (∀ fd d k, t' !! fd = Some d → Fd.chan_of d = Some k →
             t !! fd = Some d ∧ ¬ in_slot (slot mp i) fd) →
  ∀ v, confined (set_slot mp i v) t'.
Proof.
  intros (c0 & c1 & H) Hkeep v.
  destruct (slot_cases mp i) as [[Hs Hset]|[Hs Hset]]; rewrite Hset.
  - exists None, c1. intros fd d k Hfd Hk.
    destruct (Hkeep fd d k Hfd Hk) as [Hfd' Hout]. rewrite Hs in Hout.
    destruct (H fd d k Hfd' Hk) as [[? _]|[? ?]]; [done|]. right. done.
  - exists c0, None. intros fd d k Hfd Hk.
    destruct (Hkeep fd d k Hfd Hk) as [Hfd' Hout]. rewrite Hs in Hout.
    destruct (H fd d k Hfd' Hk) as [[? ?]|[? _]]; [|done]. left. done.
Qed.

(** A new channel in the slot that was emptied. *)
Lemma confined_after_pipe (mp : (Z * Z) * (Z * Z)) (t t' : gmap Z filedesc)
  (i : Z) (n : nat) :
  confined mp t →
  (∀ fd d k, t' !! fd = Some d → Fd.chan_of d = Some k →
             t !! fd = Some d ∧ ¬ in_slot (slot mp i) fd) →
  confined (set_slot mp i (Fd.pipe n t').1) (Fd.pipe n t').2.
Proof.
  intros (c0 & c1 & H) Hkeep. unfold Fd.pipe. simpl.
  set (r := Fd.lowest_free t').
  set (w := Fd.lowest_free (<[r := PipeR n]> t')).
  assert (Hnew : ∀ fd d k,
             <[w := PipeW n]> (<[r := PipeR n]> t') !! fd = Some d →
             Fd.chan_of d = Some k →
             (in_slot (r, w) fd ∧ k = n) ∨
             (t !! fd = Some d ∧ ¬ in_slot (slot mp i) fd)).
  { intros fd d k Hfd Hk.
    apply lookup_insert_Some in Hfd as [[<- <-]|[_ Hfd]].
    { left. simpl in Hk. split; [by right|congruence]. }
    apply lookup_insert_Some in Hfd as [[<- <-]|[_ Hfd]].
    { left. simpl in Hk. split; [by left|congruence]. }
    right. by eapply Hkeep. }
  destruct (slot_cases mp i) as [[Hs Hset]|[Hs Hset]]; rewrite Hset.
  - exists (Some n), c1. intros fd d k Hfd Hk.
    destruct (Hnew fd d k Hfd Hk) as [[? ->]|[Hfd' Hout]]; [by left|].
    rewrite Hs in Hout.
    destruct (H fd d k Hfd' Hk) as [[? _]|[? ?]]; [done|]. by right.
  - exists c0, (Some n). intros fd d k Hfd Hk.
    destruct (Hnew fd d k Hfd Hk) as [[? ->]|[Hfd' Hout]]; [by right|].
    rewrite Hs in Hout.
    destruct (H fd d k Hfd' Hk) as [[? ?]|[? _]]; [|done]. by left.
Qed.

Lemma std_open_pipe (n : nat) (t : gmap Z filedesc) :
  std_open t →
  std_open (Fd.pipe n t).2 ∧
  (Fd.pipe n t).1.1 ≠ 0 ∧ (Fd.pipe n t).1.1 ≠ 1 ∧
  (Fd.pipe n t).1.2 ≠ 0 ∧ (Fd.pipe n t).1.2 ≠ 1.
Proof.
  intros Hstd. unfold Fd.pipe. simpl.
  destruct (std_open_fresh t Hstd) as [Hr0 Hr1].
  assert (Hstd1 : std_open (<[Fd.lowest_free t := PipeR n]> t))
    by (by apply std_open_insert).
  destruct (std_open_fresh _ Hstd1) as [Hw0 Hw1].
  split_and!; try done. by apply std_open_insert.
Qed.

Lemma slots_sane_set (mp : (Z * Z) * (Z * Z)) (i : Z) (v : Z * Z) :
  slots_sane mp → v.1 ≠ 1 → v.2 ≠ 0 → slots_sane (set_slot mp i v).
Proof.
  intros (A & B & C & D) H1 H2.
  destruct (slot_cases mp i) as [[_ Hset]|[_ Hset]]; rewrite Hset;
    unfold slots_sane; simpl; done.
Qed.

Lemma slots_sane_slot (mp : (Z * Z) * (Z * Z)) (i : Z) :
  slots_sane mp → (slot mp i).1 ≠ 1 ∧ (slot mp i).2 ≠ 0.
Proof.
  intros (A & B & C & D).
  destruct (slot_cases mp i) as [[-> _]|[-> _]]; done.
Qed.

Lemma slot_set_slot (mp : (Z * Z) * (Z * Z)) (i : Z) (v : Z * Z) :
  slot (set_slot mp i v) i = v.
Proof. unfold slot, set_slot. by destruct (i =? 0). Qed.

Lemma set_slot_set_slot (mp : (Z * Z) * (Z * Z)) (i : Z) (v v' : Z * Z) :
  set_slot (set_slot mp i v) i v' = set_slot mp i v'.
Proof. unfold slot, set_slot. by destruct (i =? 0). Qed.

Lemma next_stage_inv (W : world) (last : bool) (s : proc) :
  stage_inv s →
  stage_inv (next_stage W last s) ∧
  stages (next_stage W last s) = stages s.
Proof.
  intros (Hstd & Hsane & Hconf & Hhist & Hstages).
  unfold next_stage.
  set (s1 := set_pipenum (c_not (pipenum s)) s).
  set (i := c_not (pipenum s)).
  change (pipenum s1) with i. change (mypipes s1) with (mypipes s).
  destruct (slots_sane_slot (mypipes s) i Hsane) as [Hv1 Hv2].
  destruct (close_stale_spec (slot (mypipes s) i) s1 Hstd Hv1 Hv2)
    as (Hsh & Hmp & Hpn & Hnp & Hstd2 & Hkeep).
  set (s2 := close_stale (slot (mypipes s) i) s1) in *.
  destruct Hsh as (Hst2 & _ & _ & Hsh).
  destruct (Hsh (Fd.channels (fds s)) (reflexivity _)) as (Hch2 & L & HL & FL).
  change (mypipes s1) with (mypipes s) in Hmp.
  change (pipenum s1) with i in Hpn.
  change (npipe s1) with (npipe s) in Hnp.
  change (stages s1) with (stages s) in Hst2.
  change (hist s1) with (hist s) in HL.
  change (fds s1) with (fds s) in Hkeep.
  clear Hsh. clearbody s2. clear s1.
  assert (Hhist2 : Forall at_most_two (hist s2)).
  { rewrite HL. apply Forall_app. split; [exact Hhist|].
    eapply Forall_impl; [exact FL|]. intros t Ht.
    eapply at_most_two_subseteq; [exact Ht|].
    by eapply confined_at_most_two. }
  unfold stage_inv, construction_ok.
  destruct last.
  - cbn [fds mypipes pipenum hist stages set_mypipes].
    rewrite Hmp, Hpn, slot_set_slot, set_slot_set_slot, Hst2.
    split_and!; try done.
    + apply slots_sane_set; simpl; done.
    + by apply (confined_after_close (mypipes s) (fds s)).
  - unfold sys_pipe. destruct (pipe_ok W (npipe s2));
      cbn [fds mypipes pipenum hist stages set_mypipes set_fds set_npipe];
      rewrite ?Hmp, ?Hpn, ?Hst2.
    + destruct (std_open_pipe (npipe s2) (fds s2) Hstd2)
        as (Hstd3 & R0 & R1 & W0 & W1).
      assert (Hc3 : confined (set_slot (mypipes s) i
                                (Fd.pipe (npipe s2) (fds s2)).1)
                      (Fd.pipe (npipe s2) (fds s2)).2)
        by (by apply (confined_after_pipe (mypipes s) (fds s))).
      split_and!; try done.
      * by apply slots_sane_set.
      * apply Forall_app. split; [done|]. apply Forall_singleton.
        by eapply confined_at_most_two.
    + split_and!; try done.
      pose proof (confined_after_close (mypipes s) (fds s) (fds s2) i
                    Hconf Hkeep (slot (mypipes s) i)) as Hc.
      revert Hc. unfold set_slot, slot.
      destruct (i =? 0); by destruct (mypipes s) as [[] []].
Qed.

Lemma stage_inv_same (s s' : proc) :
  fds s' = fds s → mypipes s' = mypipes s → hist s' = hist s →
  stages s' = stages s → stage_inv s → stage_inv s'.
Proof.
  unfold stage_inv, construction_ok. intros -> -> -> ->. done.
Qed.

Lemma stage_inv_log_stage (s : proc) : stage_inv s → stage_inv (log_stage s).
Proof.
  intros (Hstd & Hsane & Hconf & Hhist & Hstages).
  unfold stage_inv, construction_ok. cbn [fds mypipes hist stages log_stage].
  split_and!; try done. apply Forall_app. split; [done|].
  by apply Forall_singleton.
Qed.

(** A command that is not the last of its pipe leaves the descriptors and
    the slots of the shell alone, whatever becomes of it. *)
Lemma process_cmd_not_last (W : world) (c : Cmd) (s : proc) :
  fds (state_of (process_cmd W c false s)) = fds s ∧
  mypipes (state_of (process_cmd W c false s)) = mypipes s ∧
  pipenum (state_of (process_cmd W c false s)) = pipenum s ∧
  npipe (state_of (process_cmd W c false s)) = npipe s ∧
  hist (state_of (process_cmd W c false s)) = hist s ∧
  stages (state_of (process_cmd W c false s)) = stages s.
Proof.
  unfold process_cmd. destruct (args c) as [|name rest]; simpl; [done|].
  destruct (String.eqb name "end" && (processing_rc s =? 0)); [done|].
  destruct (negb (is_builtin name =? -1)); simpl; unfold fork;
    destruct (fork_ok W (nfork s)); done.
Qed.

Lemma construction_ok_shrinks (s s' : proc) :
  stage_inv s → shrinks s s' → construction_ok s'.
Proof.
  intros (Hstd & Hsane & Hconf & Hhist & Hstages) (Hst & _ & _ & Hsh).
  destruct (Hsh (Fd.channels (fds s)) (reflexivity _)) as (_ & L & HL & FL).
  split; [|by rewrite Hst].
  rewrite HL. apply Forall_app. split; [done|].
  eapply Forall_impl; [exact FL|]. intros t Ht.
  eapply at_most_two_subseteq; [exact Ht|]. by eapply confined_at_most_two.
Qed.

Lemma command_loop_ok (W : world) (p : Pipe) :
  ∀ (n : Z) (s : proc),
    stage_inv s → construction_ok (state_of (command_loop W p n s)).
Proof.
  induction p as [|c next IH]; intros n s Hinv.
  - simpl. apply Hinv.
  - cbn [command_loop].
    set (last := match next with [] => true | _ => false end).
    destruct (next_stage_inv W last s Hinv) as [Hinv1 _].
    apply stage_inv_log_stage in Hinv1.
    set (s1 := log_stage (next_stage W last s)) in *. clearbody s1.
    destruct next as [|c' next'].
    + assert (Hsame : state_of
                (bind (process_cmd W c last s1)
                   (λ ret s0, if ret <? 0 then Ret (n + 1) s0
                              else command_loop W [] (n + 1) s0))
              = state_of (process_cmd W c last s1)).
      { destruct (process_cmd W c last s1) as [ret s2| |]; simpl; [|done|done].
        by destruct (ret <? 0). }
      rewrite Hsame. eapply construction_ok_shrinks; [exact Hinv1|].
      apply shrinks_process_cmd.
    + subst last.
      destruct (process_cmd_not_last W c s1) as (Hf & Hm & _ & _ & Hh & Hs).
      pose proof (stage_inv_same s1 _ Hf Hm Hh Hs Hinv1) as Hinv2.
      destruct (process_cmd W c false s1) as [ret s2| |]; simpl in *.
      * destruct (ret <? 0); [apply Hinv2|]. by apply IH.
      * apply Hinv2.
      * apply Hinv2.
Qed.

Lemma ready_stage_inv (s : proc) :
  ready s →
  stage_inv
    (set_mypipes (set_slot (-1, -1, (-1, -1)) 0 (0, -1))
       (set_mypipes (-1, -1, (-1, -1)) (set_pipenum 0 s))).
Proof.
  intros ([d0 E0] & [d1 E1] & Hch & Hhist & Hst).
  pose proof (proj1 (chan_of_None_channels (fds s)) Hch) as Hnone.
  unfold stage_inv, construction_ok.
  cbn [fds mypipes hist stages set_mypipes set_pipenum].
  split_and!.
  - exists d0, d1. split_and!; [done|done|by eapply Hnone|by eapply Hnone].
  - unfold slots_sane. simpl. done.
  - exists None, None. intros fd d k Hfd Hk.
    rewrite (Hnone fd d Hfd) in Hk. discriminate.
  - done.
  - rewrite Hst. constructor.
Qed.

(** C2: from a shell that has descriptors 0 and 1 open and holds no
    channel, whatever the commands of the pipe and whatever the system
    calls answer, every descriptor table the shell goes through while it
    launches the pipe holds endpoints of at most two channels; and at
    every call of [process_cmd] the endpoints the shell holds are confined
    to the two slots of [mypipes], one channel a slot. *)
Theorem at_most_two_channels (W : world) (p : Pipe) (s : proc) :
  ready s →
  Forall at_most_two (hist (state_of (launch_pipe W p s))) ∧
  Forall (λ w, confined (w_mypipes w) (w_fds w))
    (stages (state_of (launch_pipe W p s))).
Proof.
  intros Hready. unfold launch_pipe.
  cbn [pipenum mypipes set_mypipes set_pipenum].
  exact (command_loop_ok W p 0 _ (ready_stage_inv s Hready)).
Qed.

Lemma ready_demo_shell : ready Demo.shell.
Proof.
  unfold ready. split_and!.
  - by eexists.
  - by eexists.
  - by vm_compute.
  - apply Forall_singleton. unfold at_most_two. vm_compute. lia.
  - reflexivity.
Qed.

Lemma at_most_two_channels_witness :
  ready Demo.shell ∧
  Forall at_most_two
    (hist (state_of (launch_pipe Demo.calm Demo.ls_grep_wc Demo.shell))).
Proof.
  split; [exact ready_demo_shell|].
  apply (at_most_two_channels Demo.calm Demo.ls_grep_wc Demo.shell).
  exact ready_demo_shell.
Defined.

(** The bound is reached: while [ls | grep main | wc] is launched the
    shell does hold two channels at once. *)
Example two_channels_are_held :
  Exists (λ t, size (Fd.channels t) = 2%nat)
    (hist (state_of (launch_pipe Demo.calm Demo.ls_grep_wc Demo.shell))).
Proof.
  apply Exists_exists.
  exists (Fd.pipe 1 (Fd.pipe 0 std_table).2).2.
  split; [|by vm_compute].
  vm_compute. repeat first [by left | right].
Qed.

(** ** Redirections and the descriptor table *)

Lemma std3_fresh (t : gmap Z filedesc) :
  std3 t →
  Fd.lowest_free t ≠ 0 ∧ Fd.lowest_free t ≠ 1 ∧ Fd.lowest_free t ≠ 2.
Proof.
  intros ([d0 E0] & [d1 E1] & [d2 E2]).
  split_and!; symmetry; eapply FdFacts.lowest_free_fresh; eauto.
Qed.

Lemma std3_insert (fd : Z) (d : filedesc) (t : gmap Z filedesc) :
  std3 t → std3 (<[fd := d]> t).
Proof.
  intros (H0 & H1 & H2). unfold std3.
  rewrite !lookup_insert_is_Some. split_and!;
    (destruct (decide (fd = 0)), (decide (fd = 1)), (decide (fd = 2));
     subst; eauto).
Qed.

Lemma std3_close (fd : Z) (t : gmap Z filedesc) :
  fd ≠ 0 → fd ≠ 1 → fd ≠ 2 → std3 t → std3 (Fd.close fd t).
Proof.
  intros N0 N1 N2 (H0 & H1 & H2). unfold std3, Fd.close.
  by rewrite !lookup_delete_ne.
Qed.

Lemma std3_dup2 (oldfd newfd : Z) (t : gmap Z filedesc) :
  std3 t → std3 (Fd.dup2 oldfd newfd t).
Proof.
  intros H. unfold Fd.dup2. destruct (t !! oldfd); [|done].
  by apply std3_insert.
Qed.

(** open, dup2 to [target], close: the file ends up on [target] and the
    descriptor open gave is gone. *)
Lemma open_dup2_close (d : filedesc) (target : Z) (t : gmap Z filedesc) :
  is_Some (t !! target) →
  Fd.close (Fd.lowest_free t)
    (Fd.dup2 (Fd.lowest_free t) target (<[Fd.lowest_free t := d]> t))
  = <[target := d]> t.
Proof.
  intros [d' Ht]. unfold Fd.dup2, Fd.close.
  destruct (FdFacts.lowest_free_spec t) as [_ Hfree].
  pose proof (FdFacts.lowest_free_fresh t target d' Ht) as Hne.
  rewrite lookup_insert_eq.
  rewrite delete_insert_ne by done.
  by rewrite delete_insert_id.
Qed.

Lemma open_dup2_dup2_close (d : filedesc) (t : gmap Z filedesc) :
  is_Some (t !! 1) → is_Some (t !! 2) →
  Fd.close (Fd.lowest_free t)
    (Fd.dup2 (Fd.lowest_free t) 2
       (Fd.dup2 (Fd.lowest_free t) 1 (<[Fd.lowest_free t := d]> t)))
  = <[2 := d]> (<[1 := d]> t).
Proof.
  intros [d1 H1] [d2 H2]. unfold Fd.dup2, Fd.close.
  destruct (FdFacts.lowest_free_spec t) as [_ Hfree].
  pose proof (FdFacts.lowest_free_fresh t 1 d1 H1) as Hne1.
  pose proof (FdFacts.lowest_free_fresh t 2 d2 H2) as Hne2.
  rewrite lookup_insert_eq.
  rewrite lookup_insert_ne, lookup_insert_eq by done.
  rewrite !delete_insert_ne by done.
  by rewrite delete_insert_id.
Qed.

Lemma same_globals_refl (s : proc) : same_globals s s.
Proof. by unfold same_globals. Qed.

Lemma same_globals_trans (s1 s2 s3 : proc) :
  same_globals s1 s2 → same_globals s2 s3 → same_globals s1 s3.
Proof.
  unfold same_globals. intros (?&?&?&?&?&?&?&?) (?&?&?&?&?&?&?&?).
  split_and!; congruence.
Qed.

(** A call of [perform_io_redirect] that returns has applied the file
    redirections to the table and has touched nothing else. *)
Lemma perform_io_redirect_Ret (W : world) (c : Cmd) (s s' : proc) :
  std3 (fds s) →
  perform_io_redirect W c s = Ret tt s' →
  fds s' = file_redirections W c (fds s) ∧
  same_globals s s' ∧ children s' = children s ∧ nfork s' = nfork s ∧
  out s' = out s ∧ sigs s' = sigs s ∧ prio s' = prio s.
Proof.
  intros Hstd. unfold perform_io_redirect, file_redirections, file_out.
  assert (Hout : ∀ s0 : proc, std3 (fds s0) →
    let s1 := match cout c with
              | Tout => redirect_output W (outfile c) (FileW (outfile c) false) false s0
              | Tapp => redirect_output W (outfile c) (FileW (outfile c) true) false s0
              | ToutErr => redirect_output W (outfile c) (FileW (outfile c) false) true s0
              | TappErr => redirect_output W (outfile c) (FileW (outfile c) true) true s0
              | _ => s0
              end in
    fds s1 =
      match (if can_write W (outfile c) then
               match cout c with
               | Tout => Some (FileW (outfile c) false, false)
               | Tapp => Some (FileW (outfile c) true, false)
               | ToutErr => Some (FileW (outfile c) false, true)
               | TappErr => Some (FileW (outfile c) true, true)
               | _ => None
               end
             else None) with
      | Some (d, true) => <[2 := d]> (<[1 := d]> (fds s0))
      | Some (d, false) => <[1 := d]> (fds s0)
      | None => fds s0
      end ∧
    same_globals s0 s1 ∧ children s1 = children s0 ∧ nfork s1 = nfork s0 ∧
    out s1 = out s0 ∧ sigs s1 = sigs s0 ∧ prio s1 = prio s0).
  { intros s0 (H0 & H1 & H2). unfold redirect_output.
    destruct (can_write W (outfile c)), (cout c); simpl;
      rewrite ?open_dup2_close, ?open_dup2_dup2_close by done;
      try by unfold same_globals. }
  case_decide as Hin; [destruct (can_read W (infile c))|]; simpl;
    intros Heq; simplify_eq.
  - set (s1 := sys_close _ _).
    assert (Hf1 : fds s1 = <[0 := FileR (infile c)]> (fds s)).
    { subst s1. simpl. apply open_dup2_close. apply Hstd. }
    destruct (Hout s1) as (Hf & Hg & Hc & Hn & Ho & Hsg & Hp).
    { rewrite Hf1. by apply std3_insert. }
    rewrite Hf, Hf1. split; [done|].
    split; [|by rewrite Hc, Hn, Ho, Hsg, Hp].
    eapply same_globals_trans; [|exact Hg]. by unfold same_globals.
  - destruct (Hout s Hstd) as (Hf & Hg & Hc & Hn & Ho & Hsg & Hp). done.
Qed.

Lemma keeps_refl (X : gset Z) (t : gmap Z filedesc) : keeps X t t.
Proof. by intros fd d _ H. Qed.

Lemma keeps_trans (X : gset Z) (t1 t2 t3 : gmap Z filedesc) :
  keeps X t1 t2 → keeps X t2 t3 → keeps X t1 t3.
Proof. intros H12 H23 fd d Hfd H. eauto. Qed.

Lemma keeps_mono (X Y : gset Z) (t t' : gmap Z filedesc) :
  X ⊆ Y → keeps X t t' → keeps Y t t'.
Proof. intros HXY H fd d Hfd. apply H. set_solver. Qed.

Lemma keeps_insert_fwd (X : gset Z) (fd : Z) (d : filedesc)
  (t : gmap Z filedesc) :
  fd ∈ X → keeps X t (<[fd := d]> t).
Proof.
  intros Hin x d' Hx H. rewrite lookup_insert_ne; [done|]. set_solver.
Qed.

Lemma keeps_insert_bwd (X : gset Z) (fd : Z) (d : filedesc)
  (t : gmap Z filedesc) :
  fd ∈ X → keeps X (<[fd := d]> t) t.
Proof.
  intros Hin x d' Hx H. rewrite lookup_insert_ne in H; [done|]. set_solver.
Qed.

Lemma keeps_dup2_fwd (X : gset Z) (oldfd newfd : Z) (t : gmap Z filedesc) :
  newfd ∈ X → keeps X t (Fd.dup2 oldfd newfd t).
Proof.
  intros Hin. unfold Fd.dup2. destruct (t !! oldfd); [|apply keeps_refl].
  by apply keeps_insert_fwd.
Qed.

Lemma keeps_dup2_bwd (X : gset Z) (oldfd newfd : Z) (t : gmap Z filedesc) :
  newfd ∈ X → keeps X (Fd.dup2 oldfd newfd t) t.
Proof.
  intros Hin. unfold Fd.dup2. destruct (t !! oldfd); [|apply keeps_refl].
  by apply keeps_insert_bwd.
Qed.

Lemma keeps_close_fwd (X : gset Z) (fd : Z) (t : gmap Z filedesc) :
  fd ∈ X → keeps X t (Fd.close fd t).
Proof.
  intros Hin x d Hx H. unfold Fd.close. rewrite lookup_delete_ne; [done|].
  set_solver.
Qed.

Lemma keeps_close_bwd (X : gset Z) (fd : Z) (t : gmap Z filedesc) :
  keeps X (Fd.close fd t) t.
Proof.
  intros x d Hx H. unfold Fd.close in H.
  by apply lookup_delete_Some in H as [_ H].
Qed.

Lemma fds_perform_pipe_redirect (c : Cmd) (s : proc) :
  fds (perform_pipe_redirect c s)
  = wired (cout c) (pipenum s) (mypipes s) (fds s).
Proof. unfold perform_pipe_redirect, wired. by case_decide. Qed.

Lemma perform_pipe_redirect_rest (c : Cmd) (s : proc) :
  same_globals s (perform_pipe_redirect c s) ∧
  children (perform_pipe_redirect c s) = children s ∧
  nfork (perform_pipe_redirect c s) = nfork s ∧
  sigs (perform_pipe_redirect c s) = sigs s ∧
  prio (perform_pipe_redirect c s) = prio s.
Proof. unfold perform_pipe_redirect, same_globals. by case_decide. Qed.

Lemma redirected_01 (co : token) : 0 ∈ redirected co ∧ 1 ∈ redirected co.
Proof. unfold redirected. set_solver. Qed.

Lemma wired_fwd (co : token) (pn : Z) (mp : (Z * Z) * (Z * Z))
  (t : gmap Z filedesc) :
  keeps (redirected co ∪ {[(slot mp (c_not pn)).2; (slot mp pn).1]})
    t (wired co pn mp t).
Proof.
  unfold wired. destruct (redirected_01 co) as [Hin0 Hin1].
  set (X := redirected co ∪ {[(slot mp (c_not pn)).2; (slot mp pn).1]}).
  assert (M0 : 0 ∈ X) by (by apply elem_of_union_l).
  assert (M1 : 1 ∈ X) by (by apply elem_of_union_l).
  assert (Mw : (slot mp (c_not pn)).2 ∈ X)
    by (apply elem_of_union_r, elem_of_union_l; by apply elem_of_singleton).
  assert (Mr : (slot mp pn).1 ∈ X)
    by (apply elem_of_union_r, elem_of_union_r; by apply elem_of_singleton).
  assert (Hbase : keeps X t
            (Fd.close (slot mp pn).1
               (Fd.dup2 (slot mp pn).2 1
                  (Fd.close (slot mp (c_not pn)).2
                     (Fd.dup2 (slot mp (c_not pn)).1 0 t))))).
  { eapply keeps_trans; [|by apply keeps_close_fwd].
    eapply keeps_trans; [|by apply keeps_dup2_fwd].
    eapply keeps_trans; [|by apply keeps_close_fwd].
    by apply keeps_dup2_fwd. }
  case_decide as Hco; [|done].
  eapply keeps_trans; [exact Hbase|]. apply keeps_dup2_fwd.
  apply elem_of_union_l. subst co. unfold redirected.
  apply elem_of_union_r. by apply elem_of_singleton.
Qed.

Lemma wired_bwd (co : token) (pn : Z) (mp : (Z * Z) * (Z * Z))
  (t : gmap Z filedesc) :
  keeps (redirected co) (wired co pn mp t) t.
Proof.
  unfold wired. destruct (redirected_01 co) as [H0 H1].
  assert (H2 : co = TpipeErr → 2 ∈ redirected co)
    by (intros ->; unfold redirected; set_solver).
  case_decide.
  - eapply keeps_trans; [apply keeps_dup2_bwd; auto|].
    eapply keeps_trans; [apply keeps_close_bwd|].
    eapply keeps_trans; [apply keeps_dup2_bwd; auto|].
    eapply keeps_trans; [apply keeps_close_bwd|].
    apply keeps_dup2_bwd; auto.
  - eapply keeps_trans; [apply keeps_close_bwd|].
    eapply keeps_trans; [apply keeps_dup2_bwd; auto|].
    eapply keeps_trans; [apply keeps_close_bwd|].
    apply keeps_dup2_bwd; auto.
Qed.

Lemma wired_std3 (co : token) (pn : Z) (mp : (Z * Z) * (Z * Z))
  (t : gmap Z filedesc) :
  std3 t →
  (0 ∉ ({[(slot mp (c_not pn)).2; (slot mp pn).1]} : gset Z)) →
  (1 ∉ ({[(slot mp (c_not pn)).2; (slot mp pn).1]} : gset Z)) →
  (2 ∉ ({[(slot mp (c_not pn)).2; (slot mp pn).1]} : gset Z)) →
  std3 (wired co pn mp t).
Proof.
  intros Hstd N0 N1 N2. unfold wired.
  assert (std3 (Fd.close (slot mp pn).1
                  (Fd.dup2 (slot mp pn).2 1
                     (Fd.close (slot mp (c_not pn)).2
                        (Fd.dup2 (slot mp (c_not pn)).1 0 t))))).
  { apply std3_close; [by intros E; rewrite <- E in *; set_unfold; tauto..|].
    apply std3_dup2.
    apply std3_close; [by intros E; rewrite <- E in *; set_unfold; tauto..|].
    by apply std3_dup2. }
  case_decide; [by apply std3_dup2|done].
Qed.

Lemma file_redirections_keeps (W : world) (c : Cmd) (t : gmap Z filedesc) :
  keeps (redirected (cout c)) t (file_redirections W c t) ∧
  keeps (redirected (cout c)) (file_redirections W c t) t ∧
  (std3 t → std3 (file_redirections W c t)).
Proof.
  unfold file_redirections, file_out.
  destruct (redirected_01 (cout c)) as [H0 H1].
  set (t1 := if decide (cin c = Tin) then <[0 := FileR (infile c)]> t else t).
  assert (Hin : keeps (redirected (cout c)) t t1 ∧
                keeps (redirected (cout c)) t1 t ∧ (std3 t → std3 t1)).
  { subst t1. case_decide.
    - split_and!; [by apply keeps_insert_fwd|by apply keeps_insert_bwd|].
      apply std3_insert.
    - split_and!; [apply keeps_refl|apply keeps_refl|done]. }
  destruct Hin as (Hf & Hb & Hs). clearbody t1.
  destruct (can_write W (outfile c)); [|done].
  destruct (cout c) eqn:E; try done.
  - split_and!.
    + eapply keeps_trans; [exact Hf|]. by apply keeps_insert_fwd.
    + eapply keeps_trans; [|exact Hb]. by apply keeps_insert_bwd.
    + intros H. by apply std3_insert, Hs.
  - split_and!.
    + eapply keeps_trans; [exact Hf|]. by apply keeps_insert_fwd.
    + eapply keeps_trans; [|exact Hb]. by apply keeps_insert_bwd.
    + intros H. by apply std3_insert, Hs.
  - assert (H2 : 2 ∈ redirected ToutErr) by (unfold redirected; set_solver).
    split_and!.
    + eapply keeps_trans; [exact Hf|].
      eapply keeps_trans; by apply keeps_insert_fwd.
    + eapply keeps_trans; [|exact Hb].
      eapply keeps_trans; by apply keeps_insert_bwd.
    + intros H. by apply std3_insert, std3_insert, Hs.
  - assert (H2 : 2 ∈ redirected TappErr) by (unfold redirected; set_solver).
    split_and!.
    + eapply keeps_trans; [exact Hf|].
      eapply keeps_trans; by apply keeps_insert_fwd.
    + eapply keeps_trans; [|exact Hb].
      eapply keeps_trans; by apply keeps_insert_bwd.
    + intros H. by apply std3_insert, std3_insert, Hs.
Qed.

(** ** What a call of [process_cmd] that returns leaves behind *)

Lemma forked_at_most_one_refl (s s' : proc) :
  nfork s' = nfork s → children s' = children s → forked_at_most_one s s'.
Proof.
  intros Hn Hc. split; [lia|]. exists []. rewrite app_nil_r.
  split; [done|]. split; [simpl; lia|]. intros k Hk. inversion Hk.
Qed.

Lemma framed_same (co : token) (s s' : proc) :
  fds s' = fds s → same_globals s s' → nfork s' = nfork s →
  children s' = children s → framed co s s'.
Proof.
  intros Hf Hg Hn Hc. split_and!; [done| |rewrite Hf|rewrite Hf].
  - by apply forked_at_most_one_refl.
  - apply keeps_refl.
  - apply keeps_refl.
Qed.

Lemma discarded_same (s s' : proc) :
  same_globals s s' → discarded s' = discarded s.
Proof. intros (Hp & Hm & _). unfold discarded. by rewrite Hp, Hm. Qed.

Lemma spared_same (s s' : proc) : same_globals s s' → spared s → spared s'.
Proof. intros H. unfold spared. by rewrite (discarded_same s s' H). Qed.

Lemma forked_at_most_one_shift (s1 s2 s3 s4 : proc) :
  nfork s2 = nfork s1 → children s2 = children s1 →
  nfork s4 = nfork s3 → children s4 = children s3 →
  forked_at_most_one s2 s3 → forked_at_most_one s1 s4.
Proof.
  unfold forked_at_most_one. intros -> -> -> ->. done.
Qed.

(** The handlers: [exec_cmd] is framed as soon as the calls of
    [process_cmd] that [exec_nice] makes are. *)
Lemma exec_cmd_framed (W : world) (i : Z) (sub1 sub2 : proc → outcome Z)
  (c : Cmd) (s s' : proc) :
  (∀ s0 r s0', std3 (fds s0) → spared s0 → sub1 s0 = Ret r s0' →
               framed Tnil s0 s0' ∧ std3 (fds s0')) →
  (∀ s0 r s0', std3 (fds s0) → spared s0 → sub2 s0 = Ret r s0' →
               framed Tnil s0 s0' ∧ std3 (fds s0')) →
  std3 (fds s) → spared s →
  exec_cmd W i sub1 sub2 c s = Ret tt s' →
  framed Tnil s s' ∧ std3 (fds s').
Proof.
  intros H1 H2 Hstd Hsp. unfold exec_cmd.
  destruct (i =? 1); [|destruct (i =? 2); [|destruct (i =? 3)]].
  - unfold exec_echo. rewrite echo_loop_eq. simpl. intros Heq.
    simplify_eq. destruct (_ =? 1); (split; [by apply framed_same|done]).
  - discriminate.
  - unfold exec_nice. destruct (nice_plan c) as [[p cmd]|]; [|discriminate].
    destruct cmd; simpl.
    + intros Heq. simplify_eq. split; [by apply framed_same|done].
    + destruct (sub1 (setpriority p s)) as [r s1| |] eqn:E; simpl;
        [|discriminate..]. intros Heq. simplify_eq.
      destruct (H1 (setpriority p s) _ _ Hstd Hsp E)
        as [(Hg & Hfk & Hk1 & Hk2) Hs].
      split; [|done]. split_and!; try done.
    + destruct (sub2 (setpriority p s)) as [r s1| |] eqn:E; simpl;
        [|discriminate..]. intros Heq. simplify_eq.
      destruct (H2 (setpriority p s) _ _ Hstd Hsp E)
        as [(Hg & Hfk & Hk1 & Hk2) Hs].
      split; [|done]. split_and!; try done.
  - unfold exec_environment.
    destruct (environment_builtin W i (args c)) as [lines|]; [|discriminate].
    rewrite printf_lines_eq. intros Heq. simplify_eq.
    split; [by apply framed_same|done].
Qed.

Lemma fork_framed (W : world) (co : token) (argv : list string)
  (body : proc → outcome ending) (s : proc) :
  framed co s (fork W argv body s) ∧ fds (fork W argv body s) = fds s.
Proof.
  unfold fork. destruct (fork_ok W (nfork s)); simpl.
  - split; [|done]. split_and!; [done| |apply keeps_refl|apply keeps_refl].
    split; [simpl; lia|]. eexists. split; [reflexivity|].
    split; [simpl; lia|]. intros k Hk. apply list_elem_of_singleton in Hk.
    subst k. destruct (body (forked s)); simpl; lia.
  - split; [|done]. split_and!; [done| |apply keeps_refl|apply keeps_refl].
    split; [simpl; lia|]. exists []. rewrite app_nil_r.
    split; [done|]. split; [simpl; lia|]. intros k Hk. inversion Hk.
Qed.

Lemma sys_dup_open (fd : Z) (s : proc) (d : filedesc) :
  fds s !! fd = Some d →
  sys_dup fd s =
  (Fd.lowest_free (fds s),
   set_fds (<[Fd.lowest_free (fds s) := d]> (fds s)) s).
Proof. intros H. unfold sys_dup, Fd.dup. rewrite H. reflexivity. Qed.

(** The built-in branch run in the shell, taken apart: the two dups, the
    wiring, the file redirections, the handler, the restoration. *)
Lemma builtin_in_shell_inv (W : world) (i : Z) (sub1 sub2 : proc → outcome Z)
  (c : Cmd) (s s' : proc) (r : Z) :
  std3 (fds s) → spared s →
  builtin_in_shell W i sub1 sub2 c s = Ret r s' →
  ∃ d0 d1 s4 s5,
    fds s !! 0 = Some d0 ∧ fds s !! 1 = Some d1 ∧
    let n := Fd.lowest_free (fds s) in
    let ta := <[n := d0]> (fds s) in
    let n' := Fd.lowest_free ta in
    let tb := <[n' := d1]> ta in
    std3 tb ∧
    fds s4 = file_redirections W c
               (wired (cout c) (pipenum s) (mypipes s) tb) ∧
    std3 (fds s4) ∧
    same_globals s s4 ∧ children s4 = children s ∧ nfork s4 = nfork s ∧
    exec_cmd W i sub1 sub2 c s4 = Ret tt s5 ∧
    fds s' = Fd.close n' (Fd.close n (Fd.dup2 n' 1 (Fd.dup2 n 0 (fds s5)))) ∧
    same_globals s5 s' ∧ children s' = children s5 ∧ nfork s' = nfork s5 ∧
    r = 0.
Proof.
  intros Hstd Hsp. pose proof Hstd as ([d0 E0] & [d1 E1] & [d2 E2]).
  unfold builtin_in_shell.
  set (n := Fd.lowest_free (fds s)).
  set (ta := <[n := d0]> (fds s)).
  set (n' := Fd.lowest_free ta).
  set (tb := <[n' := d1]> ta).
  assert (Hta1 : ta !! 1 = Some d1).
  { subst ta. rewrite lookup_insert_ne; [done|].
    symmetry. by eapply FdFacts.lowest_free_fresh. }
  rewrite (sys_dup_open 0 s d0 E0). cbn [fst snd]. fold n ta.
  rewrite (sys_dup_open 1 (set_fds ta s) d1 Hta1). cbn [fst snd fds set_fds].
  fold n' tb.
  set (sb := set_fds tb (set_fds ta s)).
  assert (Hgb : same_globals s sb ∧ children sb = children s ∧
                nfork sb = nfork s ∧ fds sb = tb)
    by (unfold same_globals, sb; simpl; done).
  destruct Hgb as (Hgb & Hcb & Hnb & Htb).
  assert (Hstdb : std3 tb) by (by apply std3_insert, std3_insert).
  clearbody sb.
  destruct (perform_pipe_redirect_rest c sb) as (Hg3 & Hc3 & Hn3 & _).
  pose proof (fds_perform_pipe_redirect c sb) as Hf3.
  assert (Hstd3 : std3 (fds (perform_pipe_redirect c sb))).
  { rewrite Hf3, Htb. destruct Hsp as (N0 & N1 & N2).
    rewrite <- (discarded_same s sb Hgb) in N0, N1, N2.
    by apply wired_std3. }
  set (s3 := perform_pipe_redirect c sb) in *. clearbody s3.
  destruct (perform_io_redirect W c s3) as [[] s4| |] eqn:Eio; simpl;
    [|discriminate..].
  destruct (perform_io_redirect_Ret W c s3 s4 Hstd3 Eio)
    as (Hf4 & Hg4 & Hc4 & Hn4 & _).
  destruct (exec_cmd W i sub1 sub2 c s4) as [[] s5| |] eqn:Eh; simpl;
    [|discriminate..].
  intros Heq. simplify_eq.
  exists d0, d1, s4, s5.
  pose proof Hgb as (Hp & Hm & _). rewrite Hp, Hm in Hf3.
  split_and!; try done.
  - by rewrite Hf4, Hf3, Htb.
  - rewrite Hf4. by apply file_redirections_keeps.
  - eapply same_globals_trans; [|exact Hg4].
    eapply same_globals_trans; [|exact Hg3]. exact Hgb.
  - congruence.
  - congruence.
Qed.

Lemma not_redirected_Tnil (co : token) (fd : Z) :
  fd ∉ redirected co → fd ∉ redirected Tnil.
Proof.
  intros H Hin. apply H. unfold redirected in *.
  apply elem_of_union in Hin as [Hin|Hin]; [by apply elem_of_union_l|].
  by apply not_elem_of_empty in Hin.
Qed.

Lemma not_redirected_01 (co : token) (fd : Z) :
  fd ∉ redirected co → fd ≠ 0 ∧ fd ≠ 1.
Proof.
  intros H. destruct (redirected_01 co). split; intros ->; done.
Qed.

Lemma builtin_in_shell_framed (W : world) (i : Z)
  (sub1 sub2 : proc → outcome Z) (c : Cmd) (s s' : proc) (r : Z) :
  (∀ s0 r s0', std3 (fds s0) → spared s0 → sub1 s0 = Ret r s0' →
               framed Tnil s0 s0' ∧ std3 (fds s0')) →
  (∀ s0 r s0', std3 (fds s0) → spared s0 → sub2 s0 = Ret r s0' →
               framed Tnil s0 s0' ∧ std3 (fds s0')) →
  std3 (fds s) → spared s →
  builtin_in_shell W i sub1 sub2 c s = Ret r s' →
  r = 0 ∧ framed (cout c) s s' ∧ std3 (fds s').
Proof.
  intros H1 H2 Hstd Hsp Heq.
  destruct (builtin_in_shell_inv W i sub1 sub2 c s s' r Hstd Hsp Heq)
    as (d0 & d1 & s4 & s5 & E0 & E1 & Hstdb & Hf4 & Hstd4 & Hg4 & Hc4 & Hn4
        & Eh & Hf' & Hg' & Hc' & Hn' & ->).
  destruct (exec_cmd_framed W i sub1 sub2 c s4 s5 H1 H2 Hstd4
              (spared_same s s4 Hg4 Hsp) Eh)
    as [(Hg5 & Hfk5 & Hk5f & Hk5b) Hstd5].
  set (n := Fd.lowest_free (fds s)) in *.
  set (ta := <[n := d0]> (fds s)) in *.
  set (n' := Fd.lowest_free ta) in *.
  set (tb := <[n' := d1]> ta) in *.
  destruct (std3_fresh (fds s) Hstd) as (Nn0 & Nn1 & Nn2). fold n in Nn0, Nn1, Nn2.
  assert (Hstda : std3 ta) by (by apply std3_insert).
  destruct (std3_fresh ta Hstda) as (Nn0' & Nn1' & Nn2').
  fold n' in Nn0', Nn1', Nn2'.
  destruct (file_redirections_keeps W c
              (wired (cout c) (pipenum s) (mypipes s) tb)) as (Hff & Hfb & _).
  rewrite <- Hf4 in Hff, Hfb.
  rewrite (discarded_same s s4 Hg4) in Hk5f.
  split; [done|]. split; [split_and!|].
  - eapply same_globals_trans; [exact Hg4|].
    eapply same_globals_trans; [exact Hg5|exact Hg'].
  - by eapply forked_at_most_one_shift.
  - intros fd d Hfd Ht.
    assert (Hfd0 : fd ∉ redirected (cout c))
      by (intros ?; apply Hfd; by apply elem_of_union_l).
    destruct (not_redirected_01 _ _ Hfd0) as [F0 F1].
    assert (Fn : fd ≠ n) by (by eapply FdFacts.lowest_free_fresh).
    assert (Hta : ta !! fd = Some d) by (subst ta; by rewrite lookup_insert_ne).
    assert (Fn' : fd ≠ n') by (by eapply FdFacts.lowest_free_fresh).
    assert (Htb : tb !! fd = Some d) by (subst tb; by rewrite lookup_insert_ne).
    pose proof (wired_fwd (cout c) (pipenum s) (mypipes s) tb fd d Hfd Htb)
      as Hw.
    pose proof (Hff fd d Hfd0 Hw) as H4.
    assert (H5 : fds s5 !! fd = Some d).
    { apply Hk5f; [|done]. intros [Hin|Hin]%elem_of_union.
      - by apply (not_redirected_Tnil (cout c) fd).
      - apply Hfd. by apply elem_of_union_r. }
    rewrite Hf'. unfold Fd.close. rewrite !lookup_delete_ne by done.
    unfold Fd.dup2.
    repeat (case_match; rewrite ?lookup_insert_ne by done); done.
  - intros fd d Hfd Hs'.
    destruct (not_redirected_01 _ _ Hfd) as [F0 F1].
    rewrite Hf' in Hs'. unfold Fd.close in Hs'.
    apply lookup_delete_Some in Hs' as [Fn' Hs'].
    apply lookup_delete_Some in Hs' as [Fn Hs'].
    apply (keeps_dup2_bwd (redirected (cout c)) n' 1) in Hs';
      [|apply redirected_01|done].
    apply (keeps_dup2_bwd (redirected (cout c)) n 0) in Hs';
      [|apply redirected_01|done].
    apply Hk5b in Hs'; [|by apply (not_redirected_Tnil (cout c))].
    apply Hfb in Hs'; [|done].
    apply wired_bwd in Hs'; [|done].
    subst tb ta. by rewrite !lookup_insert_ne in Hs'.
  - rewrite Hf'. apply std3_close; [done..|]. apply std3_close; [done..|].
    by apply std3_dup2, std3_dup2.
Qed.

(** Whenever [process_cmd] returns, in a process that has 0, 1 and 2 open
    and whose slots do not name them for closing: it returns 0, the
    globals are as they were, at most one process was forked, and the
    descriptors other than 0, 1 (and 2 for a redirection of the standard
    error) are as they were, but for the two that
    [perform_pipe_redirect] closes. *)
Lemma process_cmd_args_framed (W : world) (argv : list string) :
  ∀ na ci inf co outf last s r s',
    std3 (fds s) → spared s →
    process_cmd_args W argv na ci inf co outf last s = Ret r s' →
    r = 0 ∧ framed co s s' ∧ std3 (fds s').
Proof.
  induction argv as [|name rest IH1 IH2] using args_ind;
    intros na ci inf co outf last s r s' Hstd Hsp; [discriminate|].
  simpl.
  destruct (String.eqb name "end" && (processing_rc s =? 0)); [discriminate|].
  destruct (negb (is_builtin name =? -1)); [destruct last|].
  - apply (builtin_in_shell_framed W (is_builtin name) _ _
             (mkCmd (name :: rest) na ci inf co outf)); [| |done|done].
    + intros s0 r0 s0' Hs0 Hp0 E. by destruct (IH1 _ _ _ _ _ _ _ _ _ Hs0 Hp0 E).
    + intros s0 r0 s0' Hs0 Hp0 E. destruct rest as [|a rest2]; [discriminate|].
      by destruct (IH2 a rest2 eq_refl _ _ _ _ _ _ _ _ _ Hs0 Hp0 E).
  - intros Heq. simplify_eq.
    destruct (fork_framed W co (name :: rest)
                (builtin_child W (is_builtin name)
                   (process_cmd_args W rest (temp_nargs W) Tnil EmptyString
                      Tnil EmptyString (temp_next_null W))
                   match rest with
                   | [] => Crash
                   | _ :: rest2 =>
                       process_cmd_args W rest2 (temp_nargs W) Tnil
                         EmptyString Tnil EmptyString (temp_next_null W)
                   end (mkCmd (name :: rest) na ci inf co outf)) s)
      as [Hfr Hfd].
    split; [done|]. split; [done|]. by rewrite Hfd.
  - intros Heq. simplify_eq.
    destruct (fork_framed W co (name :: rest)
                (external_child W (mkCmd (name :: rest) na ci inf co outf)) s)
      as [Hfr Hfd].
    split; [done|]. split; [done|]. by rewrite Hfd.
Qed.

(** ** The last command run in the shell gives 0 and 1 back *)

Lemma dup2_lookup_new (oldfd newfd : Z) (t : gmap Z filedesc) (d : filedesc) :
  t !! oldfd = Some d → Fd.dup2 oldfd newfd t !! newfd = Some d.
Proof. intros H. unfold Fd.dup2. rewrite H. apply lookup_insert_eq. Qed.

Lemma dup2_lookup_ne (oldfd newfd fd : Z) (t : gmap Z filedesc) :
  fd ≠ newfd → Fd.dup2 oldfd newfd t !! fd = t !! fd.
Proof.
  intros H. unfold Fd.dup2. destruct (t !! oldfd); [|done].
  by rewrite lookup_insert_ne.
Qed.

Lemma close_lookup_ne (x fd : Z) (t : gmap Z filedesc) :
  fd ≠ x → Fd.close x t !! fd = t !! fd.
Proof. intros H. unfold Fd.close. by rewrite lookup_delete_ne. Qed.




(** ** One stage after the other, when every channel can be created *)


Lemma slot_set_slot_other (mp : (Z * Z) * (Z * Z)) (p : Z) (v : Z * Z) :
  slot (set_slot mp (c_not p) v) p = slot mp p ∧
  slot (set_slot mp (c_not p) v) (c_not (c_not p)) = slot mp p.
Proof. unfold slot, set_slot, c_not. by destruct (p =? 0). Qed.

Lemma close_stale_lookup (v : Z * Z) (s : proc) (x : Z) :
  x = 0 ∨ x ≠ v.1 → x = 1 ∨ x ≠ v.2 → v.1 ≠ 1 → v.2 ≠ 0 →
  fds (close_stale v s) !! x = fds s !! x.
Proof.
  intros H1 H2 N1 N2. unfold close_stale.
  destruct (Z.eqb_spec v.1 0) as [E1|E1], (Z.eqb_spec v.2 1) as [E2|E2];
    simpl; rewrite ?close_lookup_ne; try done; lia.
Qed.

Lemma close_stale_rest (v : Z * Z) (s : proc) :
  mypipes (close_stale v s) = mypipes s ∧
  pipenum (close_stale v s) = pipenum s ∧
  npipe (close_stale v s) = npipe s.
Proof.
  unfold close_stale.
  by destruct (negb (v.1 =? 0)), (negb (v.2 =? 1)).
Qed.

Lemma pipe_lookup (n : nat) (t : gmap Z filedesc) :
  let r := (Fd.pipe n t).1.1 in
  let w := (Fd.pipe n t).1.2 in
  (Fd.pipe n t).2 !! r = Some (PipeR n) ∧
  (Fd.pipe n t).2 !! w = Some (PipeW n) ∧
  r ≠ w ∧ 0 ≤ r ∧ 0 ≤ w ∧
  (∀ x d, t !! x = Some d →
          x ≠ r ∧ x ≠ w ∧ (Fd.pipe n t).2 !! x = Some d).
Proof.
  unfold Fd.pipe. simpl.
  set (r := Fd.lowest_free t).
  set (t1 := <[r := PipeR n]> t).
  set (w := Fd.lowest_free t1).
  destruct (FdFacts.lowest_free_spec t) as [Hr0 Hrf]. fold r in Hr0, Hrf.
  destruct (FdFacts.lowest_free_spec t1) as [Hw0 Hwf]. fold w in Hw0, Hwf.
  assert (Hrw : r ≠ w).
  { intros E. rewrite <- E in Hwf. subst t1.
    by rewrite lookup_insert_eq in Hwf. }
  split_and!; try done.
  - rewrite lookup_insert_ne by done. subst t1. apply lookup_insert_eq.
  - apply lookup_insert_eq.
  - intros x d Hx.
    assert (x ≠ r) by (intros ->; congruence).
    assert (Hx1 : t1 !! x = Some d)
      by (subst t1; by rewrite lookup_insert_ne).
    assert (x ≠ w) by (intros ->; congruence).
    split_and!; try done. by rewrite lookup_insert_ne.
Qed.

Lemma std_not_pipe (t : gmap Z filedesc) (x : Z) (d : filedesc) (k : nat) :
  (∀ x d, x = 0 ∨ x = 1 ∨ x = 2 → t !! x = Some d → Fd.chan_of d = None) →
  t !! x = Some d → Fd.chan_of d = Some k → x ≠ 0 ∧ x ≠ 1 ∧ x ≠ 2.
Proof.
  intros H Hx Hk.
  assert (Hn : ¬ (x = 0 ∨ x = 1 ∨ x = 2)).
  { intros Hin. rewrite (H x d Hin Hx) in Hk. discriminate. }
  tauto.
Qed.

Lemma next_stage_linked (W : world) (last : bool) (src : filedesc) (s : proc) :
  linked src s →
  (last = false → pipe_ok W (npipe s) = true) →
  at_stage src last (next_stage W last s) ∧
  fds (next_stage W last s) !! 0 = fds s !! 0 ∧
  fds (next_stage W last s) !! 1 = fds s !! 1 ∧
  fds (next_stage W last s) !! 2 = fds s !! 2.
Proof.
  intros (Hstd & Hnp & (O1 & O2 & O3 & O4 & O5) & Hsrc & Hcur) Hok.
  unfold next_stage.
  set (p := pipenum s) in *. set (q := c_not p) in *.
  set (mp := mypipes s) in *.
  set (s1 := set_pipenum q s).
  change (pipenum s1) with q. change (mypipes s1) with mp.
  set (old := slot mp q) in *. set (cur := slot mp p) in *.
  destruct (close_stale_rest old s1) as (Hm2 & Hp2 & Hn2).
  assert (Hlk : ∀ x, x = 0 ∨ x ≠ old.1 → x = 1 ∨ x ≠ old.2 →
                     fds (close_stale old s1) !! x = fds s !! x)
    by (intros x A B; change (fds s) with (fds s1);
        by apply close_stale_lookup).
  change (mypipes s1) with mp in Hm2. change (pipenum s1) with q in Hp2.
  change (npipe s1) with (npipe s) in Hn2.
  set (s2 := close_stale old s1) in *. clearbody s2. clear s1.
  assert (L0 : fds s2 !! 0 = fds s !! 0) by (apply Hlk; [by left|by right]).
  assert (L1 : fds s2 !! 1 = fds s !! 1) by (apply Hlk; by right).
  assert (L2 : fds s2 !! 2 = fds s !! 2) by (apply Hlk; by right).
  assert (Hstd2 : std3 (fds s2)) by (unfold std3; by rewrite L0, L1, L2).
  assert (Hnp2 : ∀ x d, x = 0 ∨ x = 1 ∨ x = 2 → fds s2 !! x = Some d →
                        Fd.chan_of d = None).
  { intros x d Hx Hd. apply (Hnp x d Hx).
    destruct Hx as [->|[->| ->]]; congruence. }
  assert (Hprev : fds s2 !! cur.1 = Some src ∧
                  (cur.2 ≠ 0 ∧ cur.2 ≠ 1 ∧ cur.2 ≠ 2) ∧
                  (cur.1 ≠ 1 ∧ cur.1 ≠ 2) ∧
                  (cur.2 < 0 ∨ is_Some (fds s2 !! cur.2))).
  { destruct Hcur as [[Ec Eo]|(k & -> & Hw & Nr & Nw)].
    - rewrite Ec. simpl. split_and!; try done; [|by left].
      rewrite L0. by rewrite Ec in Hsrc.
    - destruct (std_not_pipe _ _ _ k Hnp Hsrc eq_refl) as (R0 & R1 & R2).
      destruct (std_not_pipe _ _ _ k Hnp Hw eq_refl) as (W0 & W1 & W2).
      unfold in_slot in Nr, Nw.
      split_and!; try done.
      + rewrite Hlk; [done|right; tauto|right; tauto].
      + right. rewrite Hlk; [eauto|right; tauto|right; tauto]. }
  destruct Hprev as (Hsrc2 & (C0 & C1 & C2) & (R1 & R2) & Hw2).
  unfold at_stage. destruct last.
  - cbn [fds mypipes pipenum set_mypipes].
    rewrite Hm2, Hp2, slot_set_slot, set_slot_set_slot. cbn [fst snd].
    unfold q. rewrite (proj2 (slot_set_slot_other mp p _)), slot_set_slot.
    fold cur. split_and!; done.
  - unfold sys_pipe. rewrite Hn2, (Hok eq_refl).
    cbn [fds mypipes pipenum set_mypipes set_fds set_npipe].
    rewrite Hm2, Hp2. unfold q.
    rewrite (proj2 (slot_set_slot_other mp p _)), slot_set_slot. fold cur.
    destruct (pipe_lookup (npipe s) (fds s2))
      as (Pr & Pw & Prw & Pr0 & Pw0 & Pold).
    set (r' := (Fd.pipe (npipe s) (fds s2)).1.1) in *.
    set (w' := (Fd.pipe (npipe s) (fds s2)).1.2) in *.
    set (t3 := (Fd.pipe (npipe s) (fds s2)).2) in *.
    change ((Fd.pipe (npipe s) (fds s2)).1) with (r', w').
    destruct Hstd2 as ([d0 E0] & [d1 E1] & [d2 E2]).
    destruct (Pold 0 d0 E0) as (A0 & B0 & T0).
    destruct (Pold 1 d1 E1) as (A1 & B1 & T1).
    destruct (Pold 2 d2 E2) as (A2 & B2 & T2).
    destruct (Pold _ _ Hsrc2) as (As & Bs & Ts).
    assert (Hstd3 : std3 t3) by (unfold std3; rewrite T0, T1, T2; eauto).
    assert (Hnp3 : ∀ x d, x = 0 ∨ x = 1 ∨ x = 2 → t3 !! x = Some d →
                          Fd.chan_of d = None).
    { intros x d Hx Hd. apply (Hnp2 x d Hx).
      destruct Hx as [->|[->| ->]]; congruence. }
    assert (Hw3 : cur.2 < 0 ∨ is_Some (t3 !! cur.2)).
    { destruct Hw2 as [?|[dw Hdw]]; [by left|right].
      destruct (Pold _ _ Hdw) as (_ & _ & ->). eauto. }
    assert (Nw' : w' ≠ cur.2 ∧ r' ≠ cur.2).
    { destruct Hw2 as [?|[dw Hdw]]; [lia|].
      destruct (Pold _ _ Hdw) as (? & ? & _). done. }
    split_and!; try done; try congruence.
    exists (npipe s). cbn [fst snd].
    split_and!; try done; try (symmetry; done); try tauto.
    unfold linked. cbn [fds mypipes pipenum set_mypipes set_fds set_npipe].
    rewrite ?Hm2, ?Hp2. unfold q.
    rewrite (proj2 (slot_set_slot_other mp p _)), slot_set_slot.
    fold cur. cbn [fst snd].
    split_and!; try done.
    right. exists (npipe s). unfold in_slot.
    split_and!; try done; intros [?|?]; try done;
      destruct Nw'; congruence.
Qed.

(** At the call of [process_cmd] the wiring is as the invariant says. *)
Lemma at_stage_wiring (src : filedesc) (last : bool) (s : proc) (c : Cmd) :
  at_stage src last s →
  let w := mkWiring (pipenum s) (mypipes s) (fds s) in
  input_source c w = Some src ∧
  input_source c w = not_current_read w ∧
  output_sink c w = current_write w ∧
  if last then output_sink c w = fds s !! 1
  else ∃ k, output_sink c w = Some (PipeW k) ∧ linked (PipeR k) s.
Proof.
  intros (Hstd & Hnp & Hsrc & (P0 & P1 & P2) & Hpw & Hcur).
  unfold input_source, output_sink, not_current_read, current_write, wired.
  cbn [w_pipenum w_mypipes w_fds].
  set (prev := slot (mypipes s) (c_not (pipenum s))) in *.
  set (cur := slot (mypipes s) (pipenum s)) in *.
  set (t2 := Fd.close prev.2 (Fd.dup2 prev.1 0 (fds s))).
  assert (H20 : t2 !! 0 = Some src).
  { subst t2. rewrite close_lookup_ne by done. by apply dup2_lookup_new. }
  assert (H2x : ∀ x, x ≠ 0 → x ≠ prev.2 → t2 !! x = fds s !! x).
  { intros x X0 Xp. subst t2. rewrite close_lookup_ne by done.
    by rewrite dup2_lookup_ne. }
  assert (Hc : cur.1 ≠ 0 ∧ cur.1 ≠ 1 ∧ cur.2 ≠ 0 ∧ cur.2 ≠ prev.2 ∧
               is_Some (fds s !! cur.2)).
  { destruct last.
    - rewrite Hcur. simpl. split_and!; try done.
      destruct Hstd as (_ & ? & _). done.
    - destruct Hcur as (k & _ & Hw & ? & ? & ?). split_and!; try tauto.
      eauto. }
  destruct Hc as (C10 & C11 & C20 & C2p & [snk Hsnk]).
  assert (H3 : ∀ t', (if decide (cout c = TpipeErr)
                      then Fd.dup2 cur.2 2 t' else t') !! 0 = t' !! 0 ∧
                     (if decide (cout c = TpipeErr)
                      then Fd.dup2 cur.2 2 t' else t') !! 1 = t' !! 1).
  { intros t'. case_decide; [|done]. by rewrite !dup2_lookup_ne. }
  rewrite (proj1 (H3 _)), (proj2 (H3 _)).
  rewrite !close_lookup_ne by done.
  rewrite dup2_lookup_ne by done.
  rewrite (dup2_lookup_new cur.2 1 t2 snk) by (by rewrite H2x).
  rewrite H20, Hsrc, Hsnk. split_and!; try done.
  destruct last.
  - rewrite Hcur in Hsnk. simpl in Hsnk. by rewrite Hsnk.
  - destruct Hcur as (k & Hl & Hw & _). exists k. split; [congruence|done].
Qed.

Lemma linked_same (src : filedesc) (s s' : proc) :
  fds s' = fds s → mypipes s' = mypipes s → pipenum s' = pipenum s →
  linked src s → linked src s'.
Proof. unfold linked. intros -> -> ->. done. Qed.

Lemma state_of_last_bind (W : world) (o : outcome Z) (n : Z) :
  state_of (bind o (λ ret s0, if ret <? 0 then Ret n s0
                              else command_loop W [] n s0))
  = state_of o.
Proof. destruct o as [ret s2| |]; simpl; [|done|done]. by destruct (ret <? 0). Qed.

Lemma command_loop_chain (W : world) (stdout : filedesc) (cs : list Cmd) :
  (∀ n, pipe_ok W n = true) →
  ∀ (n : Z) (s : proc) (src : filedesc),
    linked src s → fds s !! 1 = Some stdout →
    ∃ ws, stages (state_of (command_loop W cs n s)) = stages s ++ ws ∧
          wiring_chain src stdout cs ws.
Proof.
  intros Hok. induction cs as [|c next IH]; intros n s src Hl H1.
  - exists []. simpl. by rewrite app_nil_r.
  - cbn [command_loop].
    set (last := match next with [] => true | _ => false end).
    destruct (next_stage_linked W last src s Hl (λ _, Hok _))
      as (Hat & _ & L1 & _).
    set (s1 := next_stage W last s) in *.
    assert (Hst1 : stages s1 = stages s).
    { subst s1. unfold next_stage, sys_pipe, close_stale.
      repeat match goal with
             | |- context [if ?b then _ else _] => destruct b
             end; reflexivity. }
    clearbody s1.
    destruct (at_stage_wiring src last s1 c Hat) as (Hi & Hi' & Ho & Hlast).
    assert (Hlog : stages (log_stage s1)
                   = stages s ++ [mkWiring (pipenum s1) (mypipes s1) (fds s1)])
      by (simpl; by rewrite Hst1).
    destruct next as [|c' next'].
    + subst last. rewrite state_of_last_bind.
      destruct (shrinks_process_cmd W c true (log_stage s1)) as [-> _].
      eexists. split; [exact Hlog|]. simpl.
      split_and!; try done. congruence.
    + subst last.
      destruct Hlast as (k & Hk & Hlk).
      destruct (process_cmd_not_last W c (log_stage s1))
        as (Hf & Hm & Hp & _ & _ & Hs).
      destruct (process_cmd W c false (log_stage s1)) as [ret s2| |];
        simpl in *.
      * destruct (ret <? 0); cbn [state_of].
        -- eexists. split; [by rewrite Hs, Hst1|].
           simpl. split_and!; try done. exists k. done.
        -- destruct (IH (n + 1) s2 (PipeR k)) as (ws & Hws & Hch).
           { by apply (linked_same _ s1). }
           { rewrite Hf. congruence. }
           exists (mkWiring (pipenum s1) (mypipes s1) (fds s1) :: ws).
           split; [rewrite Hws, Hs, Hst1, <- app_assoc; done|].
           simpl. split_and!; try done. exists k. done.
      * eexists. split; [by rewrite Hs, Hst1|].
        simpl. split_and!; try done. exists k. done.
      * eexists. split; [by rewrite Hs, Hst1|].
        simpl. split_and!; try done. exists k. done.
Qed.

(** ** Every command of the pipe is set up *)

(** [process_cmd] has one return statement: return 0. *)
Lemma process_cmd_returns_0 (W : world) (c : Cmd) (last : bool)
  (s s' : proc) (r : Z) :
  process_cmd W c last s = Ret r s' → r = 0.
Proof.
  unfold process_cmd. destruct (args c) as [|name rest]; [discriminate|].
  simpl.
  destruct (String.eqb name "end" && (processing_rc s =? 0)); [discriminate|].
  destruct (negb (is_builtin name =? -1)); [destruct last|];
    [|intros H; by simplify_eq..].
  unfold builtin_in_shell.
  destruct (perform_io_redirect W _ _) as [[] s4| |]; simpl; [|discriminate..].
  destruct (exec_cmd W _ _ _ _ s4) as [[] s5| |]; simpl; [|discriminate..].
  intros H. by simplify_eq.
Qed.

Lemma stages_next_stage (W : world) (last : bool) (s : proc) :
  stages (next_stage W last s) = stages s.
Proof.
  unfold next_stage, sys_pipe, close_stale.
  repeat match goal with
         | |- context [if ?b then _ else _] => destruct b
         end; reflexivity.
Qed.

(** When the loop of [process_pipe] is left by its end, [process_cmd] was
    called for every command of the pipe and [no_of_child] was incremented
    as many times, whatever pipe and fork answered. *)
Lemma command_loop_Ret (W : world) (cs : list Cmd) :
  ∀ (n n' : Z) (s s' : proc),
    command_loop W cs n s = Ret n' s' →
    n' = n + Z.of_nat (length cs) ∧
    length (stages s') = (length (stages s) + length cs)%nat.
Proof.
  induction cs as [|c next IH]; intros n n' s s'.
  - simpl. intros H. simplify_eq. split; [lia|]. lia.
  - cbn [command_loop].
    set (last := match next with [] => true | _ => false end).
    pose proof (stages_next_stage W last s) as Hst.
    set (s1 := next_stage W last s) in *. clearbody s1.
    destruct (shrinks_process_cmd W c last (log_stage s1)) as [Hs _].
    destruct (process_cmd W c last (log_stage s1)) as [ret s2| |] eqn:E;
      simpl; [|discriminate..].
    rewrite (process_cmd_returns_0 W c last _ _ _ E).
    change (0 <? 0) with false. cbv iota. intros H.
    destruct (IH _ _ _ _ H) as [-> Hlen]. simpl in Hs.
    rewrite Hlen, Hs, length_app, Hst, !length_cons. simpl. split; lia.
Qed.

(** ** The wiring invariant *)

Lemma ready3_linked (s : proc) (stdin : filedesc) :
  ready3 s → fds s !! 0 = Some stdin →
  linked stdin
    (set_mypipes (set_slot (-1, -1, (-1, -1)) 0 (0, -1))
       (set_mypipes (-1, -1, (-1, -1)) (set_pipenum 0 s))).
Proof.
  intros [(H0 & H1 & Hch & _) H2] Hin. unfold linked.
  cbn [fds mypipes pipenum set_mypipes set_pipenum].
  pose proof (proj1 (chan_of_None_channels (fds s)) Hch) as Hnone.
  split_and!; try done.
  - intros x d _ Hx. by apply (Hnone x d).
  - left. done.
Qed.

Lemma ready3_demo_shell : ready3 Demo.shell.
Proof. split; [exact ready_demo_shell|by eexists]. Qed.

(** The three wirings of [ls | grep main | wc], computed. *)
Example ls_grep_wc_wirings :
  ∃ wa wb wc s' n,
    launch_pipe Demo.calm Demo.ls_grep_wc Demo.shell = Ret n s' ∧
    stages s' = [wa; wb; wc] ∧
    output_sink (Demo.cmd ["ls"] Tpipe) wa = Some (PipeW 0) ∧
    input_source (Demo.cmd ["grep"; "main"] Tpipe) wb = Some (PipeR 0) ∧
    output_sink (Demo.cmd ["grep"; "main"] Tpipe) wb = Some (PipeW 1) ∧
    input_source (Demo.cmd ["wc"] Tnil) wc = Some (PipeR 1) ∧
    output_sink (Demo.cmd ["wc"] Tnil) wc = Some (Std 1).
Proof.
  do 5 eexists. split; [by vm_compute|]. split; [reflexivity|].
  split_and!; by vm_compute.
Qed.

(** ** Nothing of the pipe is left open *)




(** A pipe that ends in a built-in, run in the shell with its input taken
    from the channel: afterwards the shell has its own three descriptors
    and nothing else. *)
Example ls_echo_leaves_nothing :
  ∃ n s',
    launch_pipe Demo.calm
      [Demo.cmd ["ls"] Tpipe; Demo.cmd ["echo"; "hi"] Tnil] Demo.shell
    = Ret n s' ∧
    fds (close_all s') = std_table.
Proof.
  eexists _, _. split; [vm_compute; reflexivity|].
  vm_compute. reflexivity.
Qed.


(** ** Children and waits *)

Lemma forked_some_refl (s s' : proc) :
  (nfork s ≤ nfork s')%nat → children s' = children s → forked_some 0 s s'.
Proof.
  intros Hn Hc. split; [lia|]. exists []. rewrite app_nil_r.
  split_and!; [done|simpl; lia|constructor|]. intros k Hk. inversion Hk.
Qed.

Lemma forked_some_trans (m1 m2 : nat) (s1 s2 s3 : proc) :
  forked_some m1 s1 s2 → forked_some m2 s2 s3 →
  forked_some (m1 + m2) s1 s3.
Proof.
  intros (Hn1 & L1 & E1 & Hl1 & Hd1 & Hp1) (Hn2 & L2 & E2 & Hl2 & Hd2 & Hp2).
  split; [lia|]. exists (L1 ++ L2). split_and!.
  - by rewrite E2, E1, <- app_assoc.
  - rewrite length_app. lia.
  - rewrite map_app. apply NoDup_app. split_and!; [done| |done].
    intros pid (k1 & -> & Hk1)%list_elem_of_fmap (k2 & E & Hk2)%list_elem_of_fmap.
    specialize (Hp1 k1 Hk1). specialize (Hp2 k2 Hk2). lia.
  - intros k [Hk|Hk]%elem_of_app.
    + specialize (Hp1 k Hk). lia.
    + specialize (Hp2 k Hk). lia.
Qed.

Lemma forked_some_mono (m m' : nat) (s s' : proc) :
  (m ≤ m')%nat → forked_some m s s' → forked_some m' s s'.
Proof.
  intros Hm (Hn & L & E & Hl & Hd & Hp). split; [done|].
  exists L. split_and!; try done. lia.
Qed.

Lemma fork_forked_some (W : world) (argv : list string)
  (body : proc → outcome ending) (s : proc) :
  forked_some 1 s (fork W argv body s).
Proof.
  unfold fork. destruct (fork_ok W (nfork s)); simpl.
  - split; [simpl; lia|]. eexists. split; [reflexivity|].
    split_and!; [simpl; lia|apply NoDup_singleton|].
    intros k Hk. apply list_elem_of_singleton in Hk. subst k.
    destruct (body (forked s)); simpl; lia.
  - apply (forked_some_mono 0); [lia|]. apply forked_some_refl; simpl; [lia|done].
Qed.

(** The redirections fork nothing. *)
Lemma perform_io_redirect_family (W : world) (c : Cmd) (s s' : proc) :
  perform_io_redirect W c s = Ret tt s' →
  nfork s' = nfork s ∧ children s' = children s.
Proof.
  unfold perform_io_redirect, redirect_output.
  case_decide; [destruct (can_read W (infile c))|]; simpl;
    try discriminate;
    destruct (cout c), (can_write W (outfile c)); simpl;
    intros Heq; by simplify_eq.
Qed.

Lemma exec_cmd_forks (W : world) (i : Z) (sub1 sub2 : proc → outcome Z)
  (c : Cmd) (s s' : proc) :
  (∀ s0 r s0', sub1 s0 = Ret r s0' → forked_some 1 s0 s0') →
  (∀ s0 r s0', sub2 s0 = Ret r s0' → forked_some 1 s0 s0') →
  exec_cmd W i sub1 sub2 c s = Ret tt s' →
  forked_some 1 s s'.
Proof.
  intros H1 H2. unfold exec_cmd.
  destruct (i =? 1); [|destruct (i =? 2); [|destruct (i =? 3)]].
  - unfold exec_echo. rewrite echo_loop_eq. simpl. intros Heq.
    simplify_eq. apply (forked_some_mono 0); [lia|].
    destruct (_ =? 1); (apply forked_some_refl; simpl; [lia|done]).
  - discriminate.
  - unfold exec_nice. destruct (nice_plan c) as [[p cmd]|]; [|discriminate].
    destruct cmd; simpl.
    + intros Heq. simplify_eq. apply (forked_some_mono 0); [lia|].
      apply forked_some_refl; simpl; [lia|done].
    + destruct (sub1 (setpriority p s)) as [r s1| |] eqn:E; simpl;
        [|discriminate..]. intros Heq. simplify_eq.
      exact (H1 (setpriority p s) _ _ E).
    + destruct (sub2 (setpriority p s)) as [r s1| |] eqn:E; simpl;
        [|discriminate..]. intros Heq. simplify_eq.
      exact (H2 (setpriority p s) _ _ E).
  - unfold exec_environment.
    destruct (environment_builtin W i (args c)) as [lines|]; [|discriminate].
    rewrite printf_lines_eq. intros Heq. simplify_eq.
    apply (forked_some_mono 0); [lia|]. apply forked_some_refl; simpl; [lia|done].
Qed.

Lemma builtin_in_shell_forks (W : world) (i : Z)
  (sub1 sub2 : proc → outcome Z) (c : Cmd) (s s' : proc) (r : Z) :
  (∀ s0 r s0', sub1 s0 = Ret r s0' → forked_some 1 s0 s0') →
  (∀ s0 r s0', sub2 s0 = Ret r s0' → forked_some 1 s0 s0') →
  builtin_in_shell W i sub1 sub2 c s = Ret r s' →
  forked_some 1 s s'.
Proof.
  intros H1 H2. unfold builtin_in_shell.
  destruct (perform_io_redirect W c _) as [[] s4| |] eqn:Eio; simpl;
    [|discriminate..].
  destruct (perform_io_redirect_family W c _ s4 Eio) as [Hn4 Hc4].
  destruct (perform_pipe_redirect_rest c (sys_dup 1 (sys_dup 0 s).2).2)
    as (_ & Hc3 & Hn3 & _).
  destruct (exec_cmd W i sub1 sub2 c s4) as [[] s5| |] eqn:Eh; simpl;
    [|discriminate..].
  intros Heq. simplify_eq.
  pose proof (exec_cmd_forks W i sub1 sub2 c s4 s5 H1 H2 Eh) as Hf.
  destruct Hf as (Hn & L & E & Hl & Hd & Hp). split; [simpl in *; lia|].
  exists L. simpl in *. split_and!; try done.
  - rewrite E. f_equal. congruence.
  - intros k Hk. specialize (Hp k Hk). lia.
Qed.

Lemma process_cmd_args_forks (W : world) (argv : list string) :
  ∀ na ci inf co outf last s r s',
    process_cmd_args W argv na ci inf co outf last s = Ret r s' →
    forked_some 1 s s'.
Proof.
  induction argv as [|name rest IH1 IH2] using args_ind;
    intros na ci inf co outf last s r s'; [discriminate|].
  simpl.
  destruct (String.eqb name "end" && (processing_rc s =? 0)); [discriminate|].
  destruct (negb (is_builtin name =? -1)); [destruct last|].
  - apply builtin_in_shell_forks.
    + intros s0 r0 s0' E. by eapply IH1.
    + intros s0 r0 s0' E. destruct rest as [|a rest2]; [discriminate|].
      by eapply (IH2 a rest2).
  - intros Heq. simplify_eq. apply fork_forked_some.
  - intros Heq. simplify_eq. apply fork_forked_some.
Qed.

Lemma next_stage_family (W : world) (last : bool) (s : proc) :
  nfork (log_stage (next_stage W last s)) = nfork s ∧
  children (log_stage (next_stage W last s)) = children s.
Proof.
  unfold next_stage, sys_pipe, close_stale.
  repeat match goal with
         | |- context [if ?b then _ else _] => destruct b
         end; done.
Qed.

Lemma command_loop_forks (W : world) (cs : list Cmd) :
  ∀ (n n' : Z) (s s' : proc),
    command_loop W cs n s = Ret n' s' →
    forked_some (length cs) s s'.
Proof.
  induction cs as [|c next IH]; intros n n' s s'.
  - simpl. intros H. simplify_eq. apply forked_some_refl; simpl; [lia|done].
  - cbn [command_loop].
    set (last := match next with [] => true | _ => false end).
    destruct (next_stage_family W last s) as [Hn Hc].
    set (s1 := log_stage (next_stage W last s)) in *. clearbody s1.
    destruct (process_cmd W c last s1) as [ret s2| |] eqn:E; cbn [bind];
      [|discriminate..].
    rewrite (process_cmd_returns_0 W c last _ _ _ E).
    change (0 <? 0) with false. cbv iota. intros H.
    pose proof (process_cmd_args_forks W _ _ _ _ _ _ _ _ _ _ E) as F1.
    pose proof (IH _ _ _ _ H) as F2.
    pose proof (forked_some_trans _ _ _ _ _ F1 F2) as F.
    destruct F as (Hle & L & EL & Hl & Hd & Hp).
    split; [lia|]. exists L. rewrite <- Hc. split_and!; try done.
    intros k Hk. specialize (Hp k Hk). lia.
Qed.

Lemma close_all_family (s : proc) :
  children (close_all s) = children s ∧ waits (close_all s) = waits s ∧
  reaped (close_all s) = reaped s.
Proof.
  unfold close_all, close_stale.
  repeat match goal with
         | |- context [if ?b then _ else _] => destruct b
         end; done.
Qed.

(** The loop of waits: with at least as many rounds as there are children,
    it calls wait once a round and reaps every child once. *)
Lemma wait_loop_reaps (W : world) (n : nat) :
  ∀ s : proc,
    (length (children s) ≤ n)%nat →
    waits (wait_loop W n s) = (waits s + n)%nat ∧
    children (wait_loop W n s) = [] ∧
    reaped (wait_loop W n s) = reaped s ++ map ch_pid (children s).
Proof.
  induction n as [|n IH]; intros s Hlen.
  - simpl. destruct (children s); [|simpl in Hlen; lia].
    rewrite app_nil_r. split_and!; [lia|done|done].
  - cbn [wait_loop]. rewrite WEXITSTATUS_not_minus_one.
    destruct (IH (wait s)) as (Hw & Hc & Hr).
    { simpl. destruct (children s); simpl in *; lia. }
    rewrite Hw, Hc, Hr. split_and!; [simpl; lia|done|].
    simpl. destruct (children s); simpl; [by rewrite !app_nil_r|].
    by rewrite <- app_assoc.
Qed.

Lemma next_stage_unwaited (W : world) (last : bool) (s : proc) :
  waits (log_stage (next_stage W last s)) = waits s ∧
  reaped (log_stage (next_stage W last s)) = reaped s.
Proof.
  unfold next_stage, sys_pipe, close_stale.
  repeat match goal with
         | |- context [if ?b then _ else _] => destruct b
         end; done.
Qed.

(** Launching a pipe calls wait for nothing. *)
Lemma command_loop_unwaited (W : world) (cs : list Cmd) :
  ∀ (n : Z) (s : proc),
    waits (state_of (command_loop W cs n s)) = waits s ∧
    reaped (state_of (command_loop W cs n s)) = reaped s.
Proof.
  induction cs as [|c next IH]; intros n s; [done|].
  cbn [command_loop].
  set (last := match next with [] => true | _ => false end).
  destruct (next_stage_unwaited W last s) as [Hw Hr].
  set (s1 := log_stage (next_stage W last s)) in *. clearbody s1.
  destruct (shrinks_process_cmd W c last s1) as (_ & _ & (Hw2 & Hr2 & _) & _).
  destruct (process_cmd W c last s1) as [ret s2| |]; cbn [bind state_of] in *;
    [|split; congruence..].
  destruct (ret <? 0); cbn [state_of]; [split; congruence|].
  destruct (IH (n + 1) s2) as [-> ->]. split; congruence.
Qed.

(** C6, as the code has it: when the shell, without children, launches a
    pipe of N commands to the end, it has forked at most N processes
    itself, [no_of_child] is N, and [process_pipe] goes on to the next
    pipe only after the loop of waits has called wait exactly N times and
    reaped every process the shell has forked exactly once: the processes
    reaped are the processes forked, no process identifier comes twice,
    and no child is left.  What the commands are does not matter.  The
    processes a child forks itself are not among them. *)
Theorem waits_once_for_each (W : world) (p : Pipe) (next : list Pipe)
  (s s1 : proc) (n : Z) :
  children s = [] →
  launch_pipe W p s = Ret n s1 →
  ∃ s2 : proc,
    process_pipe W (p :: next) s = process_pipe W next s2 ∧
    n = Z.of_nat (length p) ∧
    (length (children s1) ≤ length p)%nat ∧
    NoDup (map ch_pid (children s1)) ∧
    waits s2 = (waits s + length p)%nat ∧
    reaped s2 = reaped s ++ map ch_pid (children s1) ∧
    children s2 = [].
Proof.
  intros Hnone Heq. pose proof Heq as Heq0. unfold launch_pipe in Heq.
  destruct (command_loop_Ret W p _ _ _ _ Heq) as [Hn _].
  destruct (command_loop_forks W p _ _ _ _ Heq) as (_ & L & EL & Hl & Hd & _).
  simpl in EL. rewrite Hnone in EL. simpl in EL.
  destruct (close_all_family s1) as (Hc & Hw & Hr).
  assert (Hn' : Z.to_nat n = length p)
    by (rewrite Hn, Z.add_0_l; apply Nat2Z.id).
  destruct (wait_loop_reaps W (Z.to_nat n) (close_all s1))
    as (Hw2 & Hc2 & Hr2).
  { rewrite Hc, EL, Hn'. done. }
  destruct (command_loop_unwaited W p 0
              (set_mypipes (set_slot (-1, -1, (-1, -1)) 0 (0, -1))
                 (set_mypipes (-1, -1, (-1, -1)) (set_pipenum 0 s))))
    as [Uw Ur].
  change (command_loop W p 0 _) with (launch_pipe W p s) in Uw, Ur.
  rewrite Heq0 in Uw, Ur. cbn [state_of] in Uw, Ur.
  exists (wait_loop W (Z.to_nat n) (close_all s1)).
  split; [cbn [process_pipe]; by rewrite Heq0|].
  rewrite Hw2, Hc2, Hr2, Hw, Hr, Hc, Hn', EL, Uw, Ur.
  split_and!; done.
Qed.

Lemma waits_once_for_each_witness :
  ∃ s1 s2,
    launch_pipe Demo.nosuch_missing
      [Demo.cmd ["ls"] Tpipe; Demo.cmd ["nosuch"] Tpipe; Demo.cmd ["wc"] Tnil]
      Demo.shell = Ret 3 s1 ∧
    map ch_end (children s1)
    = [Execed ["ls"]; Exited (-1); Execed ["wc"]] ∧
    process_pipe Demo.nosuch_missing
      [[Demo.cmd ["ls"] Tpipe; Demo.cmd ["nosuch"] Tpipe;
        Demo.cmd ["wc"] Tnil]] Demo.shell
    = process_pipe Demo.nosuch_missing [] s2 ∧
    waits s2 = 3%nat ∧ reaped s2 = [0; 1; 2]%nat ∧ children s2 = [].
Proof.
  assert (E : launch_pipe Demo.nosuch_missing
                [Demo.cmd ["ls"] Tpipe; Demo.cmd ["nosuch"] Tpipe;
                 Demo.cmd ["wc"] Tnil] Demo.shell
              = Ret 3 (state_of
                  (launch_pipe Demo.nosuch_missing
                     [Demo.cmd ["ls"] Tpipe; Demo.cmd ["nosuch"] Tpipe;
                      Demo.cmd ["wc"] Tnil] Demo.shell)))
    by (vm_compute; reflexivity).
  destruct (waits_once_for_each Demo.nosuch_missing
              [Demo.cmd ["ls"] Tpipe; Demo.cmd ["nosuch"] Tpipe;
               Demo.cmd ["wc"] Tnil] [] Demo.shell _ 3 eq_refl E)
    as (s2 & Hrun & _ & _ & _ & Hw & Hr & Hc).
  eexists _, s2. split; [exact E|]. split; [by vm_compute|].
  split; [exact Hrun|]. split; [exact Hw|]. split; [|exact Hc].
  rewrite Hr. by vm_compute.
Defined.

(** C6 as stated fails: in [ls | logout] the built-in is run in the shell
    and ends it; ls was forked and no wait was made. *)
Lemma logout_ends_the_shell_unwaited :
  ∃ s',
    process_pipe Demo.calm
      [[Demo.cmd ["ls"] Tpipe; Demo.cmd ["logout"] Tnil]] Demo.shell
    = Exit 0 s' ∧
    waits s' = 0%nat ∧ map ch_argv (children s') = [["ls"]].
Proof. eexists. split; [by vm_compute|]. split; by vm_compute. Qed.

(** The children of a child: in [nice ls | wc] the shell forks a process
    for nice and one for wc, and waits twice; the process for nice forks
    one for ls and exits without waiting for it.  Three processes for two
    commands, and nobody waits for ls. *)
Lemma nice_child_forks_unwaited :
  ∃ s1 s2 kid_nice kid_wc kid_ls,
    launch_pipe Demo.calm
      [Demo.cmd ["nice"; "ls"] Tpipe; Demo.cmd ["wc"] Tnil] Demo.shell
    = Ret 2 s1 ∧
    children s1 = [kid_nice; kid_wc] ∧
    ch_argv kid_nice = ["nice"; "ls"] ∧ ch_end kid_nice = Exited 0 ∧
    ch_forked kid_nice = [kid_ls] ∧
    ch_argv kid_ls = ["ls"] ∧ ch_end kid_ls = Execed ["ls"] ∧
    ch_forked kid_wc = [] ∧
    process_pipe Demo.calm
      [[Demo.cmd ["nice"; "ls"] Tpipe; Demo.cmd ["wc"] Tnil]] Demo.shell
    = Ret tt s2 ∧
    waits s2 = 2%nat ∧ reaped s2 = [ch_pid kid_nice; ch_pid kid_wc].
Proof.
  eexists _, _, _, _, _. split; [by vm_compute|].
  split; [reflexivity|]. split; [reflexivity|]. split; [reflexivity|].
  split; [reflexivity|]. split; [reflexivity|]. split; [reflexivity|].
  split; [reflexivity|]. split; [by vm_compute|]. split; by vm_compute.
Qed.

(** ** Failures of pipe and fork *)

(** C8, as the code has it: [process_pipe] leaves its loop when
    [process_cmd] returns a negative value, but [process_cmd] returns 0
    even when fork has failed, and the result of pipe is not looked at.
    In [ls | wc] with a fork that fails for ls, and in [ls | wc] with a
    pipe that fails, wc is set up and launched all the same. *)
Theorem setup_goes_on_after_failure :
  (∃ s',
     launch_pipe Demo.first_fork_fails
       [Demo.cmd ["ls"] Tpipe; Demo.cmd ["wc"] Tnil] Demo.shell = Ret 2 s' ∧
     length (stages s') = 2%nat ∧
     map ch_argv (children s') = [["wc"]]) ∧
  (∃ s',
     launch_pipe Demo.first_pipe_fails
       [Demo.cmd ["ls"] Tpipe; Demo.cmd ["wc"] Tnil] Demo.shell = Ret 2 s' ∧
     length (stages s') = 2%nat ∧
     map ch_argv (children s') = [["ls"]; ["wc"]]).
Proof.
  split; eexists; (split; [vm_compute; reflexivity|]);
    split; vm_compute; reflexivity.
Qed.

(** In general: whenever [process_cmd] returns it returns 0, so the loop
    is never left early. *)
Lemma loop_never_breaks (W : world) (p : Pipe) (s s' : proc) (n : Z) :
  launch_pipe W p s = Ret n s' →
  length (stages s') = (length (stages s) + length p)%nat.
Proof.
  intros H. unfold launch_pipe in H.
  by destruct (command_loop_Ret W p _ _ _ _ H) as [_ ->].
Qed.

(** ** The decision table of [process_cmd] *)

Lemma process_cmd_unfold (W : world) (c : Cmd) (name : string)
  (rest : list string) (last : bool) (s : proc) :
  args c = name :: rest →
  process_cmd W c last s =
  if String.eqb name "end" && (processing_rc s =? 0) then Exit 0 s
  else if negb (is_builtin name =? -1) then
    if last
    then builtin_in_shell W (is_builtin name) (nice_sub1 W rest)
           (nice_sub2 W rest) c s
    else Ret 0 (fork W (args c)
                  (builtin_child W (is_builtin name) (nice_sub1 W rest)
                     (nice_sub2 W rest) c) s)
  else Ret 0 (fork W (args c) (external_child W c) s).
Proof.
  destruct c as [argv na ci inf co outf]. simpl. intros ->. reflexivity.
Qed.

Lemma shrinks_nice_subs (W : world) (rest : list string) :
  (∀ s0, shrinks s0 (state_of (nice_sub1 W rest s0))) ∧
  (∀ s0, shrinks s0 (state_of (nice_sub2 W rest s0))).
Proof.
  split; intros s0.
  - apply shrinks_process_cmd.
  - destruct rest as [|a rest2]; [apply shrinks_refl|].
    apply shrinks_process_cmd.
Qed.

(** A child resets the three signals and keeps them so. *)
Lemma child_signals (W : world) (i : Z) (c : Cmd) (rest : list string)
  (k : proc) :
  sigs (state_of (builtin_child W i (nice_sub1 W rest) (nice_sub2 W rest) c k))
  = all_default ∧
  sigs (state_of (external_child W c k)) = all_default.
Proof.
  destruct (shrinks_nice_subs W rest) as [S1 S2].
  split.
  - assert (Hsh : shrinks (reset_signals k)
              (state_of (builtin_child W i (nice_sub1 W rest)
                           (nice_sub2 W rest) c k))).
    { unfold builtin_child. apply shrinks_bind.
      - eapply shrinks_trans; [apply shrinks_perform_pipe_redirect|].
        apply shrinks_perform_io_redirect.
      - intros _ k1 _. apply shrinks_bind; [by apply shrinks_exec_cmd|].
        intros _ k2 _. apply shrinks_refl. }
    by destruct Hsh as (_ & -> & _).
  - assert (Hsh : shrinks (reset_signals k) (state_of (external_child W c k))).
    { unfold external_child. apply shrinks_bind.
      - eapply shrinks_trans; [apply shrinks_perform_pipe_redirect|].
        apply shrinks_perform_io_redirect.
      - intros _ k1 _. destruct (execvp W (args c)); simpl;
          first [apply shrinks_refl | by apply shrinks_same]. }
    by destruct Hsh as (_ & -> & _).
Qed.

Lemma ch_sigs_child_of (pid : nat) (argv : list string) (o : outcome ending) :
  ch_sigs (child_of pid argv o) = sigs (state_of o).
Proof. by destruct o. Qed.

(** In a child, when the input file can be opened, the redirections
    return and leave the table of the launched command. *)
Lemma child_redirections (W : world) (c : Cmd) (s : proc) :
  std3 (fds s) → spared s →
  (cin c = Tin → can_read W (infile c) = true) →
  ∃ k4,
    perform_io_redirect W c
      (perform_pipe_redirect c (reset_signals (forked s))) = Ret tt k4 ∧
    fds k4 = launched_table W c s ∧ out k4 = [].
Proof.
  intros Hstd (N0 & N1 & N2) Hin.
  set (k1 := perform_pipe_redirect c (reset_signals (forked s))).
  assert (Hf1 : fds k1 = wired (cout c) (pipenum s) (mypipes s) (fds s))
    by (subst k1; by rewrite fds_perform_pipe_redirect).
  assert (Ho1 : out k1 = [])
    by (subst k1; by rewrite out_perform_pipe_redirect).
  assert (Hstd1 : std3 (fds k1)) by (rewrite Hf1; by apply wired_std3).
  clearbody k1.
  assert (Hret : ∃ k4, perform_io_redirect W c k1 = Ret tt k4).
  { unfold perform_io_redirect. case_decide as Hc.
    - rewrite (Hin Hc). simpl. eauto.
    - simpl. eauto. }
  destruct Hret as [k4 Hk4]. exists k4. split; [done|].
  destruct (perform_io_redirect_Ret W c k1 k4 Hstd1 Hk4)
    as (Hf4 & _ & _ & _ & Ho4 & _).
  unfold launched_table. rewrite Hf4, Hf1, Ho4. done.
Qed.

Lemma perform_io_redirect_returns (W : world) (c : Cmd) (s : proc) :
  (cin c = Tin → can_read W (infile c) = true) →
  ∃ s1,
    perform_io_redirect W c s = Ret tt s1 ∧
    prio s1 = prio s ∧ out s1 = out s ∧ children s1 = children s ∧
    nfork s1 = nfork s.
Proof.
  intros Hr. unfold perform_io_redirect, redirect_output.
  case_decide as Hin; [rewrite (Hr Hin)|]; cbn [bind];
    (eexists; split; [reflexivity|]);
    destruct (cout c), (can_write W (outfile c)); done.
Qed.


Lemma std3_demo_shell : std3 (fds Demo.shell) ∧ spared Demo.shell.
Proof.
  split.
  - unfold std3. split_and!; by eexists.
  - unfold spared, discarded. simpl. set_unfold. split_and!; intros [?|?]; lia.
Qed.



(** The built-in that is last runs in the shell: what echo prints is
    printed by the shell, and no process is forked. *)
Example echo_runs_in_the_shell :
  ∃ s',
    process_cmd Demo.calm (Demo.cmd ["echo"; "hi"] Tnil) true Demo.shell
    = Ret 0 s' ∧
    printed (out s') = "hi 
" ∧ children s' = [] ∧ nfork s' = 0%nat ∧ fds s' = std_table.
Proof.
  eexists. split; [vm_compute; reflexivity|].
  split_and!; vm_compute; reflexivity.
Qed.

(** * Further properties of main.c *)

(** ** The table of built-ins *)

Lemma is_builtin_from_spec (tbl : list string) (i : Z) (name : string) :
  0 ≤ i →
  (is_builtin_from tbl i name = -1 ∧ name ∉ tbl) ∨
  (∃ j : nat,
     is_builtin_from tbl i name = i + Z.of_nat j ∧
     tbl !! j = Some name ∧
     ∀ j' : nat, (j' < j)%nat → tbl !! j' ≠ Some name).
Proof.
  revert i. induction tbl as [|n tbl IH]; intros i Hi; simpl.
  - left. split; [done|]. apply not_elem_of_nil.
  - destruct (String.eqb_spec n name) as [->|Hne].
    + right. exists 0%nat. split_and!; [lia|done|]. intros j' Hj'. lia.
    + destruct (IH (i + 1)) as [[E Hnot]|(j & E & Hj & Hfirst)]; [lia| |].
      * left. split; [done|]. by apply not_elem_of_cons.
      * right. exists (S j). split_and!; [lia|done|].
        intros [|j'] Hj'; simpl; [congruence|]. apply Hfirst. lia.
Qed.

(** [is_builtin] gives -1 exactly for the names that are not in the table
    of built-ins, and otherwise the index of the name in the table, which
    is between 0 and 7. *)
Theorem is_builtin_lookup (name : string) :
  (is_builtin name = -1 ↔ name ∉ builtin_cmd_handle) ∧
  (name ∈ builtin_cmd_handle ↔
   0 ≤ is_builtin name < 8 ∧
   builtin_cmd_handle !! Z.to_nat (is_builtin name) = Some name).
Proof.
  unfold is_builtin.
  destruct (is_builtin_from_spec builtin_cmd_handle 0 name)
    as [[E Hnot]|(j & E & Hj & _)]; [lia| |].
  - rewrite E. split; [tauto|]. split; [done|]. intros [? _]. lia.
  - assert (Hin : name ∈ builtin_cmd_handle)
      by (apply list_elem_of_lookup; eauto).
    assert (Hlt : (j < 8)%nat) by (by apply lookup_lt_Some in Hj).
    rewrite E. split; [split; [lia|done]|].
    split; [|done]. intros _. split; [lia|].
    replace (Z.to_nat (0 + Z.of_nat j)) with j by lia. done.
Qed.

(** ** is_number *)

(** [is_number] answers 1 or 0, and 1 exactly for an optional '-' followed
    only by digits; so the empty word and a lone "-" count as numbers, and
    a word with a leading '+' does not. *)
Theorem is_number_decides (str : string) :
  (is_number str = 1 ∨ is_number str = 0) ∧
  (is_number str = 1 ↔ numeric_argument str) ∧
  (∀ rest, is_number (String "+"%char rest) = 0) ∧
  is_number EmptyString = 1 ∧ is_number "-" = 1.
Proof.
  split_and!; try reflexivity.
  - unfold is_number.
    destruct str as [|ch str];
      [by left|].
    destruct (only_digits_01 (String ch str)), (only_digits_01 str);
      destruct ch as [[] [] [] [] [] [] [] []]; tauto.
  - apply is_number_spec.
Qed.

(** ** nice *)

(** Whatever the command, when [exec_nice] gets as far as setpriority the
    priority is between -19 and 20; a command to run that starts at the
    first argument means the priority is 4 and that argument is no number;
    a command that starts at the second argument means there is one.  For
    a command as the parser builds it, [exec_nice] always gets that far. *)
Theorem nice_plan_sound (c : Cmd) :
  (∀ p cmd, nice_plan c = Some (p, cmd) →
     -19 ≤ p ≤ 20 ∧
     (cmd = FromArg1 →
      p = 4 ∧ ∃ a1, args c !! 1%nat = Some a1 ∧ is_number a1 ≠ 1) ∧
     (cmd = FromArg2 →
      is_Some (args c !! 2%nat) ∧
      ∃ a1, args c !! 1%nat = Some a1 ∧ is_number a1 = 1)) ∧
  (nargs c = Z.of_nat (length (args c)) → is_Some (nice_plan c)).
Proof.
  unfold nice_plan. split.
  - intros p cmd.
    destruct (nargs c >? 1); [|intros H; simplify_eq; by split_and!].
    destruct (args c !! 1%nat) as [a1|] eqn:E1; [|discriminate].
    destruct (Z.eqb_spec (is_number a1) 1) as [En|En].
    + rewrite clamp_as_in_source. intros H. simplify_eq.
      split; [unfold clamped; lia|]. split.
      * by destruct (args c !! 2%nat).
      * destruct (args c !! 2%nat); [|done]. eauto.
    + intros H. simplify_eq. split; [lia|]. split; [eauto|done].
  - intros Hn. destruct (Z.gtb_spec (nargs c) 1) as [Hgt|Hle]; [|eauto].
    destruct (args c !! 1%nat) as [a1|] eqn:E1.
    + destruct (is_number a1 =? 1); eauto.
    + apply lookup_ge_None in E1. lia.
Qed.

(** A witness of the bounds: nice 25 ls asks for 25 and gets 20. *)
Lemma nice_plan_sound_witness :
  nice_plan (Demo.cmd ["nice"; "25"; "ls"] Tnil) = Some (20, FromArg2) ∧
  -19 ≤ 20 ≤ 20.
Proof.
  split; [reflexivity|].
  apply (proj1 (nice_plan_sound (Demo.cmd ["nice"; "25"; "ls"] Tnil))
           20 FromArg2 eq_refl).
Defined.

(** ** where *)

Module WhereFacts.
Import Where.

Lemma app_cons (a : ascii) (s t : string) :
  String a s +:+ t = String a (s +:+ t).
Proof. reflexivity. Qed.

Lemma app_nil_l (t : string) : EmptyString +:+ t = t.
Proof. reflexivity. Qed.

Lemma app_nil_r (s : string) : s +:+ EmptyString = s.
Proof.
  induction s as [|a s IH]; [done|]. by rewrite app_cons, IH.
Qed.

Lemma app_assoc (s t u : string) : (s +:+ t) +:+ u = s +:+ (t +:+ u).
Proof.
  induction s as [|a s IH]; [done|]. by rewrite !app_cons, IH.
Qed.

Lemma length_app (s t : string) :
  String.length (s +:+ t) = (String.length s + String.length t)%nat.
Proof.
  induction s as [|a s IH]; [done|]. rewrite app_cons. simpl.
  by rewrite IH.
Qed.

Lemma land_S_IFDIR (m : Z) :
  Z.land m S_IFDIR = 0 ↔ Z.testbit m 14 = false.
Proof.
  change S_IFDIR with (2 ^ 14). split.
  - intros E. pose proof (Z.land_spec m (2 ^ 14) 14) as Hb.
    rewrite E, Z.bits_0, Z.pow2_bits_true in Hb by lia.
    symmetry in Hb. by apply andb_false_iff in Hb as [Hb|Hb].
  - intros Hb. apply Z.bits_inj'. intros n Hn.
    rewrite Z.land_spec, Z.bits_0, Z.pow2_bits_eqb by lia.
    destruct (Z.eqb_spec 14 n) as [<-|Hne].
    + by rewrite Hb.
    + apply andb_false_r.
Qed.

Lemma is_valid_cmd_1 (fs : fsys) (path : string) :
  is_valid_cmd fs path = 1 ↔
  access_x fs path = true ∧ Z.testbit (st_mode fs path) 14 = false.
Proof.
  unfold is_valid_cmd, is_dir. rewrite <- land_S_IFDIR.
  destruct (access_x fs path); simpl.
  - destruct (Z.eqb_spec (Z.land (st_mode fs path) S_IFDIR) 0);
      simpl; split; try done; intros [_ ?]; done.
  - split; [done|]. by intros [? _].
Qed.

Lemma fields_app (delim : ascii) (t rest acc : string) :
  delim ∉ list_ascii_of_string t →
  fields delim (t +:+ rest) acc = fields delim rest (acc +:+ t).
Proof.
  revert acc. induction t as [|a t IH]; intros acc Hno.
  - by rewrite app_nil_l, app_nil_r.
  - rewrite app_cons. simpl. simpl in Hno. apply not_elem_of_cons in Hno as [Hne Hno].
    destruct (Ascii.eqb_spec a delim) as [->|_]; [done|].
    rewrite IH by done. by rewrite app_assoc.
Qed.

Lemma fields_sane (delim : ascii) (str acc : string) :
  delim ∉ list_ascii_of_string acc →
  Forall (λ t, (delim ∉ list_ascii_of_string t) ∧
               (String.length t ≤ String.length acc + String.length str)%nat)
         (fields delim str acc).
Proof.
  revert acc. induction str as [|a str IH]; intros acc Hacc; simpl.
  - apply Forall_singleton. split; [done|lia].
  - destruct (Ascii.eqb_spec a delim) as [->|Hne].
    + apply Forall_cons. split; [split; [done|lia]|].
      eapply Forall_impl; [apply IH; simpl; apply not_elem_of_nil|].
      simpl. intros t [? ?]. split; [done|lia].
    + eapply Forall_impl; [apply IH|].
      * intros Hin. apply Hacc. clear -Hin Hne.
        induction acc as [|b acc IHacc].
        -- rewrite app_nil_l in Hin. simpl in Hin.
           apply list_elem_of_singleton in Hin. congruence.
        -- rewrite app_cons in Hin. simpl in *.
           apply elem_of_cons in Hin as [->|Hin]; [left|right; auto].
      * simpl. intros t [? Hlen]. split; [done|].
        rewrite length_app in Hlen. simpl in Hlen. lia.
Qed.

Lemma strtok_all_sane (delim : ascii) (str : string) :
  Forall (λ t, t ≠ EmptyString ∧ (delim ∉ list_ascii_of_string t) ∧
               (String.length t ≤ String.length str)%nat)
         (strtok_all delim str).
Proof.
  unfold strtok_all. apply Forall_forall. intros t Hin.
  apply list_elem_of_filter in Hin as [Hne Hin].
  pose proof (fields_sane delim str EmptyString) as Hs.
  rewrite Forall_forall in Hs.
  destruct (Hs (not_elem_of_nil _) t Hin) as [? ?]. simpl in *. done.
Qed.

Lemma where_loop_lines (fs : fsys) (name : string) (dirs : list string) :
  Forall (λ d, (String.length d + String.length name + 1 < PATH_MAX)%nat)
         dirs →
  where_loop fs name dirs =
  Some (map (λ d, d +:+ "/" +:+ name +:+ "
")
          (filter (λ d, access_x fs (d +:+ "/" +:+ name) = true ∧
                        Z.testbit (st_mode fs (d +:+ "/" +:+ name)) 14
                        = false) dirs)).
Proof.
  induction 1 as [|d dirs Hd _ IH]; [done|].
  cbn [where_loop]. rewrite IH.
  destruct (Nat.leb_spec PATH_MAX (String.length (d +:+ "/" +:+ name)))
    as [Hbig|_].
  { rewrite !length_app in Hbig. simpl in Hbig. lia. }
  rewrite filter_cons.
  pose proof (is_valid_cmd_1 fs (d +:+ "/" +:+ name)) as Hv.
  case_decide as Hok.
  - apply Hv in Hok. rewrite Hok. simpl. by rewrite !app_assoc.
  - destruct (Z.eqb_spec (is_valid_cmd fs (d +:+ "/" +:+ name)) 1) as [E|_];
      [tauto|done].
Qed.

End WhereFacts.

Import Where.

(** [is_valid_cmd] answers 1 or 0, and 1 exactly for a path that may be
    executed and whose mode has the directory bit (bit 14, S_IFDIR) clear;
    [is_dir] is not 0 exactly when that bit is set. *)
Theorem is_valid_cmd_decides (fs : fsys) (path : string) :
  (is_valid_cmd fs path = 1 ∨ is_valid_cmd fs path = 0) ∧
  (is_valid_cmd fs path = 1 ↔
   access_x fs path = true ∧ Z.testbit (st_mode fs path) 14 = false) ∧
  (is_dir fs path ≠ 0 ↔ Z.testbit (st_mode fs path) 14 = true).
Proof.
  split_and!.
  - unfold is_valid_cmd. destruct (_ || _); auto.
  - apply WhereFacts.is_valid_cmd_1.
  - unfold is_dir. rewrite WhereFacts.land_S_IFDIR.
    destruct (Z.testbit (st_mode fs path) 14); split; congruence.
Qed.

(** The directories [exec_where] searches are never empty and hold no
    delimiter: an empty entry of PATH (a leading, a final or a doubled
    colon) is skipped, and each directory is at most as long as PATH. *)
Theorem strtok_all_tokens (delim : ascii) (str t : string) :
  t ∈ strtok_all delim str →
  t ≠ EmptyString ∧ (delim ∉ list_ascii_of_string t) ∧
  (String.length t ≤ String.length str)%nat.
Proof.
  intros Hin. pose proof (WhereFacts.strtok_all_sane delim str) as Hs.
  rewrite Forall_forall in Hs. by apply Hs.
Qed.

Lemma strtok_all_tokens_witness :
  "/bin" ∈ strtok_all ":" ":/usr/bin::/bin:" ∧
  "/bin" ≠ EmptyString ∧ (":"%char ∉ list_ascii_of_string "/bin").
Proof.
  assert (Hin : "/bin" ∈ strtok_all ":" ":/usr/bin::/bin:")
    by (vm_compute; apply list_elem_of_further, list_elem_of_here).
  split; [exact Hin|].
  destruct (strtok_all_tokens ":" ":/usr/bin::/bin:" "/bin" Hin)
    as (? & ? & _).
  by split.
Defined.

(** Splitting undoes joining: a PATH written as directories that are not
    empty and hold no colon, joined by colons, is searched in exactly
    those directories, in that order. *)
Theorem strtok_all_join (delim : ascii) (ts : list string) :
  Forall (λ t, t ≠ EmptyString ∧ (delim ∉ list_ascii_of_string t)) ts →
  strtok_all delim (join_path delim ts) = ts.
Proof.
  unfold strtok_all. induction 1 as [|t ts [Hne Hno] Hts IH]; [done|].
  destruct ts as [|t' ts].
  - cbn [join_path].
    pose proof (WhereFacts.fields_app delim t EmptyString EmptyString Hno) as Hf.
    rewrite WhereFacts.app_nil_r, WhereFacts.app_nil_l in Hf. rewrite Hf. cbn [fields].
    rewrite filter_cons, decide_True by done. done.
  - change (join_path delim (t :: t' :: ts))
      with (t +:+ String delim (join_path delim (t' :: ts))).
    rewrite WhereFacts.fields_app by done. rewrite WhereFacts.app_nil_l.
    cbn [fields]. rewrite Ascii.eqb_refl.
    rewrite filter_cons, decide_True by done. by rewrite IH.
Qed.

Lemma strtok_all_join_witness :
  strtok_all ":" (join_path ":" ["/usr/bin"; "/bin"]) = ["/usr/bin"; "/bin"].
Proof.
  apply (strtok_all_join ":" ["/usr/bin"; "/bin"]).
  repeat (apply Forall_cons_2;
          [split; [discriminate|by apply (bool_decide_unpack _)]|]).
  apply Forall_nil_2.
Defined.

(** With an argument, and PATH set and short enough for the buffers,
    [exec_where] prints what the spec says: the name when it is a
    built-in, then each directory/name that can be executed and is no
    directory, in the order of PATH. *)
Theorem exec_where_refines (fs : fsys) (path name : string) (c : Cmd) :
  args c !! 1%nat = Some name →
  (String.length path + String.length name + 1 < PATH_MAX)%nat →
  exec_where fs (Some path) c = Some (known_instances fs name path).
Proof.
  intros Harg Hlen. unfold exec_where, known_instances. rewrite Harg.
  destruct (Nat.leb_spec PATH_MAX (String.length path)) as [Hbig|_]; [lia|].
  rewrite WhereFacts.where_loop_lines.
  - f_equal. f_equal.
    destruct (is_builtin_from_spec builtin_cmd_handle 0 name)
      as [[E Hnot]|(j & E & Hj & _)]; [lia| |]; unfold is_builtin; rewrite E.
    + by rewrite bool_decide_false.
    + rewrite bool_decide_true by (apply list_elem_of_lookup; eauto).
      destruct (Z.eqb_spec (0 + Z.of_nat j) (-1)); [lia|done].
  - eapply Forall_impl; [apply WhereFacts.strtok_all_sane|]. simpl.
    intros d (_ & _ & Hd). lia.
Qed.

Lemma exec_where_refines_witness :
  exec_where demo_fs (Some "/usr:/bin") (Demo.cmd ["where"; "ls"] Tnil)
  = Some ["/bin/ls
"].
Proof.
  rewrite (exec_where_refines demo_fs "/usr:/bin" "ls"
             (Demo.cmd ["where"; "ls"] Tnil) eq_refl);
    [reflexivity|vm_compute; lia].
Defined.


(** ** echo *)

(** Once the rc file is done ([processing_rc] is 0, and stdout is
    unbuffered), [exec_echo] always returns; it prints each argument
    followed by a space and then a newline, all to what descriptor 1 is
    bound to; without an argument it prints nothing, not even the newline;
    it changes nothing else of the process. *)
Theorem exec_echo_writes (s : proc) (c : Cmd) (name : string)
  (rest : list string) :
  args c = name :: rest →
  processing_rc s = 0 →
  ∃ s' : proc,
    exec_echo c s = Ret tt s' ∧
    out s' = out s ++
      match rest with
      | [] => []
      | _ :: _ => map (λ a, (fds s !! 1, a +:+ " ")) rest
                  ++ [(fds s !! 1, "
")]
      end ∧
    fds s' = fds s ∧ children s' = children s ∧ prio s' = prio s ∧
    hist s' = hist s.
Proof.
  intros Hargs _. unfold exec_echo. rewrite Hargs.
  change (tail (name :: rest)) with rest. rewrite echo_loop_eq.
  destruct rest as [|a rest].
  - eexists. split; [reflexivity|]. simpl. by rewrite app_nil_r.
  - assert (E : (1 + Z.of_nat (length (a :: rest)) =? 1) = false)
      by (rewrite length_cons; apply Z.eqb_neq; lia).
    cbn [fst snd]. rewrite E. eexists. split; [reflexivity|].
    rewrite out_printf. cbn [out fds set_out children prio hist].
    by rewrite <- app_assoc.
Qed.

Lemma exec_echo_writes_witness :
  ∃ s' : proc,
    exec_echo (Demo.cmd ["echo"; "hi"; "there"] Tnil) Demo.shell = Ret tt s' ∧
    out s' = [(Some (Std 1), "hi "); (Some (Std 1), "there ");
              (Some (Std 1), "
")].
Proof.
  destruct (exec_echo_writes Demo.shell
              (Demo.cmd ["echo"; "hi"; "there"] Tnil) "echo" ["hi"; "there"]
              eq_refl eq_refl) as (s' & Hrun & Hout & _).
  exists s'. split; [exact Hrun|]. rewrite Hout. reflexivity.
Defined.

(** ** Redirection to files *)

(** A call of [perform_io_redirect] that returns, in a process with 0, 1
    and 2 open, leaves exactly the descriptors open that were open: the
    descriptor open gave is closed again.  Only 0, 1 and 2 can be bound
    anew: 0 to the input file under [<]; 1 to the output file, truncated
    under [>] and [>&], appended to under [>>] and [>>&], and 2 with it
    under [>&] and [>>&], when the file can be opened. *)
Theorem perform_io_redirect_leaks_nothing (W : world) (c : Cmd)
  (s s' : proc) :
  std3 (fds s) →
  perform_io_redirect W c s = Ret tt s' →
  dom (fds s') = dom (fds s) ∧
  (∀ fd, fd ≠ 0 → fd ≠ 1 → fd ≠ 2 → fds s' !! fd = fds s !! fd) ∧
  fds s' !! 0 = (if decide (cin c = Tin) then Some (FileR (infile c))
                 else fds s !! 0) ∧
  fds s' !! 1 = (if can_write W (outfile c) then
                   match cout c with
                   | Tout | ToutErr => Some (FileW (outfile c) false)
                   | Tapp | TappErr => Some (FileW (outfile c) true)
                   | _ => fds s !! 1
                   end
                 else fds s !! 1) ∧
  fds s' !! 2 = (if can_write W (outfile c) then
                   match cout c with
                   | ToutErr => Some (FileW (outfile c) false)
                   | TappErr => Some (FileW (outfile c) true)
                   | _ => fds s !! 2
                   end
                 else fds s !! 2).
Proof.
  intros Hstd Hrun.
  destruct (perform_io_redirect_Ret W c s s' Hstd Hrun) as (Hf & _).
  rewrite Hf. clear Hf Hrun. destruct Hstd as (Ha & Hb & Hc).
  unfold file_redirections, file_out.
  destruct (can_write W (outfile c)), (cout c); case_decide as Hdec;
    (split;
     [repeat (rewrite dom_insert_lookup_L;
              [|rewrite ?lookup_insert_ne by done; done]); done|]);
    (split; [intros fd ? ? ?; by rewrite ?lookup_insert_ne by done|]);
    rewrite ?lookup_insert_eq;
    repeat (rewrite lookup_insert_ne by done; rewrite ?lookup_insert_eq);
    done.
Qed.

Lemma perform_io_redirect_leaks_nothing_witness :
  ∃ s' : proc,
    perform_io_redirect Demo.calm (Demo.cmd_io ["sort"] "in" "out")
      Demo.shell = Ret tt s' ∧
    dom (fds s') = dom (fds Demo.shell) ∧
    fds s' !! 0 = Some (FileR "in") ∧
    fds s' !! 1 = Some (FileW "out" false).
Proof.
  eexists. split; [reflexivity|].
  destruct (perform_io_redirect_leaks_nothing Demo.calm
              (Demo.cmd_io ["sort"] "in" "out") Demo.shell _
              (proj1 std3_demo_shell) eq_refl) as (Hd & _ & H0 & H1 & _).
  split; [exact Hd|]. split; [exact H0|exact H1].
Defined.

Lemma lowest_free_0 (t : gmap Z filedesc) :
  t !! 0 = None → Fd.lowest_free t = 0.
Proof.
  intros Hnone. unfold Fd.lowest_free.
  destruct (size t); simpl; [done|]. by rewrite Hnone.
Qed.

(** Where descriptor 0 is closed beforehand, open gives 0 for the input
    file, and the close that follows takes it away again: after [< file]
    the process has no standard input at all. *)
Theorem input_redirect_with_stdin_closed (W : world) (c : Cmd) (s : proc) :
  fds s !! 0 = None →
  cin c = Tin → can_read W (infile c) = true →
  ∃ s' : proc,
    perform_io_redirect W c s = Ret tt s' ∧ fds s' !! 0 = None.
Proof.
  intros Hclosed Hin Hread. unfold perform_io_redirect.
  rewrite decide_True, Hread by done. cbn [bind].
  eexists. split; [reflexivity|].
  set (s1 := sys_close _ _).
  assert (H1 : fds s1 !! 0 = None).
  { subst s1. unfold sys_open, Fd.open. cbn [fst snd fds sys_close set_fds].
    rewrite (lowest_free_0 _ Hclosed). apply lookup_delete_eq. }
  clearbody s1. unfold redirect_output, sys_open, Fd.open.
  destruct (cout c), (can_write W (outfile c)); try exact H1;
    cbn [fst snd fds sys_close sys_dup2 set_fds];
    rewrite (lowest_free_0 _ H1); apply lookup_delete_eq.
Qed.

Lemma input_redirect_with_stdin_closed_witness :
  ∃ s' : proc,
    perform_io_redirect Demo.calm (Demo.cmd_io ["sort"] "in" "out")
      (sys_close 0 Demo.shell) = Ret tt s' ∧
    fds s' !! 0 = None.
Proof.
  apply (input_redirect_with_stdin_closed Demo.calm
           (Demo.cmd_io ["sort"] "in" "out") (sys_close 0 Demo.shell));
    reflexivity.
Defined.

(** ** The last command, run in the shell *)

(** [process_cmd] saves and restores descriptors 0 and 1 only.  A built-in
    that is last and has its output sent to a file with [>&] or [>>&]
    leaves the shell's own descriptor 2 bound to that file when it
    returns. *)
Theorem stderr_stays_redirected (W : world) (c : Cmd) (name : string)
  (rest : list string) (s s' : proc) (r : Z) :
  args c = name :: rest → is_builtin name ≠ -1 →
  cout c = ToutErr ∨ cout c = TappErr →
  can_write W (outfile c) = true →
  std3 (fds s) → spared s →
  process_cmd W c true s = Ret r s' →
  fds s' !! 2 = Some (FileW (outfile c) (bool_decide (cout c = TappErr))).
Proof.
  intros Hargs Hb Hco Hw Hstd Hsp.
  rewrite (process_cmd_unfold W c name rest true s Hargs).
  destruct (String.eqb name "end" && (processing_rc s =? 0)); [discriminate|].
  destruct (Z.eqb_spec (is_builtin name) (-1)) as [|_]; [done|].
  cbn [negb]. intros Heq.
  destruct (builtin_in_shell_inv W _ _ _ c s s' r Hstd Hsp Heq)
    as (d0 & d1 & s4 & s5 & E0 & E1 & Hstdb & Hf4 & Hstd4 & Hg4 & Hc4 & Hn4
        & Eh & Hf' & Hg' & Hc' & Hn' & ->).
  assert (Hsub := process_cmd_args_framed W).
  destruct (exec_cmd_framed W (is_builtin name) (nice_sub1 W rest)
              (nice_sub2 W rest) c s4 s5) as [(_ & _ & Hk5 & _) _];
    [| |exact Hstd4|exact (spared_same s s4 Hg4 Hsp)|exact Eh|].
  { intros s0 r0 s0' Hs0 Hp0 E.
    by destruct (Hsub _ _ _ _ _ _ _ _ _ _ Hs0 Hp0 E). }
  { intros s0 r0 s0' Hs0 Hp0 E. unfold nice_sub2 in E.
    destruct rest as [|a rest2]; [discriminate|].
    by destruct (Hsub _ _ _ _ _ _ _ _ _ _ Hs0 Hp0 E). }
  set (d := FileW (outfile c) (bool_decide (cout c = TappErr))).
  assert (H4 : fds s4 !! 2 = Some d).
  { rewrite Hf4. unfold file_redirections, file_out. rewrite Hw. subst d.
    destruct Hco as [-> | ->]; cbn; apply lookup_insert_eq. }
  assert (H5 : fds s5 !! 2 = Some d).
  { apply Hk5; [|exact H4]. rewrite (discarded_same s s4 Hg4).
    destruct Hsp as (_ & _ & Hsp2).
    intros [Hin|Hin]%elem_of_union; [|done].
    unfold redirected in Hin. set_unfold. lia. }
  destruct (std3_fresh (fds s) Hstd) as (_ & _ & Nn2).
  assert (Hstda : std3 (<[Fd.lowest_free (fds s) := d0]> (fds s)))
    by (by apply std3_insert).
  destruct (std3_fresh _ Hstda) as (_ & _ & Nn2').
  rewrite Hf'. rewrite !close_lookup_ne, !dup2_lookup_ne by done.
  exact H5.
Qed.

Lemma stderr_stays_redirected_witness :
  fds (state_of
         (process_cmd Demo.calm
            (mkCmd ["echo"; "hi"] 2 Tnil EmptyString ToutErr "log") true
            Demo.shell)) !! 2
  = Some (FileW "log" false).
Proof.
  assert (E : process_cmd Demo.calm
                (mkCmd ["echo"; "hi"] 2 Tnil EmptyString ToutErr "log") true
                Demo.shell
              = Ret 0 (state_of
                         (process_cmd Demo.calm
                            (mkCmd ["echo"; "hi"] 2 Tnil EmptyString ToutErr
                               "log") true Demo.shell)))
    by (vm_compute; reflexivity).
  destruct std3_demo_shell as [Hstd Hsp].
  apply (stderr_stays_redirected Demo.calm
           (mkCmd ["echo"; "hi"] 2 Tnil EmptyString ToutErr "log")
           "echo" ["hi"] Demo.shell _ 0 eq_refl);
    [discriminate|by left|reflexivity|exact Hstd|exact Hsp|exact E].
Defined.

(** ** When the shell itself exits *)

Lemma perform_io_redirect_Exit (W : world) (c : Cmd) (s s' : proc) (st : Z) :
  perform_io_redirect W c s = Exit st s' →
  st = -1 ∧ s' = s ∧ cin c = Tin ∧ can_read W (infile c) = false.
Proof.
  unfold perform_io_redirect.
  case_decide as Hin; [destruct (can_read W (infile c)) eqn:Hr|];
    cbn [bind]; intros Heq; by simplify_eq.
Qed.

Lemma exec_cmd_Exit (W : world) (i : Z) (sub1 sub2 : proc → outcome Z)
  (c : Cmd) (s s' : proc) (st : Z) :
  (∀ s0 st0 s0', sub1 s0 = Exit st0 s0' → st0 = 0) →
  (∀ s0 st0 s0', sub2 s0 = Exit st0 s0' → st0 = 0) →
  exec_cmd W i sub1 sub2 c s = Exit st s' →
  st = 0 ∧ (i = 2 ∨ i = 3).
Proof.
  intros H1 H2. unfold exec_cmd.
  destruct (Z.eqb_spec i 1); [discriminate|].
  destruct (Z.eqb_spec i 2) as [->|_].
  { unfold exec_logout. intros Heq. simplify_eq. auto. }
  destruct (Z.eqb_spec i 3) as [->|_].
  - unfold exec_nice. destruct (nice_plan c) as [[p [| |]]|];
      try discriminate.
    + destruct (sub1 _) eqn:E; cbn [bind]; intros Heq; simplify_eq.
      split; [by eapply H1|auto].
    + destruct (sub2 _) eqn:E; cbn [bind]; intros Heq; simplify_eq.
      split; [by eapply H2|auto].
  - unfold exec_environment. by destruct (environment_builtin W i (args c)).
Qed.

Lemma process_cmd_args_Exit (W : world) (argv : list string) :
  ∀ na ci inf co outf last s st s',
    process_cmd_args W argv na ci inf co outf last s = Exit st s' →
    st = 0 ∨ (st = -1 ∧ ci = Tin).
Proof.
  induction argv as [|name rest IH1 IH2] using args_ind;
    intros na ci inf co outf last s st s'; [discriminate|].
  simpl.
  destruct (String.eqb name "end" && (processing_rc s =? 0));
    [intros Heq; simplify_eq; by left|].
  destruct (negb (is_builtin name =? -1)); [destruct last|];
    try discriminate.
  unfold builtin_in_shell.
  destruct (perform_io_redirect W _ _) as [[] s4|st4 s4|s4] eqn:Eio;
    cbn [bind]; try discriminate.
  - destruct (exec_cmd W _ _ _ _ s4) as [[] s5|st5 s5|s5] eqn:Eh;
      cbn [bind]; try discriminate.
    intros Heq. simplify_eq. left.
    eapply (exec_cmd_Exit W); [| |exact Eh].
    + intros s0 st0 s0' E. by destruct (IH1 _ _ _ _ _ _ _ _ _ E) as [|[_ ?]].
    + intros s0 st0 s0' E. destruct rest as [|a rest2]; [discriminate|].
      by destruct (IH2 a rest2 eq_refl _ _ _ _ _ _ _ _ _ E) as [|[_ ?]].
  - intros Heq. simplify_eq. right.
    apply perform_io_redirect_Exit in Eio as (-> & _ & Hin & _). done.
Qed.

Lemma is_builtin_name (name : string) (i : nat) :
  is_builtin name = Z.of_nat i → builtin_cmd_handle !! i = Some name.
Proof.
  intros Hi. unfold is_builtin in Hi.
  destruct (is_builtin_from_spec builtin_cmd_handle 0 name)
    as [[E _]|(j & E & Hj & _)]; [lia|lia|].
  assert (j = i) as -> by lia. exact Hj.
Qed.

(** The shell process leaves [process_cmd] by exit in three cases only:
    the command is [end], outside the start-up file (status 0); the last
    command is logout, or nice running a command that ends the shell
    (status 0); the last command is a built-in whose input file cannot be
    opened (status -1): the shell itself is brought down by the exit meant
    for a child. *)
Theorem process_cmd_exit_status (W : world) (c : Cmd) (last : bool)
  (s s' : proc) (st : Z) :
  process_cmd W c last s = Exit st s' →
  ∃ name rest,
    args c = name :: rest ∧
    ((name = "end" ∧ processing_rc s = 0 ∧ st = 0 ∧ s' = s) ∨
     (last = true ∧ (name = "logout" ∨ name = "nice") ∧ st = 0) ∨
     (last = true ∧ is_builtin name ≠ -1 ∧ cin c = Tin ∧
      can_read W (infile c) = false ∧ st = -1)).
Proof.
  destruct (args c) as [|name rest] eqn:Hargs.
  { unfold process_cmd. rewrite Hargs. discriminate. }
  rewrite (process_cmd_unfold W c name rest last s Hargs).
  intros Heq. exists name, rest. split; [done|].
  destruct (String.eqb name "end" && (processing_rc s =? 0)) eqn:Hend.
  { apply andb_true_iff in Hend as [Hn Hrc].
    apply String.eqb_eq in Hn. apply Z.eqb_eq in Hrc.
    simplify_eq. left. done. }
  destruct (Z.eqb_spec (is_builtin name) (-1)) as [|Hb]; [discriminate|].
  cbn [negb] in Heq. destruct last; [|discriminate]. right.
  unfold builtin_in_shell in Heq.
  destruct (perform_io_redirect W _ _) as [[] s4|st4 s4|s4] eqn:Eio;
    cbn [bind] in Heq; try discriminate.
  - destruct (exec_cmd W _ _ _ _ s4) as [[] s5|st5 s5|s5] eqn:Eh;
      cbn [bind] in Heq; try discriminate.
    simplify_eq. left.
    assert (H1 : ∀ s0 st0 s0', nice_sub1 W rest s0 = Exit st0 s0' → st0 = 0).
    { intros s0 st0 s0' E.
      destruct (process_cmd_args_Exit W _ _ _ _ _ _ _ _ _ _ E) as [|[_ Hci]];
        [done|]. change (Tnil = Tin) in Hci. discriminate. }
    assert (H2 : ∀ s0 st0 s0', nice_sub2 W rest s0 = Exit st0 s0' → st0 = 0).
    { intros s0 st0 s0' E. unfold nice_sub2 in E.
      destruct rest as [|a rest2]; [discriminate|].
      destruct (process_cmd_args_Exit W _ _ _ _ _ _ _ _ _ _ E) as [|[_ Hci]];
        [done|]. change (Tnil = Tin) in Hci. discriminate. }
    destruct (exec_cmd_Exit W _ _ _ _ _ _ _ H1 H2 Eh) as [-> Hi].
    split; [done|]. split; [|done].
    destruct Hi as [Hi|Hi]; [left|right].
    + apply (is_builtin_name name 2) in Hi.
      change (Some "logout" = Some name) in Hi. by simplify_eq.
    + apply (is_builtin_name name 3) in Hi.
      change (Some "nice" = Some name) in Hi. by simplify_eq.
  - simplify_eq. right.
    apply perform_io_redirect_Exit in Eio as (-> & _ & Hin & Hr). done.
Qed.

Lemma process_cmd_exit_status_witness :
  let c := mkCmd ["echo"; "hi"] 2 Tin "missing" Tnil EmptyString in
  let s' := state_of (process_cmd Demo.no_files c true Demo.shell) in
  process_cmd Demo.no_files c true Demo.shell = Exit (-1) s' ∧
  ∃ name rest,
    args c = name :: rest ∧
    ((name = "end" ∧ processing_rc Demo.shell = 0 ∧ -1 = 0 ∧ s' = Demo.shell) ∨
     (true = true ∧ (name = "logout" ∨ name = "nice") ∧ -1 = 0) ∨
     (true = true ∧ is_builtin name ≠ -1 ∧ cin c = Tin ∧
      can_read Demo.no_files (infile c) = false ∧ -1 = -1)).
Proof.
  intros c s'.
  assert (E : process_cmd Demo.no_files c true Demo.shell = Exit (-1) s')
    by (vm_compute; reflexivity).
  split; [exact E|].
  exact (process_cmd_exit_status Demo.no_files c true Demo.shell s' (-1) E).
Defined.

(** ** nice in the shell and in a child *)

(** [nice] with a priority and no command: as the last command of a pipe
    it sets the priority of the shell itself, and forks nothing; anywhere
    else in a pipe it sets the priority of a child that exits at once, and
    the shell's priority is as before. *)
Theorem nice_sets_the_priority (W : world) (c : Cmd) (rest : list string)
  (p : Z) (s : proc) :
  args c = "nice" :: rest →
  nice_plan c = Some (p, NoCmd) →
  (cin c = Tin → can_read W (infile c) = true) →
  (∃ s', process_cmd W c true s = Ret 0 s' ∧
         prio s' = prio s ++ [p] ∧ children s' = children s ∧
         nfork s' = nfork s) ∧
  (∃ s', process_cmd W c false s = Ret 0 s' ∧ prio s' = prio s ∧
         (fork_ok W (nfork s) = true →
          ∃ kid, children s' = children s ++ [kid] ∧
                 ch_prio kid = [p] ∧ ch_end kid = Exited 0)).
Proof.
  intros Hargs Hplan Hr. split.
  - rewrite (process_cmd_unfold W c "nice" rest true s Hargs).
    destruct (processing_rc s =? 0); cbn [String.eqb Ascii.eqb andb];
      change (is_builtin "nice") with 3; cbn [Z.eqb negb];
      unfold builtin_in_shell;
      (destruct (perform_io_redirect_returns W c
                   (perform_pipe_redirect c (sys_dup 1 (sys_dup 0 s).2).2) Hr)
         as (s1 & -> & Hp & _ & Hc & Hn));
      cbn [bind]; change (exec_cmd W 3) with (exec_nice);
      rewrite (exec_nice_sets_priority _ _ c s1 p Hplan); cbn [bind];
      (eexists; split; [reflexivity|]);
      cbn [prio children nfork sys_close sys_dup2 set_fds setpriority];
      rewrite Hp, Hc, Hn;
      (destruct (perform_pipe_redirect_rest c (sys_dup 1 (sys_dup 0 s).2).2)
         as (_ & -> & -> & _ & ->)); done.
  - rewrite (process_cmd_unfold W c "nice" rest false s Hargs).
    destruct (processing_rc s =? 0); cbn [String.eqb Ascii.eqb andb];
      change (is_builtin "nice") with 3; cbn [Z.eqb negb];
      (eexists; split; [reflexivity|]);
      unfold fork; destruct (fork_ok W (nfork s)); (split; [done|]);
      try discriminate; intros _; (eexists; split; [reflexivity|]);
      unfold builtin_child;
      (destruct (perform_io_redirect_returns W c
                   (perform_pipe_redirect c (reset_signals (forked s))) Hr)
         as (s1 & -> & Hp & _));
      cbn [bind]; change (exec_cmd W 3) with (exec_nice);
      rewrite (exec_nice_sets_priority _ _ c s1 p Hplan); cbn [bind];
      cbn [child_of ch_prio ch_end prio setpriority];
      rewrite Hp;
      (destruct (perform_pipe_redirect_rest c (reset_signals (forked s)))
         as (_ & _ & _ & _ & ->)); done.
Qed.

Lemma nice_sets_the_priority_witness :
  ∃ s', process_cmd Demo.calm (Demo.cmd ["nice"; "7"] Tnil) true Demo.shell
        = Ret 0 s' ∧
        prio s' = [7] ∧ children s' = [].
Proof.
  destruct (nice_sets_the_priority Demo.calm (Demo.cmd ["nice"; "7"] Tnil)
              ["7"] 7 Demo.shell eq_refl eq_refl) as [(s' & E & Hp & Hc & _) _];
    [discriminate|].
  exists s'. split; [exact E|]. split; [exact Hp|exact Hc].
Defined.

(** ** What a child says when the program cannot be run *)

(** When execvp fails the child prints its message with printf, that is
    to its descriptor 1 as the redirections have left it, and exits with
    -1: "command not found" for ENOENT, "permission denied" for EACCES,
    nothing for another error.  For a command that is not the last of its
    pipe and does not write to a file, descriptor 1 is the write end of the
    channel to the next command: the message is fed to that command. *)
Theorem exec_failure_message (W : world) (c : Cmd) (s : proc) :
  std3 (fds s) → spared s →
  (cin c = Tin → can_read W (infile c) = true) →
  execvp W (args c) ≠ ExecOk →
  (∃ k, external_child W c (forked s) = Exit (-1) k ∧
        out k = match execvp W (args c) with
                | ExecEACCES => [(launched_table W c s !! 1,
                                  "permission denied
")]
                | ExecENOENT => [(launched_table W c s !! 1,
                                  "command not found
")]
                | _ => []
                end) ∧
  (∀ src, at_stage src false s → output_to_file (cout c) = false →
          ∃ ch, launched_table W c s !! 1 = Some (PipeW ch)).
Proof.
  intros Hstd Hsp Hr Hx. split.
  - destruct (child_redirections W c s Hstd Hsp Hr) as (k4 & E & Hf & Ho).
    unfold external_child. rewrite E. cbn [bind].
    destruct (execvp W (args c)); [done|..];
      (eexists; split; [reflexivity|]);
      rewrite ?out_printf, ?Ho, ?Hf; done.
  - intros src Hat Hfile.
    destruct (at_stage_wiring src false s c Hat) as (_ & _ & _ & k & Hk & _).
    exists k. unfold output_sink in Hk. cbn [w_pipenum w_mypipes w_fds] in Hk.
    unfold launched_table, file_redirections, file_out.
    assert (Hnone : (if can_write W (outfile c) then
                       match cout c with
                       | Tout => Some (FileW (outfile c) false, false)
                       | Tapp => Some (FileW (outfile c) true, false)
                       | ToutErr => Some (FileW (outfile c) false, true)
                       | TappErr => Some (FileW (outfile c) true, true)
                       | _ => None
                       end
                     else None) = None).
    { destruct (can_write W (outfile c)), (cout c); done. }
    rewrite Hnone. case_decide; [|done]. by rewrite lookup_insert_ne.
Qed.

Lemma exec_failure_message_witness :
  ∃ k, external_child Demo.nosuch_missing (Demo.cmd ["nosuch"] Tnil)
         (forked Demo.shell) = Exit (-1) k ∧
       out k = [(Some (Std 1), "command not found
")].
Proof.
  destruct std3_demo_shell as [Hstd Hsp].
  destruct (exec_failure_message Demo.nosuch_missing
              (Demo.cmd ["nosuch"] Tnil) Demo.shell Hstd Hsp)
    as [(k & E & Ho) _]; [discriminate|discriminate|].
  exists k. split; [exact E|]. rewrite Ho. reflexivity.
Defined.

(** ** The channel ends a launched command holds *)

Lemma file_redirections_ends (W : world) (c : Cmd) (t : gmap Z filedesc)
  (fd : Z) (d : filedesc) (k : nat) :
  file_redirections W c t !! fd = Some d → Fd.chan_of d = Some k →
  t !! fd = Some d.
Proof.
  unfold file_redirections, file_out. intros Hfd Hk.
  assert (Hins : ∀ x e (t' : gmap Z filedesc),
            Fd.chan_of e = None → <[x := e]> t' !! fd = Some d →
            t' !! fd = Some d).
  { intros x e t' He [[_ ->]|[_ ?]]%lookup_insert_Some; [congruence|done]. }
  destruct (can_write W (outfile c)), (cout c); case_decide as Hdec;
    repeat (apply Hins in Hfd; [|reflexivity]); exact Hfd.
Qed.

Lemma wired_ends (co : token) (pn : Z) (mp : (Z * Z) * (Z * Z))
  (t : gmap Z filedesc) (src dw : filedesc) :
  (∀ fd d k, t !! fd = Some d → Fd.chan_of d = Some k →
     fd = (slot mp (c_not pn)).1 ∨ fd = (slot mp (c_not pn)).2 ∨
     fd = (slot mp pn).1 ∨ fd = (slot mp pn).2) →
  t !! (slot mp (c_not pn)).1 = Some src →
  t !! (slot mp pn).2 = Some dw →
  (slot mp (c_not pn)).2 ≠ 0 →
  (slot mp pn).2 ≠ 0 → (slot mp pn).2 ≠ (slot mp (c_not pn)).2 →
  ∀ fd d k, wired co pn mp t !! fd = Some d → Fd.chan_of d = Some k →
            d = src ∨ d = dw.
Proof.
  set (prev := slot mp (c_not pn)). set (cur := slot mp pn).
  intros Hex Hsrc Hdw P0 C0 Cp.
  unfold wired. fold prev cur.
  assert (E1 : Fd.dup2 prev.1 0 t = <[0 := src]> t)
    by (unfold Fd.dup2; by rewrite Hsrc).
  rewrite E1.
  set (t2 := Fd.close prev.2 (<[0 := src]> t)).
  assert (H2 : t2 !! cur.2 = Some dw).
  { subst t2. rewrite close_lookup_ne by done.
    by rewrite lookup_insert_ne by done. }
  assert (E3 : Fd.dup2 cur.2 1 t2 = <[1 := dw]> t2)
    by (unfold Fd.dup2; by rewrite H2).
  rewrite E3.
  set (t4 := Fd.close cur.1 (<[1 := dw]> t2)).
  assert (H4 : ∀ fd d k, t4 !! fd = Some d → Fd.chan_of d = Some k →
                         d = src ∨ d = dw).
  { intros fd d k Hfd Hk. subst t4. unfold Fd.close in Hfd.
    apply lookup_delete_Some in Hfd as [Nc1 Hfd].
    apply lookup_insert_Some in Hfd as [[_ <-]|[N1 Hfd]]; [by right|].
    subst t2. unfold Fd.close in Hfd.
    apply lookup_delete_Some in Hfd as [Np2 Hfd].
    apply lookup_insert_Some in Hfd as [[_ <-]|[N0 Hfd]]; [by left|].
    destruct (Hex fd d k Hfd Hk) as [->|[->|[->| ->]]];
      [left; congruence|done|done|right; congruence]. }
  case_decide; [|exact H4].
  intros fd d k Hfd Hk. unfold Fd.dup2 in Hfd.
  destruct (t4 !! cur.2) as [d'|] eqn:E5; [|by eapply H4].
  apply lookup_insert_Some in Hfd as [[_ <-]|[_ Hfd]]; by eapply H4.
Qed.

Lemma confined_four (mp : (Z * Z) * (Z * Z)) (pn : Z) (t : gmap Z filedesc)
  (fd : Z) (d : filedesc) (k : nat) :
  confined mp t → t !! fd = Some d → Fd.chan_of d = Some k →
  fd = (slot mp (c_not pn)).1 ∨ fd = (slot mp (c_not pn)).2 ∨
  fd = (slot mp pn).1 ∨ fd = (slot mp pn).2.
Proof.
  intros (c0 & c1 & Hc) Hfd Hk.
  destruct (Hc fd d k Hfd Hk) as [[[E|E] _]|[[E|E] _]];
    unfold slot, c_not; destruct (pn =? 0); simpl; tauto.
Qed.

Lemma next_stage_fresh (W : world) (last : bool) (s : proc) :
  stage_inv s → fresh_ids s →
  fresh_ids (next_stage W last s) ∧
  (last = false → pipe_ok W (npipe s) = true →
   fds (next_stage W last s)
     !! (slot (mypipes (next_stage W last s))
           (pipenum (next_stage W last s))).2
   = Some (PipeW (npipe s))).
Proof.
  intros (Hstd & Hsane & _) Hfresh.
  unfold next_stage.
  set (s1 := set_pipenum (c_not (pipenum s)) s).
  set (i := c_not (pipenum s)).
  change (pipenum s1) with i. change (mypipes s1) with (mypipes s).
  destruct (slots_sane_slot (mypipes s) i Hsane) as [Hv1 Hv2].
  destruct (close_stale_spec (slot (mypipes s) i) s1 Hstd Hv1 Hv2)
    as (_ & Hmp & Hpn & Hnp & _ & Hkeep).
  set (s2 := close_stale (slot (mypipes s) i) s1) in *.
  change (mypipes s1) with (mypipes s) in Hmp.
  change (pipenum s1) with i in Hpn.
  change (npipe s1) with (npipe s) in Hnp.
  change (fds s1) with (fds s) in Hkeep.
  clearbody s2. clear s1.
  assert (Hfresh2 : ∀ fd d k, fds s2 !! fd = Some d → Fd.chan_of d = Some k →
                              (k < npipe s)%nat).
  { intros fd d k Hfd Hk. destruct (Hkeep fd d k Hfd Hk) as [Hfd' _].
    by eapply Hfresh. }
  destruct last.
  - split; [|discriminate]. unfold fresh_ids.
    cbn [fds npipe set_mypipes]. rewrite Hnp. exact Hfresh2.
  - unfold sys_pipe. rewrite Hnp.
    destruct (pipe_ok W (npipe s)) eqn:Hok.
    + unfold fresh_ids.
      cbn [fds mypipes pipenum npipe set_mypipes set_fds set_npipe].
      rewrite Hmp, Hpn, slot_set_slot.
      destruct (pipe_lookup (npipe s) (fds s2)) as (_ & Pw & _).
      split; [|by intros _ _].
      intros fd d k Hfd Hk. unfold Fd.pipe in Hfd. cbn [snd] in Hfd.
      apply lookup_insert_Some in Hfd as [[_ <-]|[_ Hfd]];
        [simpl in Hk; simplify_eq; lia|].
      apply lookup_insert_Some in Hfd as [[_ <-]|[_ Hfd]];
        [simpl in Hk; simplify_eq; lia|].
      specialize (Hfresh2 fd d k Hfd Hk). lia.
    + split; [|discriminate]. unfold fresh_ids.
      cbn [fds npipe set_npipe]. intros fd d k Hfd Hk.
      specialize (Hfresh2 fd d k Hfd Hk). lia.
Qed.

Lemma command_loop_stages (W : world) (cs : list Cmd) :
  ∀ (n : Z) (s : proc),
    ∃ ws, stages (state_of (command_loop W cs n s)) = stages s ++ ws.
Proof.
  induction cs as [|c next IH]; intros n s.
  - exists []. simpl. by rewrite app_nil_r.
  - cbn [command_loop].
    set (last := match next with [] => true | _ => false end).
    set (s1 := log_stage (next_stage W last s)).
    assert (Hst1 : stages s1 = stages s ++
               [mkWiring (pipenum (next_stage W last s))
                  (mypipes (next_stage W last s))
                  (fds (next_stage W last s))])
      by (subst s1; cbn [stages log_stage]; by rewrite stages_next_stage).
    destruct (shrinks_process_cmd W c last s1) as [Hs _].
    clearbody s1.
    destruct (process_cmd W c last s1) as [ret s2| |]; cbn [bind state_of] in *;
      try (eexists; rewrite Hs, Hst1; reflexivity).
    destruct (ret <? 0); cbn [state_of];
      [eexists; rewrite Hs, Hst1; reflexivity|].
    destruct (IH (n + 1) s2) as [ws ->].
    eexists. rewrite Hs, Hst1, <- app_assoc. reflexivity.
Qed.

(** ** The processes forked for a pipe *)

Lemma ch_fds_child_of (pid : nat) (argv : list string) (o : outcome ending) :
  ch_fds (child_of pid argv o) = fds (state_of o).
Proof. by destruct o. Qed.

Lemma ch_argv_child_of (pid : nat) (argv : list string) (o : outcome ending) :
  ch_argv (child_of pid argv o) = argv.
Proof. by destruct o. Qed.

(** What [process_cmd] does for a command that is no built-in, when fork
    succeeds. *)
Lemma process_cmd_runs_program (W : world) (c : Cmd) (last : bool)
  (s : proc) :
  runs_program c → fork_ok W (nfork s) = true →
  process_cmd W c last s
  = Ret 0 (with_child
             (child_of (nfork s) (args c) (external_child W c (forked s))) s).
Proof.
  intros (name & rest & Ha & Hb & He) Hf.
  rewrite (process_cmd_unfold W c name rest last s Ha).
  apply String.eqb_neq in He. rewrite He. cbn [andb].
  rewrite Hb. change (negb (-1 =? -1)) with false. cbv iota.
  unfold fork. rewrite Hf. reflexivity.
Qed.

(** The descriptors of an external child are those its redirections leave
    it with, whether execvp succeeds or not. *)
Lemma fds_external_child (W : world) (c : Cmd) (k : proc) :
  fds (state_of (external_child W c k))
  = fds (state_of (perform_io_redirect W c
                     (perform_pipe_redirect c (reset_signals k)))).
Proof.
  unfold external_child.
  destruct (perform_io_redirect W c _) as [[] k4| |]; cbn [bind state_of];
    [|done..].
  destruct (execvp W (args c)); done.
Qed.

Lemma perform_io_redirect_unredirected (W : world) (c : Cmd) (k : proc) :
  unredirected c → perform_io_redirect W c k = Ret tt k.
Proof.
  intros [Hi Ho]. unfold perform_io_redirect.
  rewrite decide_False by done. cbn [bind].
  destruct (cout c); try discriminate Ho; reflexivity.
Qed.

Lemma perform_io_redirect_no_crash (W : world) (c : Cmd) (k k' : proc) :
  perform_io_redirect W c k ≠ Crash k'.
Proof.
  unfold perform_io_redirect.
  case_decide; [destruct (can_read W (infile c))|]; cbn [bind]; discriminate.
Qed.

(** The redirections to files bind no descriptor to a channel, whether
    they return or not. *)
Lemma redirections_ends (W : world) (c : Cmd) (k : proc) (fd : Z)
  (d : filedesc) (n : nat) :
  std3 (fds k) →
  fds (state_of (perform_io_redirect W c k)) !! fd = Some d →
  Fd.chan_of d = Some n →
  fds k !! fd = Some d.
Proof.
  intros Hstd.
  destruct (perform_io_redirect W c k) as [[] k4|st k4|k4] eqn:E;
    cbn [state_of].
  - destruct (perform_io_redirect_Ret W c k k4 Hstd E) as (-> & _).
    apply file_redirections_ends.
  - by destruct (perform_io_redirect_Exit W c k k4 st E) as (_ & -> & _).
  - by destruct (perform_io_redirect_no_crash W c k k4).
Qed.

(** When no file is written to they leave every descriptor but 0 alone. *)
Lemma redirections_keep (W : world) (c : Cmd) (k : proc) (x : Z) :
  std3 (fds k) → x ≠ 0 → output_to_file (cout c) = false →
  fds (state_of (perform_io_redirect W c k)) !! x = fds k !! x.
Proof.
  intros Hstd Hx Hfile.
  assert (Hnone : file_out W c = None).
  { unfold file_out. destruct (can_write W (outfile c)), (cout c); done. }
  destruct (perform_io_redirect W c k) as [[] k4|st k4|k4] eqn:E;
    cbn [state_of].
  - destruct (perform_io_redirect_Ret W c k k4 Hstd E) as (-> & _).
    unfold file_redirections. rewrite Hnone.
    case_decide; [|done]. by rewrite lookup_insert_ne.
  - by destruct (perform_io_redirect_Exit W c k k4 st E) as (_ & -> & _).
  - by destruct (perform_io_redirect_no_crash W c k k4).
Qed.

Lemma at_stage_spared (src : filedesc) (last : bool) (s : proc) :
  at_stage src last s → spared s.
Proof.
  intros (_ & _ & _ & (P0 & P1 & P2) & _ & Hcur).
  unfold spared, discarded. destruct last.
  - rewrite Hcur. simpl. set_unfold. split_and!; intros [?|?]; lia.
  - destruct Hcur as (k & _ & _ & _ & (C0 & C1 & C2) & _).
    set_unfold. split_and!; intros [?|?]; congruence.
Qed.

Lemma spawned_std3 (c : Cmd) (src : filedesc) (last : bool) (s : proc) :
  at_stage src last s → std3 (fds (spawned c s)).
Proof.
  intros Hat. destruct (at_stage_spared src last s Hat) as (N0 & N1 & N2).
  unfold spawned. rewrite fds_perform_pipe_redirect.
  apply wired_std3; try done. by destruct Hat as (? & _).
Qed.

Lemma reads_from_wired (c : Cmd) (w : wiring) (d : filedesc) :
  input_source c w = Some d → reads_from c w d.
Proof.
  intros H st <-. unfold spawned. rewrite fds_perform_pipe_redirect.
  exact H.
Qed.

Lemma writes_to_wired (c : Cmd) (w : wiring) (d : filedesc) :
  output_sink c w = Some d → writes_to c w d.
Proof.
  intros H st <-. unfold spawned. rewrite fds_perform_pipe_redirect.
  exact H.
Qed.

Lemma spawn_chain_wired (stdout : filedesc) (ws : list wiring) :
  ∀ (cs : list Cmd) (src : filedesc),
    wiring_chain src stdout cs ws → spawn_chain src stdout cs ws.
Proof.
  induction ws as [|w ws IH]; intros cs src;
    destruct cs as [|c cs]; try done.
  cbn [wiring_chain spawn_chain].
  intros (Hi & Hin & Hon & Hrest).
  split; [by apply reads_from_wired|].
  split; [by rewrite <- Hin|].
  destruct cs as [|c' cs'].
  - destruct Hrest as [Ho ->]. exists stdout.
    split_and!; [by apply writes_to_wired|by rewrite <- Hon|done|done].
  - destruct Hrest as (k & Ho & Hch). exists (PipeW k).
    split_and!; [by apply writes_to_wired|by rewrite <- Hon|].
    exists k. split; [done|]. by apply IH.
Qed.

(** The channel ends [perform_pipe_redirect] leaves to a process forked at
    a stage of a pipe: the one the command is to read from and the one it
    is to write to. *)
Lemma stage_spawned_ends (c : Cmd) (src : filedesc) (last : bool)
  (s : proc) :
  at_stage src last s → confined (mypipes s) (fds s) →
  ∃ dw,
    fds s !! (slot (mypipes s) (pipenum s)).2 = Some dw ∧
    (∀ k, dw ≠ PipeR k) ∧
    ∀ fd d k, fds (spawned c s) !! fd = Some d → Fd.chan_of d = Some k →
              d = src ∨ d = dw.
Proof.
  intros Hat Hconf.
  destruct Hat as (Hstd & Hnp & Hsrc & (P0 & P1 & P2) & Hpw & Hcur).
  assert (Hdw : ∃ dw, fds s !! (slot (mypipes s) (pipenum s)).2 = Some dw ∧
                      (slot (mypipes s) (pipenum s)).2 ≠ 0 ∧
                      (slot (mypipes s) (pipenum s)).2
                      ≠ (slot (mypipes s) (c_not (pipenum s))).2 ∧
                      ∀ k, dw ≠ PipeR k).
  { destruct last.
    - rewrite Hcur. cbn [fst snd]. destruct Hstd as (_ & [d1 E1] & _).
      exists d1. split_and!; try done.
      intros k ->. by specialize (Hnp 1 _ (or_intror (or_introl eq_refl)) E1).
    - destruct Hcur as (k & _ & Hw & Hne & _ & (C0 & _)).
      exists (PipeW k). split_and!; done. }
  destruct Hdw as (dw & Hdw & C0 & Cp & Hdwr).
  exists dw. split; [done|]. split; [done|].
  intros fd d k Hfd Hk. unfold spawned in Hfd.
  rewrite fds_perform_pipe_redirect in Hfd.
  eapply (wired_ends (cout c) (pipenum s) (mypipes s) (fds s) src dw);
    try done.
  intros fd0 d0 k0 Hfd0 Hk0. by eapply confined_four.
Qed.

(** A pipe of external commands, when every pipe and every fork
    succeeds: the shell launches it to the end and forks one process for
    each command, in the state it logged for that command. *)
Lemma command_loop_kids (W : world) (cs : list Cmd) :
  (∀ n, pipe_ok W n = true) → (∀ n, fork_ok W n = true) →
  Forall runs_program cs →
  ∀ (n : Z) (s : proc) (src : filedesc),
    stage_inv s → linked src s → fresh_ids s → (∀ k, src ≠ PipeW k) →
    ∃ s' kids,
      command_loop W cs n s = Ret (n + Z.of_nat (length cs)) s' ∧
      children s' = children s ++ kids ∧
      length kids = length cs ∧
      ∀ i c kid,
        cs !! i = Some c → kids !! i = Some kid →
        ∃ st src_i last,
          kid = child_of (nfork st) (args c)
                  (external_child W c (forked st)) ∧
          stages s' !! (length (stages s) + i)%nat = Some (wiring_of st) ∧
          at_stage src_i last st ∧
          confined (mypipes st) (fds st) ∧
          (∀ k, src_i ≠ PipeW k) ∧
          (∀ k, fds st !! (slot (mypipes st) (pipenum st)).2
                = Some (PipeW k) → src_i ≠ PipeR k) ∧
          fds st !! 2 = fds s !! 2.
Proof.
  intros Hok Hfk. induction cs as [|c0 next IH];
    intros Hall n s src Hinv Hl Hfr Hsrcw.
  - exists s, []. simpl. rewrite Z.add_0_r, app_nil_r.
    split_and!; try done; intros i c kid Hc; discriminate Hc.
  - apply Forall_cons in Hall as [Hc0 Hnext].
    set (last := match next with [] => true | _ => false end).
    destruct (next_stage_inv W last s Hinv) as [Hinv1 Hst1].
    destruct (next_stage_linked W last src s Hl (λ _, Hok _))
      as (Hat & _ & _ & L2).
    destruct (next_stage_fresh W last s Hinv Hfr) as [Hfr1 Hnew].
    destruct (next_stage_family W last s) as [_ Hch1].
    apply stage_inv_log_stage in Hinv1.
    assert (Hlog : stages (log_stage (next_stage W last s))
                   = stages s ++ [wiring_of (log_stage (next_stage W last s))])
      by (cbn [stages log_stage]; by rewrite Hst1).
    assert (Hside : ∀ k,
              fds (log_stage (next_stage W last s))
                !! (slot (mypipes (log_stage (next_stage W last s)))
                      (pipenum (log_stage (next_stage W last s)))).2
              = Some (PipeW k) → src ≠ PipeR k).
    { intros k Hk ->. destruct last eqn:Elast.
      - destruct Hat as (_ & Hnp & _ & _ & _ & Hcur).
        cbn [fds mypipes pipenum log_stage] in Hk.
        rewrite Hcur in Hk. cbn [snd] in Hk.
        by specialize (Hnp 1 _ (or_intror (or_introl eq_refl)) Hk).
      - cbn [fds mypipes pipenum log_stage] in Hk.
        rewrite (Hnew eq_refl (Hok _)) in Hk. simplify_eq.
        destruct Hl as (_ & _ & _ & Hsrc & _).
        specialize (Hfr _ _ (npipe s) Hsrc eq_refl). lia. }
    assert (Hat1 : at_stage src last (log_stage (next_stage W last s)))
      by exact Hat.
    assert (L2' : fds (log_stage (next_stage W last s)) !! 2 = fds s !! 2)
      by exact L2.
    assert (Hfr1' : fresh_ids (log_stage (next_stage W last s)))
      by exact Hfr1.
    pose proof (process_cmd_runs_program W c0 last
                  (log_stage (next_stage W last s)) Hc0 (Hfk _)) as Hrun.
    clear Hat L2 Hfr1 Hnew Hst1.
    cbn [command_loop]. fold last.
    set (st := log_stage (next_stage W last s)) in *. clearbody st.
    set (kid0 := child_of (nfork st) (args c0)
                   (external_child W c0 (forked st))) in *.
    rewrite Hrun. cbn [bind]. change (0 <? 0) with false. cbv iota.
    assert (Hconf : confined (mypipes st) (fds st))
      by (by destruct Hinv1 as (_ & _ & ? & _)).
    assert (Hzero : ∃ st0 src0 last0,
              kid0 = child_of (nfork st0) (args c0)
                       (external_child W c0 (forked st0)) ∧
              wiring_of st = wiring_of st0 ∧
              at_stage src0 last0 st0 ∧
              confined (mypipes st0) (fds st0) ∧
              (∀ k, src0 ≠ PipeW k) ∧
              (∀ k, fds st0 !! (slot (mypipes st0) (pipenum st0)).2
                    = Some (PipeW k) → src0 ≠ PipeR k) ∧
              fds st0 !! 2 = fds s !! 2).
    { exists st, src, last. split_and!; done. }
    destruct next as [|c' next'].
    + cbn [command_loop]. exists (with_child kid0 st), [kid0].
      split_and!.
      * f_equal; simpl; lia.
      * cbn [children with_child set_children]. by rewrite Hch1.
      * done.
      * intros i c kid Hc Hk. destruct i as [|i]; [|discriminate Hc].
        simpl in Hc, Hk. simplify_eq.
        destruct Hzero as (st0 & src0 & last0 & A & B & C).
        exists st0, src0, last0. split; [exact A|]. split; [|exact C].
        cbn [stages with_child set_children set_nfork].
        rewrite Hlog, Nat.add_0_r, lookup_app_r, Nat.sub_diag by lia.
        simpl. by rewrite B.
    + subst last.
      destruct Hat1 as (_ & _ & _ & _ & _ & (k & Hlk & _)).
      destruct (IH Hnext (n + 1) (with_child kid0 st) (PipeR k))
        as (s' & kids & Hrun' & Hch' & Hlen' & Hidx); try done.
      destruct (command_loop_stages W (c' :: next') (n + 1)
                  (with_child kid0 st)) as [ws Hws].
      rewrite Hrun' in Hws. cbn [state_of] in Hws.
      change (stages (with_child kid0 st)) with (stages st) in Hws, Hidx.
      exists s', (kid0 :: kids). split_and!.
      * rewrite Hrun'. f_equal; cbn [length]; lia.
      * rewrite Hch'. cbn [children with_child set_children].
        rewrite Hch1, <- app_assoc. done.
      * cbn [length]. by rewrite Hlen'.
      * intros i c kid Hc Hk. destruct i as [|i].
        -- simpl in Hc, Hk. simplify_eq.
           destruct Hzero as (st0 & src0 & last0 & A & B & C).
           exists st0, src0, last0. split; [exact A|]. split; [|exact C].
           rewrite Hws, Hlog, Nat.add_0_r, <- app_assoc.
           rewrite lookup_app_r, Nat.sub_diag by lia. simpl. by rewrite B.
        -- simpl in Hc, Hk.
           destruct (Hidx i c kid Hc Hk)
             as (st0 & src0 & last0 & A & B & C & D & E & F & G).
           exists st0, src0, last0. split_and!; try done.
           ++ rewrite <- B. f_equal. rewrite Hlog, length_app. simpl. lia.
           ++ rewrite G. exact L2'.
Qed.

Lemma launch_pipe_kids (W : world) (p : Pipe) (s : proc) :
  ready3 s → (∀ n, pipe_ok W n = true) → (∀ n, fork_ok W n = true) →
  Forall runs_program p →
  ∃ s' kids,
    launch_pipe W p s = Ret (Z.of_nat (length p)) s' ∧
    children s' = children s ++ kids ∧
    length kids = length p ∧
    ∀ i c kid,
      p !! i = Some c → kids !! i = Some kid →
      ∃ st src_i last,
        kid = child_of (nfork st) (args c) (external_child W c (forked st)) ∧
        stages s' !! i = Some (wiring_of st) ∧
        at_stage src_i last st ∧
        confined (mypipes st) (fds st) ∧
        (∀ k, src_i ≠ PipeW k) ∧
        (∀ k, fds st !! (slot (mypipes st) (pipenum st)).2
              = Some (PipeW k) → src_i ≠ PipeR k) ∧
        fds st !! 2 = fds s !! 2.
Proof.
  intros Hready Hok Hfk Hall.
  pose proof Hready as [(H0 & _ & Hch & _ & Hst0) _].
  destruct H0 as [stdin Hin].
  assert (Hnone := proj1 (chan_of_None_channels (fds s)) Hch).
  change (launch_pipe W p s)
    with (command_loop W p 0
            (set_mypipes (set_slot (-1, -1, (-1, -1)) 0 (0, -1))
               (set_mypipes (-1, -1, (-1, -1)) (set_pipenum 0 s)))).
  destruct (command_loop_kids W p Hok Hfk Hall 0
              (set_mypipes (set_slot (-1, -1, (-1, -1)) 0 (0, -1))
                 (set_mypipes (-1, -1, (-1, -1)) (set_pipenum 0 s))) stdin)
    as (s' & kids & Hrun & Hkids & Hlen & Hidx).
  - apply ready_stage_inv, Hready.
  - by apply ready3_linked.
  - intros fd d k Hfd Hk. cbn [fds set_mypipes set_pipenum] in Hfd.
    rewrite (Hnone fd d Hfd) in Hk. discriminate.
  - intros k ->. by specialize (Hnone 0 _ Hin).
  - exists s', kids. rewrite Z.add_0_l in Hrun. split_and!; try done.
    intros i c kid Hc Hk.
    destruct (Hidx i c kid Hc Hk)
      as (st0 & src0 & last0 & A & B & C).
    exists st0, src0, last0. split; [exact A|]. split; [|exact C].
    cbn [stages set_mypipes set_pipenum] in B. rewrite Hst0 in B. exact B.
Qed.

(** C1, as the code has it.  From a shell with 0, 1 and 2 open that holds
    no channel, and when every channel of the pipe can be created: at each
    call of [process_cmd], the process forked for the command has, once it
    has run [perform_pipe_redirect], the read endpoint of the slot that is
    not current as its standard input and the write endpoint of the
    current slot as its standard output; the first command reads the
    shell's standard input, a command with a successor writes to the write
    end of the channel its successor reads from, and the last command
    writes to the shell's standard output.  In particular, for a pipe
    [A | B | C] of external commands without redirection to files, when
    every fork succeeds: the shell forks three processes, and their
    descriptors 0 and 1 are bound so. *)
Theorem wiring_invariant (W : world) (p : Pipe) (s : proc)
  (stdin stdout : filedesc) :
  ready3 s → (∀ n, pipe_ok W n = true) →
  fds s !! 0 = Some stdin → fds s !! 1 = Some stdout →
  spawn_chain stdin stdout p (stages (state_of (launch_pipe W p s))) ∧
  ∀ A B C,
    p = [A; B; C] →
    Forall runs_program p → Forall unredirected p →
    (∀ n, fork_ok W n = true) →
    ∃ s' ka kb kc k1 k2,
      launch_pipe W p s = Ret 3 s' ∧
      children s' = children s ++ [ka; kb; kc] ∧
      ch_argv ka = args A ∧ ch_argv kb = args B ∧ ch_argv kc = args C ∧
      ch_fds ka !! 0 = Some stdin ∧
      ch_fds ka !! 1 = Some (PipeW k1) ∧
      ch_fds kb !! 0 = Some (PipeR k1) ∧
      ch_fds kb !! 1 = Some (PipeW k2) ∧
      ch_fds kc !! 0 = Some (PipeR k2) ∧
      ch_fds kc !! 1 = Some stdout.
Proof.
  intros Hready Hok Hin Hout.
  pose proof Hready as [(_ & _ & _ & _ & Hst0) _].
  assert (Hchain : spawn_chain stdin stdout p
                     (stages (state_of (launch_pipe W p s)))).
  { apply spawn_chain_wired.
    destruct (command_loop_chain W stdout p Hok 0 _ stdin
                (ready3_linked s stdin Hready Hin) Hout) as (ws & Hws & Hch).
    change (launch_pipe W p s)
      with (command_loop W p 0
              (set_mypipes (set_slot (-1, -1, (-1, -1)) 0 (0, -1))
                 (set_mypipes (-1, -1, (-1, -1)) (set_pipenum 0 s)))).
    rewrite Hws. simpl. by rewrite Hst0. }
  split; [exact Hchain|].
  intros A B C -> Hext Hplain Hfk.
  destruct (launch_pipe_kids W [A; B; C] s Hready Hok Hfk Hext)
    as (s' & kids & Hrun & Hkids & Hlen & Hidx).
  rewrite Hrun in Hchain. cbn [state_of] in Hchain.
  destruct kids as [|ka [|kb [|kc [|]]]]; try discriminate Hlen.
  destruct (Hidx 0%nat A ka eq_refl eq_refl)
    as (sa & _ & _ & Ea & Wa & _).
  destruct (Hidx 1%nat B kb eq_refl eq_refl)
    as (sb & _ & _ & Eb & Wb & _).
  destruct (Hidx 2%nat C kc eq_refl eq_refl)
    as (sc & _ & _ & Ec & Wc & _).
  apply Forall_cons in Hplain as [PA Hplain].
  apply Forall_cons in Hplain as [PB Hplain].
  apply Forall_cons in Hplain as [PC _].
  assert (Hfds : ∀ c st, unredirected c →
            ch_fds (child_of (nfork st) (args c)
                      (external_child W c (forked st)))
            = fds (spawned c st)).
  { intros c st Hc. rewrite ch_fds_child_of, fds_external_child.
    by rewrite perform_io_redirect_unredirected. }
  destruct (stages s') as [|wa [|wb [|wc ws]]]; try discriminate.
  simpl in Wa, Wb, Wc. simplify_eq.
  cbn [spawn_chain] in Hchain.
  destruct Hchain as (Ia & _ & oa & Oa & _ & k1 & -> &
                      Ib & _ & ob & Ob & _ & k2 & -> &
                      Ic & _ & oc & Oc & _ & -> & _).
  eexists s', _, _, _, k1, k2.
  split; [exact Hrun|]. split; [exact Hkids|].
  rewrite !ch_argv_child_of, !Hfds by done.
  split_and!; try done.
  - by apply Ia.
  - by apply Oa.
  - by apply Ib.
  - by apply Ob.
  - by apply Ic.
  - by apply Oc.
Qed.

Lemma ls_grep_wc_external :
  Forall runs_program Demo.ls_grep_wc ∧ Forall unredirected Demo.ls_grep_wc.
Proof.
  split.
  - apply Forall_cons_2; [|apply Forall_cons_2; [|apply Forall_cons_2;
      [|apply Forall_nil_2]]];
      (eexists _, _; split_and!; [reflexivity|reflexivity|done]).
  - apply Forall_cons_2; [|apply Forall_cons_2; [|apply Forall_cons_2;
      [|apply Forall_nil_2]]]; (split; [discriminate|reflexivity]).
Qed.

Lemma wiring_invariant_witness :
  ∃ s' ka kb kc k1 k2,
    launch_pipe Demo.calm Demo.ls_grep_wc Demo.shell = Ret 3 s' ∧
    children s' = [ka; kb; kc] ∧
    ch_fds ka !! 0 = Some (Std 0) ∧ ch_fds ka !! 1 = Some (PipeW k1) ∧
    ch_fds kb !! 0 = Some (PipeR k1) ∧ ch_fds kb !! 1 = Some (PipeW k2) ∧
    ch_fds kc !! 0 = Some (PipeR k2) ∧ ch_fds kc !! 1 = Some (Std 1).
Proof.
  destruct (wiring_invariant Demo.calm Demo.ls_grep_wc Demo.shell
              (Std 0) (Std 1) ready3_demo_shell (λ _, eq_refl)
              eq_refl eq_refl) as [_ H].
  destruct (H _ _ _ eq_refl (proj1 ls_grep_wc_external)
              (proj2 ls_grep_wc_external) (λ _, eq_refl))
    as (s' & ka & kb & kc & k1 & k2 & Hrun & Hk & _ & _ & _
        & A0 & A1 & B0 & B1 & C0 & C1).
  exists s', ka, kb, kc, k1, k2. split; [exact Hrun|]. split; [exact Hk|].
  split; [exact A0|]. split; [exact A1|]. split; [exact B0|].
  split; [exact B1|]. split; [exact C0|exact C1].
Defined.

(** C1 as stated fails when a pipe fails: in [ls | wc] with a first pipe
    that fails, the shell forks both processes all the same; ls writes to
    the shell's standard output and wc reads the shell's standard input,
    not from ls. *)
Lemma unwired_after_failed_pipe :
  ∃ s' ka kb,
    launch_pipe Demo.first_pipe_fails
      [Demo.cmd ["ls"] Tpipe; Demo.cmd ["wc"] Tnil] Demo.shell = Ret 2 s' ∧
    children s' = [ka; kb] ∧
    ch_argv ka = ["ls"] ∧ ch_fds ka !! 1 = Some (Std 1) ∧
    ch_argv kb = ["wc"] ∧ ch_fds kb !! 0 = Some (Std 0).
Proof.
  eexists _, _, _. split; [by vm_compute|].
  split; [reflexivity|]. split_and!; by vm_compute.
Qed.

(** ** The channel ends a forked process holds *)

(** In a pipe of external commands whose channels could all be made and
    whose forks all succeed, the shell forks one process for each command;
    of the channels, the process holds only ends the shell held in its
    slots at that stage, the read end of the slot that is not current or
    the write end of the current slot; and it holds no channel by both
    ends, so that a reader sees the end of its input when the writers are
    done. *)
Theorem children_hold_their_own_ends (W : world) (p : Pipe) (s : proc) :
  ready3 s → (∀ n, pipe_ok W n = true) → (∀ n, fork_ok W n = true) →
  Forall runs_program p →
  ∃ s' kids,
    launch_pipe W p s = Ret (Z.of_nat (length p)) s' ∧
    children s' = children s ++ kids ∧
    length kids = length p ∧
    ∀ (i : nat) (c : Cmd) (kid : child),
      p !! i = Some c → kids !! i = Some kid →
      ch_argv kid = args c ∧
      one_way (ch_fds kid) ∧
      ∃ w, stages s' !! i = Some w ∧
           ∀ fd d k, ch_fds kid !! fd = Some d → Fd.chan_of d = Some k →
                     Some d = not_current_read w ∨ Some d = current_write w.
Proof.
  intros Hready Hok Hfk Hall.
  destruct (launch_pipe_kids W p s Hready Hok Hfk Hall)
    as (s' & kids & Hrun & Hkids & Hlen & Hidx).
  exists s', kids. split_and!; try done.
  intros i c kid Hc Hk.
  destruct (Hidx i c kid Hc Hk)
    as (st & src & last & -> & Hw & Hat & Hconf & Hsrcw & Hnew & _).
  rewrite ch_argv_child_of, ch_fds_child_of, fds_external_child.
  fold (spawned c st).
  destruct (stage_spawned_ends c src last st Hat Hconf)
    as (dw & Hdw & Hdwr & Hends).
  assert (Hends' : ∀ fd d k,
            fds (state_of (perform_io_redirect W c (spawned c st))) !! fd
            = Some d → Fd.chan_of d = Some k → d = src ∨ d = dw).
  { intros fd d k Hfd Hk'. apply (Hends fd d k); [|done].
    eapply redirections_ends; [by eapply spawned_std3|done..]. }
  split; [done|]. split.
  - intros k fd fd' Hr Hw'.
    destruct (Hends' _ _ k Hr eq_refl) as [Er|Er];
      [|by destruct (Hdwr k)].
    destruct (Hends' _ _ k Hw' eq_refl) as [Ew|Ew];
      [by destruct (Hsrcw k)|].
    apply (Hnew k); [by rewrite Hdw, Ew|done].
  - exists (wiring_of st). split; [exact Hw|].
    intros fd d k Hfd Hk'.
    unfold not_current_read, current_write.
    cbn [w_fds w_mypipes w_pipenum wiring_of].
    destruct Hat as (_ & _ & Hsrc & _).
    rewrite Hsrc, Hdw.
    destruct (Hends' fd d k Hfd Hk') as [-> | ->]; [by left|by right].
Qed.

Lemma children_hold_their_own_ends_witness :
  ∃ s' ka kb kc,
    launch_pipe Demo.calm Demo.ls_grep_wc Demo.shell = Ret 3 s' ∧
    children s' = [ka; kb; kc] ∧
    ch_argv kb = ["grep"; "main"] ∧ one_way (ch_fds kb).
Proof.
  destruct (children_hold_their_own_ends Demo.calm Demo.ls_grep_wc
              Demo.shell ready3_demo_shell (λ _, eq_refl) (λ _, eq_refl)
              (proj1 ls_grep_wc_external))
    as (s' & kids & Hrun & Hkids & Hlen & Hidx).
  destruct kids as [|ka [|kb [|kc [|]]]]; try discriminate Hlen.
  destruct (Hidx 1%nat _ kb eq_refl eq_refl) as (Hargv & Hone & _).
  exists s', ka, kb, kc. split; [exact Hrun|]. split; [exact Hkids|].
  split; [exact Hargv|exact Hone].
Defined.

(** ** A whole line *)

(** A line of pipes that [process_pipe] runs to its end, from a shell
    without children: wait was called once for every command of every
    pipe, no child is left, and pipenum and mypipes are reset. *)
Theorem line_leaves_no_child (W : world) (ps : list Pipe) :
  ∀ s s' : proc,
    children s = [] →
    process_pipe W ps s = Ret tt s' →
    children s' = [] ∧
    waits s' = (waits s + length (concat ps))%nat ∧
    pipenum s' = 0 ∧ mypipes s' = ((-1, -1), (-1, -1)).
Proof.
  induction ps as [|p next IH]; intros s s' Hnone Heq.
  - simpl in Heq. simplify_eq. simpl. split_and!; try done; lia.
  - cbn [process_pipe] in Heq.
    destruct (launch_pipe W p s) as [n s1| |] eqn:El; [|discriminate..].
    cbn [bind] in Heq.
    pose proof El as El0. unfold launch_pipe in El.
    destruct (command_loop_Ret W p _ _ _ _ El) as [Hn _].
    destruct (command_loop_forks W p _ _ _ _ El) as (_ & L & EL & Hl & _).
    simpl in EL. rewrite Hnone in EL. simpl in EL.
    destruct (close_all_family s1) as (Hc & Hw & _).
    assert (Hn' : Z.to_nat n = length p)
      by (rewrite Hn, Z.add_0_l; apply Nat2Z.id).
    destruct (wait_loop_reaps W (Z.to_nat n) (close_all s1))
      as (Hw2 & Hc2 & _).
    { rewrite Hc, EL, Hn'. done. }
    destruct (command_loop_unwaited W p 0
                (set_mypipes (set_slot (-1, -1, (-1, -1)) 0 (0, -1))
                   (set_mypipes (-1, -1, (-1, -1)) (set_pipenum 0 s))))
      as [Uw _].
    change (command_loop W p 0 _) with (launch_pipe W p s) in Uw.
    rewrite El0 in Uw. cbn [state_of] in Uw.
    destruct (IH _ s' Hc2 Heq) as (A & B & C & D).
    split_and!; try done.
    rewrite B, Hw2, Hw, Uw, Hn'. simpl. rewrite length_app.
    cbn [waits set_mypipes set_pipenum]. lia.
Qed.

Lemma line_leaves_no_child_witness :
  let line := [[Demo.cmd ["ls"] Tpipe; Demo.cmd ["wc"] Tnil];
               [Demo.cmd ["echo"; "done"] Tnil]] in
  let s' := state_of (process_pipe Demo.calm line Demo.shell) in
  children s' = [] ∧ waits s' = 3%nat.
Proof.
  intros line s'.
  assert (E : process_pipe Demo.calm line Demo.shell = Ret tt s')
    by (vm_compute; reflexivity).
  destruct (line_leaves_no_child Demo.calm line Demo.shell s' eq_refl E)
    as (Hc & Hw & _).
  split; [exact Hc|exact Hw].
Defined.

(** Running the pipes of a line is running the first of them and then the
    others, from the state the first ones have left; when the shell exits
    or crashes in one, the later ones are not run. *)
Theorem process_pipe_app (W : world) (ps1 ps2 : list Pipe) (s : proc) :
  process_pipe W (ps1 ++ ps2) s
  = bind (process_pipe W ps1 s) (λ _ s', process_pipe W ps2 s').
Proof.
  revert s. induction ps1 as [|p ps1 IH]; intros s.
  - cbn [app process_pipe bind]. by destruct ps2.
  - cbn [app process_pipe].
    destruct (launch_pipe W p s) as [n s1| |]; cbn [bind]; [|done..].
    apply IH.
Qed.

(** ** The standard error of a command in a pipe *)

Lemma launched_stderr (W : world) (c : Cmd) (src : filedesc)
  (last : bool) (s : proc) :
  at_stage src last s →
  output_to_file (cout c) = false →
  launched_table W c s !! 2
  = (if decide (cout c = TpipeErr) then launched_table W c s !! 1
     else fds s !! 2).
Proof.
  intros Hat Hfile.
  destruct (at_stage_wiring src last s c Hat) as (_ & _ & Ho & _).
  unfold output_sink, current_write in Ho.
  cbn [w_pipenum w_mypipes w_fds] in Ho.
  destruct Hat as (Hstd & Hnp & Hsrc & (P0 & P1 & P2) & Hpw & Hcur).
  assert (Hc : (slot (mypipes s) (pipenum s)).1 ≠ 2 ∧
               (slot (mypipes s) (pipenum s)).1
               ≠ (slot (mypipes s) (pipenum s)).2 ∧
               is_Some (fds s !! (slot (mypipes s) (pipenum s)).2)).
  { destruct last.
    - rewrite Hcur. cbn [fst snd]. split_and!; try done. apply Hstd.
    - destruct Hcur as (k & Hl & Hw & _ & (_ & _ & C2) & _).
      destruct Hl as (_ & _ & _ & Hr & _).
      split_and!; [done| |eauto].
      intros E. rewrite E in Hr. congruence. }
  destruct Hc as (C2 & C12 & [dw Hdw]).
  assert (Hnone : file_out W c = None).
  { unfold file_out. destruct (can_write W (outfile c)), (cout c); done. }
  assert (Hl : ∀ x, x ≠ 0 →
            launched_table W c s !! x
            = wired (cout c) (pipenum s) (mypipes s) (fds s) !! x).
  { intros x Hx. unfold launched_table, file_redirections. rewrite Hnone.
    case_decide; [|done]. by rewrite lookup_insert_ne. }
  rewrite !Hl by done. rewrite Ho, Hdw.
  unfold wired in *.
  set (t4 := Fd.close _ (Fd.dup2 _ 1 _)) in *.
  case_decide as Herr.
  - rewrite dup2_lookup_ne in Ho by done.
    assert (H4 : t4 !! (slot (mypipes s) (pipenum s)).2 = Some dw).
    { destruct (decide ((slot (mypipes s) (pipenum s)).2 = 1)) as [E|E].
      - rewrite E. by rewrite Ho, Hdw.
      - subst t4. rewrite close_lookup_ne by done.
        rewrite dup2_lookup_ne by done.
        rewrite close_lookup_ne.
        + rewrite dup2_lookup_ne; [done|].
          intros E0. rewrite E0 in Hdw.
          destruct last; [by rewrite Hcur in E0|].
          destruct Hcur as (k & _ & _ & _ & _ & (? & _)). done.
        + destruct last; [rewrite Hcur; cbn [snd]; congruence|].
          destruct Hcur as (k & _ & _ & ? & _). done. }
    by apply dup2_lookup_new.
  - subst t4. rewrite close_lookup_ne by done.
    rewrite dup2_lookup_ne by done. rewrite close_lookup_ne by done.
    by rewrite dup2_lookup_ne.
Qed.

(** For an external command whose output does not go to a file, called
    in the state [process_pipe] calls [process_cmd] in ([at_stage]), when
    fork succeeds: [process_cmd] forks a process for it, and in that
    process descriptor 2 is bound to what descriptor 1 is bound to when the
    command is followed by [|&], and is the shell's descriptor 2
    otherwise. *)
Theorem stderr_follows_the_pipe (W : world) (c : Cmd) (src : filedesc)
  (last : bool) (s : proc) :
  at_stage src last s →
  runs_program c → fork_ok W (nfork s) = true →
  output_to_file (cout c) = false →
  ∃ kid,
    process_cmd W c last s = Ret 0 (with_child kid s) ∧
    ch_argv kid = args c ∧
    ch_fds kid !! 2
    = (if decide (cout c = TpipeErr) then ch_fds kid !! 1 else fds s !! 2).
Proof.
  intros Hat Hc Hfork Hfile.
  eexists. split; [by apply process_cmd_runs_program|].
  rewrite ch_argv_child_of, ch_fds_child_of, fds_external_child.
  fold (spawned c s). split; [done|].
  pose proof (spawned_std3 c src last s Hat) as Hstd.
  rewrite !redirections_keep by done.
  assert (Hnone : file_out W c = None).
  { unfold file_out. destruct (can_write W (outfile c)), (cout c); done. }
  assert (Hl : ∀ x, x ≠ 0 →
            launched_table W c s !! x = fds (spawned c s) !! x).
  { intros x Hx. unfold launched_table, file_redirections, spawned.
    rewrite Hnone, fds_perform_pipe_redirect.
    cbn [pipenum mypipes fds reset_signals forked set_sigs].
    case_decide; [|reflexivity]. by rewrite lookup_insert_ne. }
  pose proof (launched_stderr W c src last s Hat Hfile) as H.
  by rewrite !Hl in H.
Qed.

Lemma stderr_follows_the_pipe_witness :
  let s1 :=
    next_stage Demo.calm false
      (set_mypipes (set_slot (-1, -1, (-1, -1)) 0 (0, -1))
         (set_mypipes (-1, -1, (-1, -1)) (set_pipenum 0 Demo.shell))) in
  ∃ kid,
    process_cmd Demo.calm (Demo.cmd ["ls"] TpipeErr) false s1
    = Ret 0 (with_child kid s1) ∧
    ch_argv kid = ["ls"] ∧ ch_fds kid !! 2 = ch_fds kid !! 1.
Proof.
  intros s1.
  destruct (stderr_follows_the_pipe Demo.calm (Demo.cmd ["ls"] TpipeErr)
              (Std 0) false s1) as (kid & Hrun & Ha & H2).
  - apply next_stage_linked; [|reflexivity].
    apply ready3_linked; [exact ready3_demo_shell|reflexivity].
  - eexists _, _. split_and!; [reflexivity|reflexivity|done].
  - reflexivity.
  - reflexivity.
  - exists kid. split; [exact Hrun|]. split; [exact Ha|exact H2].
Defined.

(** ** The descriptors of the shell after a whole line *)










(** ** The descriptors of the shell when it waits *)















(** ** Signals *)

Lemma born_default_refl (s s' : proc) :
  children s' = children s → born_default s s'.
Proof. intros E. exists []. rewrite E, app_nil_r. by split. Qed.

Lemma born_default_trans (s1 s2 s3 : proc) :
  born_default s1 s2 → born_default s2 s3 → born_default s1 s3.
Proof.
  intros (L1 & E1 & F1) (L2 & E2 & F2). exists (L1 ++ L2).
  rewrite E2, E1, <- app_assoc. split; [done|]. by apply Forall_app.
Qed.

Lemma fork_born_default (W : world) (argv : list string)
  (body : proc → outcome ending) (s : proc) :
  sigs (state_of (body (forked s))) = all_default →
  born_default s (fork W argv body s).
Proof.
  intros Hsig. unfold fork. destruct (fork_ok W (nfork s)).
  - eexists [_]. split; [reflexivity|]. apply Forall_singleton.
    by rewrite ch_sigs_child_of.
  - by apply born_default_refl.
Qed.

Lemma exec_cmd_born_default (W : world) (i : Z)
  (sub1 sub2 : proc → outcome Z) (c : Cmd) (s s' : proc) :
  (∀ s0 r s0', sub1 s0 = Ret r s0' → born_default s0 s0') →
  (∀ s0 r s0', sub2 s0 = Ret r s0' → born_default s0 s0') →
  exec_cmd W i sub1 sub2 c s = Ret tt s' →
  born_default s s'.
Proof.
  intros H1 H2. unfold exec_cmd.
  destruct (i =? 1); [|destruct (i =? 2); [|destruct (i =? 3)]].
  - unfold exec_echo. rewrite echo_loop_eq. simpl. intros Heq.
    simplify_eq. apply born_default_refl. by destruct (_ =? 1).
  - discriminate.
  - unfold exec_nice. destruct (nice_plan c) as [[p cmd]|]; [|discriminate].
    destruct cmd; simpl.
    + intros Heq. simplify_eq. by apply born_default_refl.
    + destruct (sub1 (setpriority p s)) as [r s1| |] eqn:E; simpl;
        [|discriminate..]. intros Heq. simplify_eq.
      exact (H1 (setpriority p s) _ _ E).
    + destruct (sub2 (setpriority p s)) as [r s1| |] eqn:E; simpl;
        [|discriminate..]. intros Heq. simplify_eq.
      exact (H2 (setpriority p s) _ _ E).
  - unfold exec_environment.
    destruct (environment_builtin W i (args c)) as [lines|]; [|discriminate].
    rewrite printf_lines_eq. intros Heq. simplify_eq.
    by apply born_default_refl.
Qed.

Lemma builtin_in_shell_born_default (W : world) (i : Z)
  (sub1 sub2 : proc → outcome Z) (c : Cmd) (s s' : proc) (r : Z) :
  (∀ s0 r s0', sub1 s0 = Ret r s0' → born_default s0 s0') →
  (∀ s0 r s0', sub2 s0 = Ret r s0' → born_default s0 s0') →
  builtin_in_shell W i sub1 sub2 c s = Ret r s' →
  born_default s s'.
Proof.
  intros H1 H2. unfold builtin_in_shell.
  destruct (perform_io_redirect W c _) as [[] s4| |] eqn:Eio; simpl;
    [|discriminate..].
  destruct (perform_io_redirect_family W c _ s4 Eio) as [_ Hc4].
  destruct (perform_pipe_redirect_rest c (sys_dup 1 (sys_dup 0 s).2).2)
    as (_ & Hc3 & _).
  destruct (exec_cmd W i sub1 sub2 c s4) as [[] s5| |] eqn:Eh; simpl;
    [|discriminate..].
  intros Heq. simplify_eq.
  destruct (exec_cmd_born_default W i sub1 sub2 c s4 s5 H1 H2 Eh)
    as (L & E & HL).
  exists L. split; [|done]. simpl in *. rewrite E. f_equal. congruence.
Qed.

Lemma process_cmd_args_born_default (W : world) (argv : list string) :
  ∀ na ci inf co outf last s r s',
    process_cmd_args W argv na ci inf co outf last s = Ret r s' →
    born_default s s'.
Proof.
  induction argv as [|name rest IH1 IH2] using args_ind;
    intros na ci inf co outf last s r s'; [discriminate|].
  simpl.
  destruct (String.eqb name "end" && (processing_rc s =? 0)); [discriminate|].
  destruct (negb (is_builtin name =? -1)); [destruct last|].
  - apply builtin_in_shell_born_default.
    + intros s0 r0 s0' E. by eapply IH1.
    + intros s0 r0 s0' E. destruct rest as [|a rest2]; [discriminate|].
      by eapply (IH2 a rest2).
  - intros Heq. simplify_eq. apply fork_born_default.
    apply (child_signals W (is_builtin name)
             (mkCmd (name :: rest) na ci inf co outf) rest (forked s)).
  - intros Heq. simplify_eq. apply fork_born_default.
    apply (child_signals W 0 (mkCmd (name :: rest) na ci inf co outf) rest).
Qed.

Lemma next_stage_sigs (W : world) (last : bool) (s : proc) :
  sigs (log_stage (next_stage W last s)) = sigs s.
Proof.
  unfold next_stage, sys_pipe, close_stale.
  repeat match goal with
         | |- context [if ?b then _ else _] => destruct b
         end; done.
Qed.

Lemma command_loop_sigs (W : world) (cs : list Cmd) :
  ∀ (n : Z) (s : proc), sigs (state_of (command_loop W cs n s)) = sigs s.
Proof.
  induction cs as [|c next IH]; intros n s; [done|].
  cbn [command_loop].
  set (last := match next with [] => true | _ => false end).
  pose proof (next_stage_sigs W last s) as Hs1.
  destruct (shrinks_process_cmd W c last (log_stage (next_stage W last s)))
    as (_ & Hs & _).
  destruct (process_cmd W c last _) as [ret s2| |]; cbn [bind state_of] in *;
    try congruence.
  destruct (ret <? 0); cbn [state_of]; [congruence|].
  rewrite IH. congruence.
Qed.

Lemma command_loop_born_default (W : world) (cs : list Cmd) :
  ∀ (n n' : Z) (s s' : proc),
    command_loop W cs n s = Ret n' s' → born_default s s'.
Proof.
  induction cs as [|c next IH]; intros n n' s s'.
  - simpl. intros Heq. simplify_eq. by apply born_default_refl.
  - cbn [command_loop].
    set (last := match next with [] => true | _ => false end).
    destruct (next_stage_family W last s) as [_ Hc1].
    destruct (process_cmd W c last _) as [ret s2| |] eqn:E; cbn [bind];
      [|discriminate..].
    apply process_cmd_args_born_default in E.
    assert (Hb : born_default s s2).
    { destruct E as (L & EL & HL). exists L. by rewrite EL, Hc1. }
    destruct (ret <? 0).
    + intros Heq. by simplify_eq.
    + intros Heq. eapply born_default_trans; [exact Hb|]. by eapply IH.
Qed.

(** While it launches a pipe the shell never changes its own signal
    dispositions, so it goes on ignoring SIGINT and SIGQUIT, and every
    process it forks, for an external command or for a built-in, is left
    with the default disposition for SIGINT, SIGQUIT and SIGTSTP. *)
Theorem signals_of_shell_and_children (W : world) (p : Pipe) (s : proc) :
  sigs (state_of (launch_pipe W p s)) = sigs s ∧
  ∀ n s', launch_pipe W p s = Ret n s' → born_default s s'.
Proof.
  split.
  - unfold launch_pipe. by rewrite command_loop_sigs.
  - intros n s' Heq. unfold launch_pipe in Heq.
    apply command_loop_born_default in Heq.
    destruct Heq as (L & E & HL). by exists L.
Qed.

Lemma signals_of_shell_and_children_witness :
  ∃ n s',
    launch_pipe Demo.calm Demo.ls_grep_wc Demo.shell = Ret n s' ∧
    sigs s' = mkSig SIG_IGN SIG_IGN SIG_DFL ∧
    map ch_sigs (children s') = [all_default; all_default; all_default].
Proof.
  eexists _, _. split; [vm_compute; reflexivity|].
  split; [|vm_compute; reflexivity].
  exact (proj1 (signals_of_shell_and_children Demo.calm Demo.ls_grep_wc
                  Demo.shell)).
Defined.

(** ** When the first pipe cannot be made *)

Lemma wired_nothing (co : token) (t : gmap Z filedesc) :
  is_Some (t !! 0) → t !! (-1) = None →
  wired co 1 ((0, -1), (-1, -1)) t = t.
Proof.
  intros [d0 E0] Hnone. unfold wired. cbn [slot c_not Z.eqb fst snd].
  assert (E1 : Fd.dup2 0 0 t = t)
    by (unfold Fd.dup2; rewrite E0; by apply insert_id).
  assert (E2 : Fd.close (-1) t = t) by (by apply delete_id).
  assert (E3 : ∀ x, Fd.dup2 (-1) x t = t)
    by (intros x; unfold Fd.dup2; by rewrite Hnone).
  rewrite E1, E2, E3, E2. case_decide; [apply E3|done].
Qed.

(** When the call of pipe for the first command of a pipe fails, the
    shell goes on.  For an external first command, when fork succeeds and
    the input file, if any, opens: the shell forks a process for it all
    the same, and that process has the descriptors of the shell but for
    its own redirections to files; so what it prints goes where the shell
    prints, not to the next command. *)
Theorem first_pipe_failure (W : world) (c c' : Cmd) (next : list Cmd)
  (s s' : proc) (n : Z) :
  ready3 s → fds s !! (-1) = None →
  pipe_ok W (npipe s) = false →
  fork_ok W (nfork s) = true →
  runs_program c →
  (cin c = Tin → can_read W (infile c) = true) →
  launch_pipe W (c :: c' :: next) s = Ret n s' →
  ∃ kid kids,
    children s' = children s ++ kid :: kids ∧
    ch_argv kid = args c ∧
    ch_fds kid = file_redirections W c (fds s) ∧
    (unredirected c → ch_fds kid = fds s).
Proof.
  intros [(H0 & H1 & _ & _ & Hst) H2] Hnone Hfail Hfork Hc Hin Heq.
  change (launch_pipe W (c :: c' :: next) s)
    with (command_loop W (c :: c' :: next) 0
            (set_mypipes ((0, -1), (-1, -1))
               (set_mypipes (-1, -1, (-1, -1)) (set_pipenum 0 s)))) in Heq.
  set (s0 := set_mypipes _ (set_mypipes _ (set_pipenum 0 s))) in Heq.
  assert (Hs1 : pipenum (next_stage W false s0) = 1 ∧
                mypipes (next_stage W false s0) = ((0, -1), (-1, -1)) ∧
                fds (next_stage W false s0) = fds s).
  { unfold next_stage, sys_pipe, close_stale. subst s0.
    cbn [pipenum mypipes npipe fds set_mypipes set_pipenum set_slot slot
         c_not Z.eqb negb fst snd sys_close set_fds].
    rewrite Hfail. cbn [pipenum mypipes fds set_npipe].
    split_and!; try reflexivity.
    unfold sys_close, Fd.close. cbn [fds set_fds set_pipenum set_mypipes].
    rewrite (delete_id (fds s) (-1) Hnone). by apply delete_id. }
  destruct Hs1 as (Hp & Hm & Hf).
  destruct (next_stage_family W false s0) as [Hn1 Hc1].
  cbn [command_loop] in Heq.
  set (st := log_stage (next_stage W false s0)) in *.
  change (nfork s0) with (nfork s) in Hn1.
  change (children s0) with (children s) in Hc1.
  change (pipenum (next_stage W false s0)) with (pipenum st) in Hp.
  change (mypipes (next_stage W false s0)) with (mypipes st) in Hm.
  change (fds (next_stage W false s0)) with (fds st) in Hf.
  clearbody st.
  rewrite (process_cmd_runs_program W c false st Hc) in Heq
    by (by rewrite Hn1).
  cbn [bind] in Heq. change (0 <? 0) with false in Heq. cbv iota in Heq.
  destruct (command_loop_forks W (c' :: next) _ _ _ _ Heq)
    as (_ & L & EL & _).
  cbn [children with_child set_children] in EL. rewrite Hc1 in EL.
  eexists _, L. split; [by rewrite EL, <- app_assoc|].
  rewrite ch_argv_child_of, ch_fds_child_of, fds_external_child.
  assert (Hw : fds (perform_pipe_redirect c (reset_signals (forked st)))
               = fds s).
  { rewrite fds_perform_pipe_redirect.
    cbn [pipenum mypipes fds reset_signals forked set_sigs].
    rewrite Hp, Hm, Hf. by apply wired_nothing. }
  destruct (perform_io_redirect_returns W c
              (perform_pipe_redirect c (reset_signals (forked st))) Hin)
    as (k4 & Hk4 & _).
  rewrite Hk4. cbn [state_of].
  destruct (perform_io_redirect_Ret W c _ k4 ltac:(by rewrite Hw) Hk4)
    as (-> & _).
  rewrite Hw. split_and!; try done.
  intros [Hi Ho]. unfold file_redirections, file_out.
  rewrite decide_False by done.
  destruct (can_write W (outfile c)), (cout c); done.
Qed.

Lemma first_pipe_failure_witness :
  ∃ s' kid kids,
    launch_pipe Demo.first_pipe_fails
      [Demo.cmd ["ls"] Tpipe; Demo.cmd ["wc"] Tnil] Demo.shell = Ret 2 s' ∧
    children s' = kid :: kids ∧
    ch_argv kid = ["ls"] ∧ ch_fds kid = std_table.
Proof.
  assert (E : launch_pipe Demo.first_pipe_fails
                [Demo.cmd ["ls"] Tpipe; Demo.cmd ["wc"] Tnil] Demo.shell
              = Ret 2 (state_of
                  (launch_pipe Demo.first_pipe_fails
                     [Demo.cmd ["ls"] Tpipe; Demo.cmd ["wc"] Tnil]
                     Demo.shell)))
    by (vm_compute; reflexivity).
  assert (Hc : runs_program (Demo.cmd ["ls"] Tpipe))
    by (eexists _, _; split_and!; [reflexivity|reflexivity|done]).
  assert (Hin : cin (Demo.cmd ["ls"] Tpipe) = Tin →
                can_read Demo.first_pipe_fails
                  (infile (Demo.cmd ["ls"] Tpipe)) = true)
    by discriminate.
  destruct (first_pipe_failure Demo.first_pipe_fails
              (Demo.cmd ["ls"] Tpipe) (Demo.cmd ["wc"] Tnil) [] Demo.shell
              _ 2 ready3_demo_shell eq_refl eq_refl eq_refl Hc Hin E)
    as (kid & kids & Hk & Ha & _ & Hf).
  eexists _, kid, kids. split; [exact E|]. split; [exact Hk|].
  split; [exact Ha|]. apply Hf. split; [discriminate|reflexivity].
Defined.

(** ** nice with a command *)

Lemma prio_perform_io_redirect (W : world) (c : Cmd) (s : proc) :
  prio (state_of (perform_io_redirect W c s)) = prio s.
Proof.
  unfold perform_io_redirect, redirect_output.
  case_decide; [destruct (can_read W (infile c))|]; cbn [bind state_of];
    try done; destruct (cout c), (can_write W (outfile c)); done.
Qed.

Lemma ch_prio_external (W : world) (pid : nat) (argv : list string)
  (c : Cmd) (k : proc) :
  ch_prio (child_of pid argv (external_child W c k)) = prio k.
Proof.
  unfold external_child.
  pose proof (prio_perform_io_redirect W c
                (perform_pipe_redirect c (reset_signals k))) as Hp.
  destruct (perform_pipe_redirect_rest c (reset_signals k))
    as (_ & _ & _ & _ & Hp1).
  rewrite Hp1 in Hp. cbn [prio reset_signals set_sigs] in Hp.
  destruct (perform_io_redirect W c _) as [[] k4|st k4|k4];
    cbn [bind state_of] in *; [|done..].
  destruct (execvp W (args c)); done.
Qed.

(** [nice number command], as the last command of a pipe: setpriority is
    called in the shell itself, so the shell keeps the new priority when
    the command is over; the command, when it is external, is run by one
    forked process, which does not call setpriority. *)
Theorem nice_with_command_renices_the_shell (W : world) (c : Cmd)
  (a1 name : string) (rest : list string) (p : Z) (s : proc) :
  args c = "nice" :: a1 :: name :: rest →
  nice_plan c = Some (p, FromArg2) →
  is_builtin name = -1 → name ≠ "end" →
  (cin c = Tin → can_read W (infile c) = true) →
  ∃ s', process_cmd W c true s = Ret 0 s' ∧
        prio s' = prio s ++ [p] ∧
        (fork_ok W (nfork s) = true →
         ∃ kid, children s' = children s ++ [kid] ∧
                ch_argv kid = name :: rest ∧ ch_prio kid = []).
Proof.
  intros Hargs Hplan Hext Hend Hr.
  rewrite (process_cmd_unfold W c "nice" (a1 :: name :: rest) true s Hargs).
  assert (E1 : String.eqb "nice" "end" && (processing_rc s =? 0) = false)
    by reflexivity.
  rewrite E1. change (is_builtin "nice") with 3. cbn [Z.eqb negb].
  unfold builtin_in_shell.
  destruct (perform_io_redirect_returns W c
              (perform_pipe_redirect c (sys_dup 1 (sys_dup 0 s).2).2) Hr)
    as (s1 & -> & Hp & _ & Hc & Hn).
  destruct (perform_pipe_redirect_rest c (sys_dup 1 (sys_dup 0 s).2).2)
    as (_ & Hc0 & Hn0 & _ & Hp0).
  rewrite Hp0 in Hp. rewrite Hc0 in Hc. rewrite Hn0 in Hn.
  cbn [prio children nfork sys_dup set_fds snd] in Hp, Hc, Hn.
  cbn [bind]. change (exec_cmd W 3) with exec_nice.
  unfold exec_nice. rewrite Hplan. unfold nice_sub2.
  rewrite (process_cmd_unfold W (nice_temp W (name :: rest)) name rest
             (temp_next_null W) (setpriority p s1) eq_refl).
  apply String.eqb_neq in Hend. rewrite Hend, Hext.
  cbn [andb Z.eqb negb bind].
  eexists. split; [reflexivity|].
  cbn [prio children sys_close sys_dup2 set_fds].
  unfold fork. cbn [nfork setpriority]. rewrite Hn.
  destruct (fork_ok W (nfork s)).
  - cbn [prio children set_children set_nfork setpriority].
    rewrite Hp, Hc. split; [done|]. intros _. eexists. split; [reflexivity|].
    split; [by destruct (external_child W _ _)|].
    by rewrite ch_prio_external.
  - cbn [prio set_nfork setpriority]. rewrite Hp. split; [done|discriminate].
Qed.

Lemma nice_with_command_renices_the_shell_witness :
  ∃ s', process_cmd Demo.calm (Demo.cmd ["nice"; "10"; "ls"; "-l"] Tnil)
          true Demo.shell = Ret 0 s' ∧
        prio s' = [10] ∧ map ch_argv (children s') = [["ls"; "-l"]].
Proof.
  destruct (nice_with_command_renices_the_shell Demo.calm
              (Demo.cmd ["nice"; "10"; "ls"; "-l"] Tnil) "10" "ls" ["-l"] 10
              Demo.shell eq_refl eq_refl eq_refl)
    as (s' & E & Hp & Hk); [discriminate|discriminate|].
  exists s'. split; [exact E|]. split; [exact Hp|].
  destruct (Hk eq_refl) as (kid & Hck & Hargv & _).
  rewrite Hck. simpl. rewrite Hargv. reflexivity.
Defined.

(** ** A built-in in the middle of a pipe *)

Lemma launched_sink (W : world) (c : Cmd) (src : filedesc) (s : proc) :
  at_stage src false s → output_to_file (cout c) = false →
  spared s ∧ ∃ ch, launched_table W c s !! 1 = Some (PipeW ch).
Proof.
  intros Hat Hfile.
  destruct (at_stage_wiring src false s c Hat) as (_ & _ & _ & k & Hk & _).
  destruct Hat as (_ & _ & _ & (P0 & P1 & P2) & _ & (_ & _ & _ & _
                   & (C0 & C1 & C2) & _)).
  split.
  { unfold spared, discarded. set_unfold. split_and!; intros [?|?]; congruence. }
  exists k. unfold output_sink in Hk. cbn [w_pipenum w_mypipes w_fds] in Hk.
  unfold launched_table, file_redirections, file_out.
  assert (Hnone : (if can_write W (outfile c) then
                     match cout c with
                     | Tout => Some (FileW (outfile c) false, false)
                     | Tapp => Some (FileW (outfile c) true, false)
                     | ToutErr => Some (FileW (outfile c) false, true)
                     | TappErr => Some (FileW (outfile c) true, true)
                     | _ => None
                     end
                   else None) = None).
  { destruct (can_write W (outfile c)), (cout c); done. }
  rewrite Hnone. case_decide; [|done]. by rewrite lookup_insert_ne.
Qed.

(** A built-in that has a successor in its pipe and does not write to a
    file runs in a child whose descriptor 1 is the write end of the
    channel to the successor: what echo, and cd, pwd, setenv, unsetenv or
    where, print is fed to the next command, and the child exits with
    status 0. *)
Theorem builtin_prints_down_the_pipe (W : world) (c : Cmd) (i : Z)
  (sub1 sub2 : proc → outcome Z) (name : string) (rest : list string)
  (src : filedesc) (s : proc) :
  at_stage src false s → output_to_file (cout c) = false →
  (cin c = Tin → can_read W (infile c) = true) →
  args c = name :: rest →
  ∃ ch,
    launched_table W c s !! 1 = Some (PipeW ch) ∧
    (i = 1 → rest ≠ [] →
     ∃ k, builtin_child W i sub1 sub2 c (forked s) = Exit 0 k ∧
          out k = map (λ a, (Some (PipeW ch), a +:+ " ")) rest
                  ++ [(Some (PipeW ch), "
")]) ∧
    (∀ lines, i ≠ 1 → i ≠ 2 → i ≠ 3 →
     environment_builtin W i (args c) = Some lines →
     ∃ k, builtin_child W i sub1 sub2 c (forked s) = Exit 0 k ∧
          out k = map (λ l, (Some (PipeW ch), l)) lines).
Proof.
  intros Hat Hfile Hr Hargs.
  pose proof Hat as (Hstd & _).
  destruct (launched_sink W c src s Hat Hfile) as [Hsp [ch Hch]].
  exists ch. split; [exact Hch|].
  destruct (child_redirections W c s Hstd Hsp Hr) as (k4 & E & Hf & Ho).
  rewrite <- Hf in Hch.
  split.
  - intros -> Hrest. unfold builtin_child. rewrite E. cbn [bind].
    change (exec_cmd W 1 sub1 sub2 c k4) with (exec_echo c k4).
    unfold exec_echo.
    rewrite Hargs. change (tail (name :: rest)) with rest.
    rewrite echo_loop_eq. cbn [fst snd].
    assert (E1 : (1 + Z.of_nat (length rest) =? 1) = false).
    { apply Z.eqb_neq. destruct rest; [done|]. rewrite length_cons. lia. }
    rewrite E1. cbn [bind]. eexists. split; [reflexivity|].
    rewrite out_printf. cbn [out fds set_out]. by rewrite Ho, Hch.
  - intros lines N1 N2 N3 Henv. unfold builtin_child. rewrite E. cbn [bind].
    unfold exec_cmd.
    destruct (Z.eqb_spec i 1); [done|]. destruct (Z.eqb_spec i 2); [done|].
    destruct (Z.eqb_spec i 3); [done|].
    unfold exec_environment. rewrite Henv, printf_lines_eq. cbn [bind].
    eexists. split; [reflexivity|]. cbn [out set_out]. by rewrite Ho, Hch.
Qed.

Lemma builtin_prints_down_the_pipe_witness :
  let s1 :=
    next_stage Demo.calm false
      (set_mypipes (set_slot (-1, -1, (-1, -1)) 0 (0, -1))
         (set_mypipes (-1, -1, (-1, -1)) (set_pipenum 0 Demo.shell))) in
  ∃ k, builtin_child Demo.calm 1 Crash Crash (Demo.cmd ["echo"; "hi"] Tpipe)
         (forked s1) = Exit 0 k ∧
       out k = [(Some (PipeW 0), "hi "); (Some (PipeW 0), "
")].
Proof.
  intros s1.
  destruct (builtin_prints_down_the_pipe Demo.calm
              (Demo.cmd ["echo"; "hi"] Tpipe) 1 Crash Crash "echo" ["hi"]
              (Std 0) s1) as (ch & Hch & Hecho & _).
  - apply next_stage_linked; [|reflexivity].
    apply ready3_linked; [exact ready3_demo_shell|reflexivity].
  - reflexivity.
  - discriminate.
  - reflexivity.
  - destruct (Hecho eq_refl) as (k & E & Ho); [discriminate|].
    exists k. split; [exact E|]. rewrite Ho.
    assert (Hc : ch = 0%nat).
    { assert (Hv : launched_table Demo.calm (Demo.cmd ["echo"; "hi"] Tpipe) s1
                   !! 1 = Some (PipeW 0)) by (vm_compute; reflexivity).
      rewrite Hv in Hch. by simplify_eq. }
    rewrite Hc. reflexivity.
Defined.

(** ** What exec_nice reads without having written it *)

(** [exec_nice] hands [process_cmd] a command whose [next] field it never
    sets.  For [nice number logout] as the last command of a pipe the
    value found there decides what happens: when it reads as NULL, logout
    runs in the shell and ends it; when it does not, logout runs in a
    forked process, and the shell goes on, with its priority changed. *)
Theorem nice_reads_uninitialised_next (W : world) (c : Cmd) (a1 : string)
  (rest : list string) (p : Z) (s : proc) :
  args c = "nice" :: a1 :: "logout" :: rest →
  nice_plan c = Some (p, FromArg2) →
  (cin c = Tin → can_read W (infile c) = true) →
  (temp_next_null W = true →
   ∃ s', process_cmd W c true s = Exit 0 s' ∧ prio s' = prio s ++ [p]) ∧
  (temp_next_null W = false →
   ∃ s', process_cmd W c true s = Ret 0 s' ∧ prio s' = prio s ++ [p] ∧
         (fork_ok W (nfork s) = true →
          ∃ kid, children s' = children s ++ [kid] ∧
                 ch_argv kid = "logout" :: rest ∧ ch_end kid = Exited 0)).
Proof.
  intros Hargs Hplan Hr.
  rewrite (process_cmd_unfold W c "nice" (a1 :: "logout" :: rest) true s
             Hargs).
  assert (E1 : String.eqb "nice" "end" && (processing_rc s =? 0) = false)
    by reflexivity.
  rewrite E1. change (is_builtin "nice") with 3. cbn [Z.eqb negb].
  unfold builtin_in_shell.
  destruct (perform_io_redirect_returns W c
              (perform_pipe_redirect c (sys_dup 1 (sys_dup 0 s).2).2) Hr)
    as (s1 & -> & Hp & _ & Hc & Hn).
  destruct (perform_pipe_redirect_rest c (sys_dup 1 (sys_dup 0 s).2).2)
    as (_ & Hc0 & Hn0 & _ & Hp0).
  rewrite Hp0 in Hp. rewrite Hc0 in Hc. rewrite Hn0 in Hn.
  cbn [prio children nfork sys_dup set_fds snd] in Hp, Hc, Hn.
  cbn [bind]. change (exec_cmd W 3) with exec_nice.
  unfold exec_nice. rewrite Hplan. unfold nice_sub2.
  rewrite (process_cmd_unfold W (nice_temp W ("logout" :: rest)) "logout" rest
             (temp_next_null W) (setpriority p s1) eq_refl).
  assert (E2 : String.eqb "logout" "end"
               && (processing_rc (setpriority p s1) =? 0) = false)
    by reflexivity.
  rewrite E2. change (is_builtin "logout") with 2. cbn [Z.eqb negb].
  split; intros ->.
  - unfold builtin_in_shell.
    destruct (perform_io_redirect_returns W (nice_temp W ("logout" :: rest))
                (perform_pipe_redirect (nice_temp W ("logout" :: rest))
                   (sys_dup 1 (sys_dup 0 (setpriority p s1)).2).2))
      as (s2 & -> & Hp2 & _); [discriminate|].
    destruct (perform_pipe_redirect_rest (nice_temp W ("logout" :: rest))
                (sys_dup 1 (sys_dup 0 (setpriority p s1)).2).2)
      as (_ & _ & _ & _ & Hp3).
    rewrite Hp3 in Hp2. cbn [prio sys_dup set_fds snd setpriority] in Hp2.
    cbn [bind]. eexists. split; [reflexivity|]. by rewrite Hp2, Hp.
  - cbn [bind]. eexists. split; [reflexivity|].
    cbn [prio children sys_close sys_dup2 set_fds].
    unfold fork. cbn [nfork setpriority]. rewrite Hn.
    destruct (fork_ok W (nfork s)).
    + cbn [prio children set_children set_nfork setpriority].
      rewrite Hp, Hc. split; [done|]. intros _. eexists.
      split; [reflexivity|].
      unfold builtin_child.
      destruct (perform_io_redirect_returns W
                  (nice_temp W ("logout" :: rest))
                  (perform_pipe_redirect (nice_temp W ("logout" :: rest))
                     (reset_signals (forked (setpriority p s1)))))
        as (s2 & -> & _); [discriminate|].
      done.
    + cbn [prio set_nfork setpriority]. rewrite Hp.
      split; [done|discriminate].
Qed.

Lemma nice_reads_uninitialised_next_witness :
  (∃ s', process_cmd Demo.calm (Demo.cmd ["nice"; "5"; "logout"] Tnil) true
           Demo.shell = Exit 0 s') ∧
  (∃ s', process_cmd Demo.garbage_next
           (Demo.cmd ["nice"; "5"; "logout"] Tnil) true Demo.shell
         = Ret 0 s' ∧ prio s' = [5]).
Proof.
  split.
  - destruct (nice_reads_uninitialised_next Demo.calm
                (Demo.cmd ["nice"; "5"; "logout"] Tnil) "5" [] 5 Demo.shell
                eq_refl eq_refl) as [Hnull _]; [discriminate|].
    destruct (Hnull eq_refl) as (s' & E & _). by exists s'.
  - destruct (nice_reads_uninitialised_next Demo.garbage_next
                (Demo.cmd ["nice"; "5"; "logout"] Tnil) "5" [] 5 Demo.shell
                eq_refl eq_refl) as [_ Hgarb]; [discriminate|].
    destruct (Hgarb eq_refl) as (s' & E & Hp & _). exists s'. by split.
Defined.

(** ** A pipe of external commands *)

Lemma next_stage_quiet (W : world) (last : bool) (s : proc) :
  out (log_stage (next_stage W last s)) = out s ∧
  prio (log_stage (next_stage W last s)) = prio s.
Proof.
  unfold next_stage, sys_pipe, close_stale.
  repeat match goal with
         | |- context [if ?b then _ else _] => destruct b
         end; done.
Qed.

Lemma command_loop_external (W : world) (cs : list Cmd) :
  Forall (λ c, ∃ name rest, args c = name :: rest ∧ is_builtin name = -1 ∧
                            name ≠ "end") cs →
  ∀ (n : Z) (s : proc),
    ∃ s', command_loop W cs n s = Ret (n + Z.of_nat (length cs)) s' ∧
          nfork s' = (nfork s + length cs)%nat ∧
          out s' = out s ∧ prio s' = prio s.
Proof.
  induction 1 as [|c next (name & rest & Hargs & Hext & Hend) _ IH];
    intros n s.
  - exists s. simpl. split_and!; try done; first [f_equal; lia|lia].
  - cbn [command_loop].
    set (last := match next with [] => true | _ => false end).
    destruct (next_stage_family W last s) as [Hn1 _].
    destruct (next_stage_quiet W last s) as [Ho1 Hp1].
    set (s1 := log_stage (next_stage W last s)) in *. clearbody s1.
    rewrite (process_cmd_unfold W c name rest last s1 Hargs).
    apply String.eqb_neq in Hend. rewrite Hend, Hext.
    change (-1 =? -1) with true.
    cbn [andb negb bind]. change (0 <? 0) with false. cbv iota.
    destruct (IH (n + 1) (fork W (args c) (external_child W c) s1))
      as (s' & E & Hn & Ho & Hp).
    exists s'. rewrite E, Hn, Ho, Hp. rewrite length_cons.
    split_and!.
    + f_equal. lia.
    + unfold fork. destruct (fork_ok W (nfork s1)); simpl; lia.
    + unfold fork. by destruct (fork_ok W (nfork s1)).
    + unfold fork. by destruct (fork_ok W (nfork s1)).
Qed.

(** A pipe of external commands, none of them [end], is always launched
    to its end, whatever the system calls answer: [process_cmd] is called
    for every command, fork is called exactly once for each, and the
    shell itself prints nothing and does not change its priority. *)
Theorem external_pipe_always_launches (W : world) (p : Pipe) (s : proc) :
  Forall (λ c, ∃ name rest, args c = name :: rest ∧ is_builtin name = -1 ∧
                            name ≠ "end") p →
  ∃ s', launch_pipe W p s = Ret (Z.of_nat (length p)) s' ∧
        nfork s' = (nfork s + length p)%nat ∧
        out s' = out s ∧ prio s' = prio s.
Proof.
  intros Hp. unfold launch_pipe.
  destruct (command_loop_external W p Hp 0
              (set_mypipes (set_slot (-1, -1, (-1, -1)) 0 (0, -1))
                 (set_mypipes (-1, -1, (-1, -1)) (set_pipenum 0 s))))
    as (s' & E & Hn & Ho & Hpr).
  exists s'. split; [exact E|]. by split_and!.
Qed.

Lemma external_pipe_always_launches_witness :
  ∃ s', launch_pipe Demo.first_fork_fails Demo.ls_grep_wc Demo.shell
        = Ret 3 s' ∧
        nfork s' = 3%nat ∧ out s' = [].
Proof.
  destruct (external_pipe_always_launches Demo.first_fork_fails
              Demo.ls_grep_wc Demo.shell) as (s' & E & Hn & Ho & _).
  - repeat (apply Forall_cons_2;
            [eexists _, _; split; [reflexivity|];
             split; [reflexivity|discriminate]|]).
    apply Forall_nil_2.
  - exists s'. split; [exact E|]. by split.
Defined.

(** ** is_dir and the other file types *)

(** [is_dir] tests one bit of the mode where the file type is a field of
    four bits: a block device (S_IFBLK, 0060000) and a socket (S_IFSOCK,
    0140000) have that bit set too, so [is_dir] takes them for
    directories and [is_valid_cmd] refuses them even when they can be
    executed. *)
Theorem is_dir_takes_devices_for_directories (fs : fsys) (path : string) :
  Z.land (st_mode fs path) 61440 = 24576 ∨
  Z.land (st_mode fs path) 61440 = 49152 →
  is_dir fs path ≠ 0 ∧ is_valid_cmd fs path = 0.
Proof.
  intros Hfmt.
  assert (Hbit : Z.testbit (st_mode fs path) 14 = true).
  { pose proof (Z.land_spec (st_mode fs path) 61440 14) as Hb.
    change (Z.testbit 61440 14) with true in Hb.
    rewrite andb_true_r in Hb. rewrite <- Hb.
    by destruct Hfmt as [-> | ->]. }
  assert (Hd : is_dir fs path ≠ 0).
  { unfold is_dir. rewrite WhereFacts.land_S_IFDIR. congruence. }
  split; [exact Hd|]. unfold is_valid_cmd.
  destruct (Z.eqb_spec (is_dir fs path) 0) as [|_]; [done|].
  cbn [negb]. by rewrite orb_true_r.
Qed.

Lemma is_dir_takes_devices_for_directories_witness :
  is_valid_cmd (mkFsys (λ _, true) (λ _, 25008)) "/dev/sda" = 0.
Proof.
  apply (is_dir_takes_devices_for_directories
           (mkFsys (λ _, true) (λ _, 25008)) "/dev/sda").
  left. reflexivity.
Defined.
